(** * Offline-first inventory ledger: shallow embedding and verification

    The development follows the TypeScript sources:
    - [src/utils/db.ts]: the IndexedDB wrapper and the sync queue;
    - [src/hooks/useOfflineSync.ts]: the sync cycle ([syncNow]);
    - [App.tsx]: the request, approve and reject handlers;
    - [StockActionModal], [TransferItemModal], [Dashboard]: the
      validation done by the components that call the handlers;
    - [App.tsx] again: sign-in, scanning, the choice of the screen and
      the start from the persisted state; [TwoFactorAuth.tsx];
      [OfflineBanner.tsx]; [CategoryManagement.tsx];
    - [BarcodeLabelModal.tsx]: the Code 39 renderer;
    - [public/service-worker.js]: the caches and the fetch strategies.

    Modelling choices.
    - Quantities are JavaScript numbers that come from [parseInt]; they
      are integers, modelled by [Z] (exact below 2^53).
    - Dates and random numbers are inputs of the handlers (record
      [Clock]).
    - React state cells are fields of a record that the handlers
      transform; an updater passed to a state setter runs once, at the
      place where it is queued.  The values a handler closes over (the
      [items], [warehouses] and [categories] of the render that created
      it) are explicit parameters.
    - The [syncQueue] object store is a list in key order with its key
      generator; each IndexedDB request takes its outcome from a
      schedule, so that a failing request ([onerror]) can be stated.
    - The object stores keyed by a string ([items], [transactions],
      [appState], ...) are lists in key order, the keys compared
      character by character; they are kept in a record of their own
      ([Stores.Disk]), apart from the queue. *)

From Stdlib Require Import ZArith NArith List String Ascii Bool Lia DecimalString.
From Stdlib Require Import Sorted Permutation.
From Stdlib Require OrderedTypeEx DecimalPos.
Import ListNotations.
Open Scope string_scope.
Open Scope Z_scope.

(** ** Records of [types.ts] *)

Module Types.

(** Modelled from the spec: [types.ts] is not among the sources; the
    statuses are those of section 3, which [EditItemModal] also lists. *)
Inductive ItemStatus := RAW | FINISHED | GOOD_AS_NEW | OLD_USED.

(** Modelled from the spec: the fields of [Item] in section 3, which are
    the ones the handlers and components read.  Monetary amounts are
    only copied by the ledger; they are kept in minor units. *)
Record Item := mkItem {
  i_id : string;
  i_name : string;
  i_warehouseId : string;
  i_categoryId : string;
  i_quantity : Z;
  i_baseCost : Z;
  i_freight : Z;
  i_duties : Z;
  i_taxes : Z;
  i_trueUnitCost : Z;
  i_status : ItemStatus;
  i_barcode : string;
  i_lastUpdated : string
}.

(** Modelled from the spec: [Warehouse] of section 3. *)
Record Warehouse := mkWarehouse {
  w_id : string;
  w_name : string;
  w_prefix : string
}.

(** Modelled from the spec: [Category] of section 3. *)
Record Category := mkCategory {
  c_id : string;
  c_name : string;
  c_code : string;
  c_parentId : option string
}.

(** Modelled from the spec: the two enumerations of [Transaction]. *)
Inductive TxType := STOCK_IN | STOCK_OUT | TRANSFER.
Inductive TxStatus := PENDING | APPROVED | REJECTED.

(** Modelled from the spec: [Transaction] of section 3; the handlers
    build its records field by field. *)
Record Transaction := mkTx {
  t_id : string;
  t_type : TxType;
  t_itemId : string;
  t_warehouseId : string;
  t_targetWarehouseId : option string;
  t_quantity : Z;
  t_status : TxStatus;
  t_staffName : string;
  t_timestamp : string;
  t_rejectionReason : option string
}.

(** Modelled from the spec: [Notification] of section 3, as
    [addNotification] builds it. *)
Record Notification := mkNotif {
  n_id : string;
  n_title : string;
  n_message : string;
  n_read : bool;
  n_timestamp : string
}.

(** The string a [TxType] is in the source. *)
Definition typeName (t : TxType) : string :=
  match t with
  | STOCK_IN => "STOCK_IN"
  | STOCK_OUT => "STOCK_OUT"
  | TRANSFER => "TRANSFER"
  end.

(** [payload: unknown] of a queued action: the handlers store a whole
    transaction, [{ txId }] or [{ txId, reason }]. *)
Inductive Payload :=
| PTransaction (tx : Transaction)
| PApprove (txId : string)
| PReject (txId reason : string).

End Types.
Import Types.

(** ** JavaScript helpers *)

Module Js.

(** [String(n)] for an integer. *)
Definition showZ (z : Z) : string := NilZero.string_of_int (Z.to_int z).
Definition showN (n : N) : string := NilZero.string_of_uint (N.to_uint n).

(** [s || dflt] on strings: the empty string is falsy. *)
Definition orElse (s dflt : string) : string :=
  if String.eqb s "" then dflt else s.

(** [o?.f || dflt]. *)
Definition optOrElse (o : option string) (dflt : string) : string :=
  match o with
  | Some s => orElse s dflt
  | None => dflt
  end.

(** [s.split(sep)] for a one-character separator; [cur] holds the
    characters of the piece being read, last one first. *)
Fixpoint revString (acc : string) (s : string) : string :=
  match s with
  | EmptyString => acc
  | String c r => revString (String c acc) r
  end.

Fixpoint splitGo (sep : ascii) (cur : string) (s : string) : list string :=
  match s with
  | EmptyString => [revString "" cur]
  | String c r =>
      if Ascii.eqb c sep
      then revString "" cur :: splitGo sep "" r
      else splitGo sep (String c cur) r
  end.

Definition split (sep : ascii) (s : string) : list string := splitGo sep "" s.

(** The separator does not occur in [s]. *)
Fixpoint avoids (sep : ascii) (s : string) : bool :=
  match s with
  | EmptyString => true
  | String c r => negb (Ascii.eqb c sep) && avoids sep r
  end.

(** [a[i]] in a template string: a missing element prints as
    "undefined". *)
Definition at_ (l : list string) (i : nat) : string :=
  nth i l "undefined".

Definition isDigit (c : ascii) : bool :=
  let n := N_of_ascii c in ((48 <=? n) && (n <=? 57))%N.

Definition digitVal (c : ascii) : Z := Z.of_N (N_of_ascii c) - 48.

(** White space skipped by [parseInt]: TAB, LF, VT, FF, CR, SP. *)
Definition isSpace (c : ascii) : bool :=
  let n := N_of_ascii c in
  ((n =? 9) || (n =? 10) || (n =? 11) || (n =? 12) || (n =? 13) || (n =? 32))%N.

Fixpoint skipSpaces (s : string) : string :=
  match s with
  | String c r => if isSpace c then skipSpaces r else s
  | EmptyString => s
  end.

(** The longest prefix of digits, read in base ten; [None] when there is
    no digit. *)
Fixpoint digits (acc : option Z) (s : string) : option Z :=
  match s with
  | String c r =>
      if isDigit c
      then digits (Some (10 * match acc with Some a => a | None => 0 end + digitVal c)) r
      else acc
  | EmptyString => acc
  end.

(** [parseInt(s, 10)]; [None] is NaN. *)
Definition parseInt (s : string) : option Z :=
  match skipSpaces s with
  | String "-" r => option_map Z.opp (digits None r)
  | String "+" r => digits None r
  | t => digits None t
  end.

(** [parseInt(s, 10) || 0]: NaN and 0 are falsy. *)
Definition parseIntOr0 (s : string) : Z :=
  match parseInt s with
  | Some n => n
  | None => 0
  end.

End Js.

(** ** [src/utils/db.ts]: the IndexedDB wrapper and the sync queue *)

Module Db.

Inductive SyncStatus := PENDING | SYNCED | FAILED.

Definition statusEqb (a b : SyncStatus) : bool :=
  match a, b with
  | PENDING, PENDING | SYNCED, SYNCED | FAILED, FAILED => true
  | _, _ => false
  end.

(** [interface SyncAction]; [id] is absent until the store assigns it. *)
Record SyncAction := mkAction {
  id : option N;
  type : string;
  payload : Payload;
  status : SyncStatus;
  timestamp : string;
  retries : N
}.

(** The argument of [enqueueSyncAction]:
    [Omit<SyncAction, 'id' | 'status' | 'retries'>]. *)
Record NewAction := mkNew {
  new_type : string;
  new_payload : Payload;
  new_timestamp : string
}.

(** The [syncQueue] object store ([keyPath: 'id', autoIncrement: true]):
    its records in ascending key order, which is the order [getAll]
    yields, and the key generator.  [outcomes] schedules the result of
    the coming requests: [false] fires [onerror], and an exhausted
    schedule means success. *)
Record IDB := mkIDB {
  syncQueue : list SyncAction;
  keyGen : N;
  outcomes : list bool
}.

Definition emptyDB : IDB := mkIDB [] 1 [].

(** A promise that has settled. *)
Inductive Settled (A : Type) :=
| Resolved (a : A)
| Rejected.
Arguments Resolved {A} a.
Arguments Rejected {A}.

(** An [async] function over the database. *)
Definition Async (A : Type) : Type := IDB -> Settled A * IDB.

Definition ret {A} (a : A) : Async A := fun db => (Resolved a, db).

Definition bind {A B} (m : Async A) (k : A -> Async B) : Async B :=
  fun db =>
    match m db with
    | (Resolved a, db') => k a db'
    | (Rejected, db') => (Rejected, db')
    end.

Declare Scope async_scope.
Delimit Scope async_scope with async.
Notation "x <- m ;; k" := (bind m (fun x => k))
  (at level 100, m at next level, right associativity) : async_scope.
Notation "m ;; k" := (bind m (fun _ => k))
  (at level 100, right associativity) : async_scope.
Open Scope async_scope.

(** One IndexedDB request: [onsuccess] resolves, [onerror] rejects. *)
Definition request : Async unit :=
  fun db =>
    match outcomes db with
    | [] => (Resolved tt, db)
    | true :: rest => (Resolved tt, mkIDB (syncQueue db) (keyGen db) rest)
    | false :: rest => (Rejected, mkIDB (syncQueue db) (keyGen db) rest)
    end.

Definition hasKey (k : N) (a : SyncAction) : bool :=
  match id a with
  | Some k' => N.eqb k k'
  | None => false
  end.

(** [store.put] of a record whose key is [k], keeping key order. *)
Fixpoint upsert (k : N) (v : SyncAction) (l : list SyncAction) : list SyncAction :=
  match l with
  | [] => [v]
  | a :: rest =>
      match id a with
      | Some ka =>
          if N.ltb k ka then v :: a :: rest
          else if N.eqb k ka then v :: rest
          else a :: upsert k v rest
      | None => a :: upsert k v rest
      end
  end.

Definition withId (k : N) (v : SyncAction) : SyncAction :=
  mkAction (Some k) (type v) (payload v) (status v) (timestamp v) (retries v).

(** [store.put(value)]: a value without [id] takes the next generated
    key; an explicit key at or above the generator moves the generator
    past it. *)
Definition storePut (v : SyncAction) (db : IDB) : IDB :=
  match id v with
  | None =>
      mkIDB (upsert (keyGen db) (withId (keyGen db) v) (syncQueue db))
            (keyGen db + 1) (outcomes db)
  | Some k =>
      mkIDB (upsert k v (syncQueue db)) (N.max (keyGen db) (k + 1)) (outcomes db)
  end.

Definition dbGetAll : Async (list SyncAction) :=
  request ;; fun db => (Resolved (syncQueue db), db).

Definition dbGet (key : N) : Async (option SyncAction) :=
  request ;; fun db => (Resolved (find (hasKey key) (syncQueue db)), db).

Definition dbPut (v : SyncAction) : Async unit :=
  request ;; fun db => (Resolved tt, storePut v db).

Definition enqueueSyncAction (action : NewAction) : Async unit :=
  dbPut (mkAction None (new_type action) (new_payload action) PENDING
                  (new_timestamp action) 0).

Definition getPendingSyncActions : Async (list SyncAction) :=
  all <- dbGetAll ;;
  ret (filter (fun a => statusEqb (status a) PENDING) all).

Definition markSyncActionSynced (k : N) : Async unit :=
  action <- dbGet k ;;
  match action with
  | Some a =>
      dbPut (mkAction (id a) (type a) (payload a) SYNCED (timestamp a) (retries a))
  | None => ret tt
  end.

Definition markSyncActionFailed (k : N) : Async unit :=
  action <- dbGet k ;;
  match action with
  | Some a =>
      dbPut (mkAction (id a) (type a) (payload a) FAILED (timestamp a) (retries a + 1))
  | None => ret tt
  end.

End Db.

(** ** Vocabulary of the statements about the queue *)

Module Queue.
Import Db.

(** The keys of the stored records ascend strictly and lie in
    [lo, hi): what [put] with generated keys maintains. *)
Fixpoint keysWithin (lo hi : N) (l : list SyncAction) : bool :=
  match l with
  | [] => true
  | a :: rest =>
      match id a with
      | Some k => (lo <=? k)%N && (k <? hi)%N && keysWithin (k + 1) hi rest
      | None => false
      end
  end.

Definition wellFormed (d : IDB) : bool := keysWithin 0 (keyGen d) (syncQueue d).

(** The next request succeeds. *)
Definition nextOk (d : IDB) : bool :=
  match outcomes d with
  | false :: _ => false
  | _ => true
  end.

(** The calls an application makes on the queue. *)
Inductive Op :=
| Enqueue (a : NewAction)
| MarkSynced (k : N)
| MarkFailed (k : N).

Definition runOp (d : IDB) (op : Op) : IDB :=
  match op with
  | Enqueue a => snd (enqueueSyncAction a d)
  | MarkSynced k => snd (markSyncActionSynced k d)
  | MarkFailed k => snd (markSyncActionFailed k d)
  end.

(** A history of calls, all of whose requests succeed, from the empty
    store. *)
Definition runOps (ops : list Op) : IDB := fold_left runOp ops emptyDB.

Fixpoint enqueuedBy (ops : list Op) : list NewAction :=
  match ops with
  | [] => []
  | Enqueue a :: rest => a :: enqueuedBy rest
  | _ :: rest => enqueuedBy rest
  end.

Definition isPending (a : SyncAction) : bool := statusEqb (status a) PENDING.

Definition pendingOf (d : IDB) : list SyncAction := filter isPending (syncQueue d).

Definition asSynced (a : SyncAction) : SyncAction :=
  mkAction (id a) (type a) (payload a) SYNCED (timestamp a) (retries a).

Definition asFailed (a : SyncAction) : SyncAction :=
  mkAction (id a) (type a) (payload a) FAILED (timestamp a) (retries a + 1).

(** The record a first [put] of [a] stores under key [k]. *)
Definition stored (k : N) (a : NewAction) : SyncAction :=
  mkAction (Some k) (new_type a) (new_payload a) PENDING (new_timestamp a) 0.

(** A stored action, its key, status and retries left out: what was
    enqueued. *)
Definition described (a : SyncAction) : NewAction :=
  mkNew (type a) (payload a) (timestamp a).

End Queue.

(** ** [src/hooks/useOfflineSync.ts]: the sync cycle *)

Module Hook.
Import Db.

(** The state cells of the hook, the database, and the batches the
    replay callback has been called with, oldest first. *)
Record World := mkWorld {
  db : IDB;
  isOnline : bool;
  isSyncing : bool;
  pendingCount : nat;
  replayed : list (list SyncAction)
}.

Definition setDb (d : IDB) (w : World) : World :=
  mkWorld d (isOnline w) (isSyncing w) (pendingCount w) (replayed w).
Definition setIsOnline (b : bool) (w : World) : World :=
  mkWorld (db w) b (isSyncing w) (pendingCount w) (replayed w).
Definition setIsSyncing (b : bool) (w : World) : World :=
  mkWorld (db w) (isOnline w) b (pendingCount w) (replayed w).
Definition setPendingCount (n : nat) (w : World) : World :=
  mkWorld (db w) (isOnline w) (isSyncing w) n (replayed w).
Definition logReplay (batch : list SyncAction) (w : World) : World :=
  mkWorld (db w) (isOnline w) (isSyncing w) (pendingCount w) (replayed w ++ [batch]).

(** The replay callback [onSync]: [true] when its promise resolves,
    [false] when it throws. *)
Definition Callback : Type := list SyncAction -> bool.

(** [for (const action of pending)
       if (action.id !== undefined) await mark(action.id);] *)
Fixpoint forEachId (mark : N -> Async unit) (pending : list SyncAction) : Async unit :=
  match pending with
  | [] => ret tt
  | action :: rest =>
      (match id action with
       | Some k => mark k
       | None => ret tt
       end) ;;
      forEachId mark rest
  end.

(** The body of [try]: [true] when it ran to its end. *)
Definition tryBlock (cb : Callback) (pending : list SyncAction) (w : World) : bool * World :=
  let w := logReplay pending w in
  if cb pending then
    match forEachId markSyncActionSynced pending (db w) with
    | (Resolved _, d) => (true, setPendingCount 0 (setDb d w))
    | (Rejected, d) => (false, setDb d w)
    end
  else (false, w).

(** The body of [catch]; a rejection inside it leaves [syncNow]
    rejected. *)
Definition catchBlock (pending : list SyncAction) (w : World) : Settled unit * World :=
  let '(r, d) := forEachId markSyncActionFailed pending (db w) in
  (r, setDb d w).

Definition syncNow (onSync : option Callback) (w : World) : Settled unit * World :=
  match getPendingSyncActions (db w) with
  | (Rejected, d) => (Rejected, setDb d w)
  | (Resolved pending, d) =>
      let w := setPendingCount (List.length pending) (setDb d w) in
      match pending, onSync with
      | [], _ => (Resolved tt, w)
      | _, None => (Resolved tt, w)
      | _, Some cb =>
          let w := setIsSyncing true w in
          let '(r, w) :=
            match tryBlock cb pending w with
            | (true, w') => (Resolved tt, w')
            | (false, w') => catchBlock pending w'
            end in
          (r, setIsSyncing false w)
      end
  end.

(** The [online] and [offline] listeners. *)
Definition handleOnline (onSync : option Callback) (w : World) : Settled unit * World :=
  syncNow onSync (setIsOnline true w).

Definition handleOffline (w : World) : World := setIsOnline false w.

End Hook.

(** ** [App.tsx]: the ledger handlers *)

Module App.
Import Js.

Inductive ScanFlow := IN | OUT | FLOW_TRANSFER.

(** The state cells of [App] that the handlers write, and the database
    behind [enqueueSyncAction]. *)
Record State := mkState {
  warehouses : list Warehouse;
  items : list Item;
  categories : list Category;
  transactions : list Transaction;
  notifications : list Notification;
  scannedItem : option Item;
  activeScanFlow : option ScanFlow;
  idb : Db.IDB
}.

(** What one handler call reads from outside: [Date.now()],
    [new Date().toISOString()], [Math.floor(Math.random() * 1000)] and
    the random notification id. *)
Record Clock := mkClock {
  now : N;
  isoNow : string;
  random1000 : N;
  notifId : string
}.

Definition setItems (f : list Item -> list Item) (st : State) : State :=
  mkState (warehouses st) (f (items st)) (categories st) (transactions st)
          (notifications st) (scannedItem st) (activeScanFlow st) (idb st).

Definition setTransactions (f : list Transaction -> list Transaction) (st : State) : State :=
  mkState (warehouses st) (items st) (categories st) (f (transactions st))
          (notifications st) (scannedItem st) (activeScanFlow st) (idb st).

Definition setNotifications (f : list Notification -> list Notification) (st : State) : State :=
  mkState (warehouses st) (items st) (categories st) (transactions st)
          (f (notifications st)) (scannedItem st) (activeScanFlow st) (idb st).

Definition setScannedItem (o : option Item) (st : State) : State :=
  mkState (warehouses st) (items st) (categories st) (transactions st)
          (notifications st) o (activeScanFlow st) (idb st).

Definition setActiveScanFlow (o : option ScanFlow) (st : State) : State :=
  mkState (warehouses st) (items st) (categories st) (transactions st)
          (notifications st) (scannedItem st) o (idb st).

(** [enqueueSyncAction(...)] as the handlers call it: the promise is
    neither awaited nor caught, so its outcome is dropped. *)
Definition enqueue (a : Db.NewAction) (st : State) : State :=
  mkState (warehouses st) (items st) (categories st) (transactions st)
          (notifications st) (scannedItem st) (activeScanFlow st)
          (snd (Db.enqueueSyncAction a (idb st))).

Definition addNotification (clk : Clock) (title message : string) (st : State) : State :=
  setNotifications (fun prev => mkNotif (notifId clk) title message false (isoNow clk) :: prev) st.

Definition newRequest (clk : Clock) (pre : string) (ty : TxType) (item : Item)
  (target : option string) (qty : Z) : Transaction :=
  mkTx (pre ++ showN (now clk)) ty (i_id item) (i_warehouseId item) target qty
       Types.PENDING "John Staff" (isoNow clk) None.

Definition handleStockInRequest (clk : Clock) (item : Item) (qty : Z) (st : State) : State :=
  let newTx := newRequest clk "TX-" STOCK_IN item None qty in
  let st := setTransactions (fun prev => (prev ++ [newTx])%list) st in
  let st := addNotification clk "Approval Required"
              ("Stock In of " ++ showZ qty ++ " units of " ++ i_name item) st in
  let st := enqueue (Db.mkNew "STOCK_IN" (PTransaction newTx) (t_timestamp newTx)) st in
  setActiveScanFlow None (setScannedItem None st).

Definition handleStockOutRequest (clk : Clock) (item : Item) (qty : Z) (st : State) : State :=
  let newTx := newRequest clk "TX-" STOCK_OUT item None qty in
  let st := setTransactions (fun prev => (prev ++ [newTx])%list) st in
  let st := addNotification clk "Approval Required"
              ("Stock Out of " ++ showZ qty ++ " units of " ++ i_name item) st in
  let st := enqueue (Db.mkNew "STOCK_OUT" (PTransaction newTx) (t_timestamp newTx)) st in
  setActiveScanFlow None (setScannedItem None st).

(** [warehouses0] is the [warehouses] the callback closed over. *)
Definition handleTransferRequest (clk : Clock) (warehouses0 : list Warehouse)
  (item : Item) (targetWhId : string) (qty : Z) (st : State) : State :=
  let targetWh := find (fun w => String.eqb (w_id w) targetWhId) warehouses0 in
  let newTx := newRequest clk "TR-" TRANSFER item (Some targetWhId) qty in
  let st := setTransactions (fun prev => (prev ++ [newTx])%list) st in
  let st := addNotification clk "Transfer Pending"
              ("Relocating " ++ showZ qty ++ " units of " ++ i_name item ++ " to "
               ++ match targetWh with Some w => w_name w | None => "undefined" end) st in
  let st := enqueue (Db.mkNew "TRANSFER" (PTransaction newTx) (t_timestamp newTx)) st in
  setActiveScanFlow None (setScannedItem None st).

Definition withQuantity (q : Z) (stamp : string) (i : Item) : Item :=
  mkItem (i_id i) (i_name i) (i_warehouseId i) (i_categoryId i) q
         (i_baseCost i) (i_freight i) (i_duties i) (i_taxes i) (i_trueUnitCost i)
         (i_status i) (i_barcode i) stamp.

(** The predicate of [updated.find] in the TRANSFER branch. *)
Definition matchesTarget (target : string) (sourceItem i : Item) : bool :=
  String.eqb (i_warehouseId i) target
  && String.eqb (i_categoryId i) (i_categoryId sourceItem)
  && String.eqb (i_name i) (i_name sourceItem).

Definition newId (clk : Clock) : string :=
  "it-" ++ showN (now clk) ++ "-" ++ showN (random1000 clk).

Definition newBarcode (clk : Clock) (targetWarehouse : option Warehouse)
  (targetCategory : option Category) : string :=
  optOrElse (option_map w_prefix targetWarehouse) "WH" ++ "-"
  ++ optOrElse (option_map c_code targetCategory) "GEN" ++ "-"
  ++ at_ (split "-" (newId clk)) 1.

(** [(i) => i.id === k]. *)
Definition hasId (k : string) (i : Item) : bool := String.eqb (i_id i) k.

(** [updated], as first computed: the source item loses [tx.quantity],
    whatever the type of the transaction and the quantity in stock. *)
Definition decrementSource (clk : Clock) (tx : Transaction) (currItems : list Item)
  : list Item :=
  map (fun i => if hasId (t_itemId tx) i
                then withQuantity (i_quantity i - t_quantity tx) (isoNow clk) i
                else i) currItems.

(** [updated.map(...)] of the merge branch. *)
Definition mergeInto (clk : Clock) (tx : Transaction) (existingInTarget : Item)
  (updated : list Item) : list Item :=
  map (fun i => if hasId (i_id existingInTarget) i
                then withQuantity (i_quantity i + t_quantity tx) (isoNow clk) i
                else i) updated.

(** [newItem] of the create branch: [{ ...sourceItem, id, warehouseId,
    quantity, barcode, lastUpdated }]. *)
Definition newItem (clk : Clock) (warehouses0 : list Warehouse)
  (categories0 : list Category) (tx : Transaction) (sourceItem : Item) (target : string)
  : Item :=
  let targetWarehouse := find (fun w => String.eqb (w_id w) target) warehouses0 in
  let targetCategory :=
    find (fun c => String.eqb (c_id c) (i_categoryId sourceItem)) categories0 in
  mkItem (newId clk) (i_name sourceItem) target (i_categoryId sourceItem)
         (t_quantity tx)
         (i_baseCost sourceItem) (i_freight sourceItem) (i_duties sourceItem)
         (i_taxes sourceItem) (i_trueUnitCost sourceItem) (i_status sourceItem)
         (newBarcode clk targetWarehouse targetCategory) (isoNow clk).

(** The updater handed to [setItems] by [handleApproveTransaction]. *)
Definition approveItems (clk : Clock) (warehouses0 : list Warehouse)
  (categories0 : list Category) (tx : Transaction) (sourceItem : Item)
  (currItems : list Item) : list Item :=
  let updated := decrementSource clk tx currItems in
  match t_type tx, t_targetWarehouseId tx with
  | TRANSFER, Some target =>
      if String.eqb target "" then updated else
      match find (matchesTarget target sourceItem) updated with
      | Some existingInTarget => mergeInto clk tx existingInTarget updated
      | None =>
          (updated ++ [newItem clk warehouses0 categories0 tx sourceItem target])%list
      end
  | _, _ => updated
  end.

Definition withStatus (s : TxStatus) (reason : option string) (tx : Transaction) : Transaction :=
  mkTx (t_id tx) (t_type tx) (t_itemId tx) (t_warehouseId tx) (t_targetWarehouseId tx)
       (t_quantity tx) s (t_staffName tx) (t_timestamp tx) reason.

(** [prev.map(callback)] for a callback with effects: the elements are
    visited from left to right and the state is threaded through. *)
Fixpoint mapEffect {A S : Type} (callback : A -> S -> A * S) (prev : list A) (st : S)
  : list A * S :=
  match prev with
  | [] => ([], st)
  | x :: rest =>
      let '(y, st1) := callback x st in
      let '(out, st2) := mapEffect callback rest st1 in
      (y :: out, st2)
  end.

(** The callback of [prev.map] in [handleApproveTransaction].
    [items0], [warehouses0] and [categories0] are the values the handler
    closed over.  Neither the status of [tx] nor the quantity in stock is
    looked at. *)
Definition approveCallback (clk : Clock) (items0 : list Item)
  (warehouses0 : list Warehouse) (categories0 : list Category) (txId : string)
  (tx : Transaction) (st : State) : Transaction * State :=
  if negb (String.eqb (t_id tx) txId) then (tx, st)
  else
    match find (hasId (t_itemId tx)) items0 with
    | None => (tx, st)
    | Some sourceItem =>
        let st := setItems (approveItems clk warehouses0 categories0 tx sourceItem) st in
        let st := addNotification clk "Transaction Approved"
                    (typeName (t_type tx) ++ " request for " ++ i_name sourceItem
                     ++ " completed.") st in
        let st := enqueue (Db.mkNew "APPROVE" (PApprove txId) (isoNow clk)) st in
        (withStatus APPROVED (t_rejectionReason tx) tx, st)
    end.

Definition handleApproveTransaction (clk : Clock) (items0 : list Item)
  (warehouses0 : list Warehouse) (categories0 : list Category) (txId : string)
  (st : State) : State :=
  let '(out, st') :=
    mapEffect (approveCallback clk items0 warehouses0 categories0 txId)
              (transactions st) st in
  setTransactions (fun _ => out) st'.

(** The callback of [prev.map] in [handleRejectTransaction]. *)
Definition rejectCallback (clk : Clock) (items0 : list Item) (txId reason : string)
  (tx : Transaction) (st : State) : Transaction * State :=
  if negb (String.eqb (t_id tx) txId) then (tx, st)
  else
    let sourceItem := find (hasId (t_itemId tx)) items0 in
    let st := addNotification clk "Transaction Rejected"
                (typeName (t_type tx) ++ " request for "
                 ++ optOrElse (option_map i_name sourceItem) "Item"
                 ++ " was declined.") st in
    let st := enqueue (Db.mkNew "REJECT" (PReject txId reason) (isoNow clk)) st in
    (withStatus REJECTED (Some reason) tx, st).

Definition handleRejectTransaction (clk : Clock) (items0 : list Item)
  (txId reason : string) (st : State) : State :=
  let '(out, st') := mapEffect (rejectCallback clk items0 txId reason) (transactions st) st in
  setTransactions (fun _ => out) st'.

(** The handlers of the current render: they close over the current
    state cells. *)
Definition transfer (clk : Clock) (item : Item) (targetWhId : string) (qty : Z)
  (st : State) : State :=
  handleTransferRequest clk (warehouses st) item targetWhId qty st.

Definition approve (clk : Clock) (txId : string) (st : State) : State :=
  handleApproveTransaction clk (items st) (warehouses st) (categories st) txId st.

Definition reject (clk : Clock) (txId reason : string) (st : State) : State :=
  handleRejectTransaction clk (items st) txId reason st.

End App.

(** ** The components that call the handlers *)

Module StockActionModal.
Import Js.

Inductive Kind := IN | OUT.

Record Form := mkForm {
  rawQty : string;
  error : option string
}.

Definition units (q : Z) : string := if Z.eqb q 1 then "unit" else "units".

(** [validateAndConfirm]; [onConfirm] acts on the state of the parent. *)
Definition validateAndConfirm {A : Type} (item : Item) (kind : Kind)
  (onConfirm : Z -> A -> A) (form : Form) (parent : A) : Form * A :=
  let isInbound := match kind with IN => true | OUT => false end in
  let qty := parseIntOr0 (rawQty form) in
  if qty <=? 0 then
    (mkForm (rawQty form) (Some "Quantity must be at least 1."), parent)
  else if negb isInbound && (i_quantity item <? qty) then
    (mkForm (rawQty form)
            (Some ("Only " ++ showZ (i_quantity item) ++ " " ++ units (i_quantity item)
                   ++ " available to stock out.")), parent)
  else (form, onConfirm qty parent).

End StockActionModal.

Module TransferItemModal.
Import Js.

Record Form := mkForm {
  targetWhId : string;
  rawQty : string;
  error : option string
}.

Definition validateAndConfirm {A : Type} (item : Item)
  (onConfirm : string -> Z -> A -> A) (form : Form) (parent : A) : Form * A :=
  let qty := parseIntOr0 (rawQty form) in
  let fail msg := (mkForm (targetWhId form) (rawQty form) (Some msg), parent) in
  if String.eqb (targetWhId form) "" then
    fail "Please select a destination warehouse."
  else if qty <=? 0 then
    fail "Quantity must be at least 1."
  else if i_quantity item <? qty then
    fail ("Only " ++ showZ (i_quantity item) ++ " "
          ++ StockActionModal.units (i_quantity item) ++ " available.")
  else (form, onConfirm (targetWhId form) qty parent).

End TransferItemModal.

Module Dashboard.

Record Dialog := mkDialog {
  rejectingTx : option Transaction;
  rejectionReason : string;
  customReason : string
}.

Definition finalReason (d : Dialog) : string :=
  if String.eqb (rejectionReason d) "Other / Custom Reason"
  then customReason d else rejectionReason d.

(** [handleFinalReject]; [onReject] is an optional prop. *)
Definition handleFinalReject {A : Type} (onReject : option (string -> string -> A -> A))
  (d : Dialog) (parent : A) : Dialog * A :=
  match rejectingTx d, onReject with
  | Some tx, Some rej =>
      if String.eqb (finalReason d) "" then (d, parent)
      else (mkDialog None "" "", rej (t_id tx) (finalReason d) parent)
  | _, _ => (d, parent)
  end.

End Dashboard.

(** ** The operations as [App] renders them

    [App] mounts [StockActionModal] and [TransferItemModal] on the
    scanned item with [onConfirm] bound to the request handlers, and
    [Dashboard] with [onReject = handleRejectTransaction]. *)

Module Ledger.

Definition requestStockIn (clk : App.Clock) (item : Item)
  (form : StockActionModal.Form) (st : App.State) : StockActionModal.Form * App.State :=
  StockActionModal.validateAndConfirm item StockActionModal.IN
    (fun qty => App.handleStockInRequest clk item qty) form st.

Definition requestStockOut (clk : App.Clock) (item : Item)
  (form : StockActionModal.Form) (st : App.State) : StockActionModal.Form * App.State :=
  StockActionModal.validateAndConfirm item StockActionModal.OUT
    (fun qty => App.handleStockOutRequest clk item qty) form st.

Definition requestTransfer (clk : App.Clock) (item : Item)
  (form : TransferItemModal.Form) (st : App.State) : TransferItemModal.Form * App.State :=
  TransferItemModal.validateAndConfirm item
    (fun target qty => App.transfer clk item target qty) form st.

Definition rejectFromDashboard (clk : App.Clock) (d : Dashboard.Dialog) (st : App.State)
  : Dashboard.Dialog * App.State :=
  Dashboard.handleFinalReject (Some (App.reject clk)) d st.

(** The sum of [quantity] over the items with a given name and
    category. *)
Definition sameProduct (name categoryId : string) (i : Item) : bool :=
  String.eqb (i_name i) name && String.eqb (i_categoryId i) categoryId.

Definition totalStock (name categoryId : string) (l : list Item) : Z :=
  fold_right (fun i acc => if sameProduct name categoryId i then i_quantity i + acc else acc)
             0 l.

(** What the handlers do to one transaction. *)
Definition approved (tx : Transaction) : Transaction :=
  App.withStatus APPROVED (t_rejectionReason tx) tx.

Definition rejected (reason : string) (tx : Transaction) : Transaction :=
  App.withStatus REJECTED (Some reason) tx.

Definition txHasId (txId : string) (tx : Transaction) : bool :=
  String.eqb (t_id tx) txId.

Definition hasSource (items0 : list Item) (tx : Transaction) : bool :=
  match find (App.hasId (t_itemId tx)) items0 with
  | Some _ => true
  | None => false
  end.

(** What a request handler leaves behind: the new PENDING transaction
    at the end of [transactions], the items untouched, and the matching
    action at the end of the queue when the write succeeds. *)
Definition requested (clk : App.Clock) (item : Item) (qty : Z) (ty : TxType)
  (pre name : string) (target : option string) (st st' : App.State) : Prop :=
  let newTx := App.newRequest clk pre ty item target qty in
  App.transactions st' = (App.transactions st ++ [newTx])%list
  /\ t_type newTx = ty /\ t_status newTx = Types.PENDING
  /\ App.items st' = App.items st
  /\ Db.syncQueue (App.idb st')
     = if Queue.nextOk (App.idb st)
       then (Db.syncQueue (App.idb st)
             ++ [Queue.stored (Db.keyGen (App.idb st))
                   (Db.mkNew name (PTransaction newTx) (App.isoNow clk))])%list
       else Db.syncQueue (App.idb st).

End Ledger.

(** ** Sessions of the queue and of the sync hook *)

Module Session.
Import Db Queue Hook.

(** A history of calls on the queue from the empty store, the requests
    taking their outcomes from [schedule]. *)
Definition history (schedule : list bool) (ops : list Op) : IDB :=
  fold_left runOp ops (mkIDB [] 1 schedule).

(** What happens around the hook: a handler enqueues an action, the
    browser fires [online] (the listener runs a sync cycle with the
    callback of the current render) or [offline].  In [step] the cycle
    of an [online] event runs to its end before the next event: these
    are the sessions whose cycles do not overlap.  The hook does not
    enforce it ([isSyncing] is written, never read); [Overlap] below
    has a second cycle starting inside the first. *)
Inductive Event :=
| Enqueued (a : NewAction)
| WentOnline (onSync : Callback)
| WentOffline.

Definition step (w : World) (e : Event) : World :=
  match e with
  | Enqueued a => setDb (snd (enqueueSyncAction a (db w))) w
  | WentOnline cb => snd (handleOnline (Some cb) w)
  | WentOffline => handleOffline w
  end.

(** The hook as mounted on an empty store: [navigator.onLine] is
    [online], nothing is syncing, no pending count yet. *)
Definition mounted (online : bool) (schedule : list bool) : World :=
  mkWorld (mkIDB [] 1 schedule) online false 0 [].

Definition run (online : bool) (schedule : list bool) (events : list Event) : World :=
  fold_left step events (mounted online schedule).

Fixpoint enqueuedIn (events : list Event) : list NewAction :=
  match events with
  | [] => []
  | Enqueued a :: rest => a :: enqueuedIn rest
  | _ :: rest => enqueuedIn rest
  end.

(** The state of a session whose requests all succeed, [enq] being the
    actions enqueued so far: the queue holds first the actions that
    were replayed, in the order of their replay, then the PENDING
    ones. *)
Definition replayedOnce (w : World) (enq : list NewAction) : Prop :=
  wellFormed (db w) = true /\ outcomes (db w) = []
  /\ exists done pend,
       syncQueue (db w) = (done ++ pend)%list
       /\ Forall (fun a => isPending a = false) done
       /\ Forall (fun a => isPending a = true) pend
       /\ map id (List.concat (replayed w)) = map id done
       /\ map described (List.concat (replayed w)) = map described done
       /\ map described (done ++ pend) = enq
       /\ ~ In [] (replayed w)
       /\ Forall (fun a => isPending a = true) (List.concat (replayed w)).

(** A record of the queue and what a sync cycle may have made of it:
    same key, same action, and untouched unless it was PENDING. *)
Definition keptBy (a a' : SyncAction) : Prop :=
  id a' = id a /\ described a' = described a /\ (isPending a = false -> a' = a).

End Session.

(** ** Two sync cycles at once *)

Module Overlap.
Import Db Queue Hook.

(** [syncNow] up to the end of its first [await]: the read of the
    queue, and [setPendingCount]. *)
Definition drain (w : World) : Settled (list SyncAction) * World :=
  match getPendingSyncActions (db w) with
  | (Rejected, d) => (Rejected, setDb d w)
  | (Resolved pending, d) =>
      (Resolved pending, setPendingCount (List.length pending) (setDb d w))
  end.

(** The rest of [syncNow], for a batch that is not empty: the call of
    [onSync], the marks, [finally]. *)
Definition settle (cb : Callback) (pending : list SyncAction) (w : World)
  : Settled unit * World :=
  let w := setIsSyncing true w in
  let '(r, w) :=
    match tryBlock cb pending w with
    | (true, w') => (Resolved tt, w')
    | (false, w') => catchBlock pending w'
    end in
  (r, setIsSyncing false w).

(** [syncNow] from its two parts. *)
Definition cycle (cb : Callback) (w : World) : Settled unit * World :=
  match drain w with
  | (Rejected, w') => (Rejected, w')
  | (Resolved [], w') => (Resolved tt, w')
  | (Resolved pending, w') => settle cb pending w'
  end.

(** Two [online] events, the second one fired while the read of the
    first is awaited: both listeners read the queue before either one
    marks anything, then each goes on with what it read. *)
Definition overlapped (cb1 cb2 : Callback) (w : World) : World :=
  let '(r1, w1) := drain (setIsOnline true w) in
  let '(r2, w2) := drain (setIsOnline true w1) in
  let w3 := match r1 with
            | Resolved (a :: l) => snd (settle cb1 (a :: l) w2)
            | _ => w2
            end in
  match r2 with
  | Resolved (a :: l) => snd (settle cb2 (a :: l) w3)
  | _ => w3
  end.

End Overlap.

(** ** [App.tsx]: sign-in, scanning and the choice of the screen *)

Module Shell.
Import Js.

(** The roles [App.tsx] names ([types.ts] is not among the sources). *)
Inductive UserRole := ADMIN | STAFF | ACCOUNTANT.

Inductive Action := view | update | delete | export.

Definition actionEqb (a b : Action) : bool :=
  match a, b with
  | view, view | update, update | delete, delete | export, export => true
  | _, _ => false
  end.

Record Permission := mkPermission {
  moduleId : string;
  actions : list Action
}.

(** [RolePermissionMap]; a role may have no entry. *)
Definition RolePermissionMap : Type := UserRole -> option (list Permission).

Definition everything : list Action := [view; update; delete; export].

Definition defaultPermissions : RolePermissionMap :=
  fun r =>
    Some match r with
         | ADMIN =>
             map (fun m => mkPermission m everything)
                 ["dashboard"; "inventory"; "warehouses"; "approvals"; "valuation";
                  "reports"; "category-mgmt"; "access-control"; "bulk-upload"]
         | STAFF =>
             [mkPermission "dashboard" [view];
              mkPermission "inventory" [view; update];
              mkPermission "valuation" [view; update];
              mkPermission "bulk-upload" [view; update]]
         | ACCOUNTANT =>
             [mkPermission "dashboard" [view];
              mkPermission "inventory" [view];
              mkPermission "reports" [view; export]]
         end.

(** The state cells of [App] beside those of [App.State]. *)
Record Frame := mkFrame {
  app : App.State;
  role : UserRole;
  isLoggedIn : bool;
  isVerified : bool;
  activeTab : string;
  permissions : RolePermissionMap;
  showScanner : bool
}.

Definition setApp (f : App.State -> App.State) (fr : Frame) : Frame :=
  mkFrame (f (app fr)) (role fr) (isLoggedIn fr) (isVerified fr) (activeTab fr)
          (permissions fr) (showScanner fr).

Definition setShowScanner (b : bool) (fr : Frame) : Frame :=
  mkFrame (app fr) (role fr) (isLoggedIn fr) (isVerified fr) (activeTab fr)
          (permissions fr) b.

Definition checkAccess (fr : Frame) (module_ : string) (action : Action) : bool :=
  let rolePerms := match permissions fr (role fr) with Some l => l | None => [] end in
  match find (fun p => String.eqb (moduleId p) module_) rolePerms with
  | Some modulePerm => existsb (actionEqb action) (actions modulePerm)
  | None => false
  end.

(** [items0] is the [items] the callback closed over. *)
Definition handleScanSuccess (clk : App.Clock) (items0 : list Item) (barcode : string)
  (fr : Frame) : Frame :=
  match find (fun i => String.eqb (i_barcode i) barcode) items0 with
  | Some found => setShowScanner false (setApp (App.setScannedItem (Some found)) fr)
  | None =>
      setShowScanner false
        (setApp (App.addNotification clk "Scan Error"
                   ("Barcode " ++ barcode ++ " not found in registry.")) fr)
  end.

Definition scan (clk : App.Clock) (barcode : string) (fr : Frame) : Frame :=
  handleScanSuccess clk (App.items (app fr)) barcode fr.

Definition handleLogin (selectedRole : UserRole) (fr : Frame) : Frame :=
  mkFrame (app fr) selectedRole true false (activeTab fr) (permissions fr) (showScanner fr).

Definition handleVerify (clk : App.Clock) (fr : Frame) : Frame :=
  setApp (App.addNotification clk "Security Verified" "Identity confirmed via 2FA")
         (mkFrame (app fr) (role fr) (isLoggedIn fr) true (activeTab fr)
                  (permissions fr) (showScanner fr)).

Definition handleLogout (fr : Frame) : Frame :=
  mkFrame (app fr) (role fr) false false "dashboard" (permissions fr) (showScanner fr).

Definition handleCancel2FA (fr : Frame) : Frame :=
  mkFrame (app fr) (role fr) false false (activeTab fr) (permissions fr) (showScanner fr).

(** What [App] returns: the sign-in screens, or the main layout with
    the content [renderContent] chooses.  For a content, [decides]
    tells whether it is given [onApprove] and [onReject]. *)
Inductive Content :=
| AccessDenied
| DashboardContent (decides : bool)
| InventoryContent
| WarehousesContent
| ApprovalsContent
| ValuationContent
| ReportsContent (canExport : bool)
| CategoryContent
| AccessControlContent
| BulkUploadContent.

Inductive Screen :=
| LoginScreen
| TwoFactorScreen
| MainScreen (content : Content).

Definition renderContent (fr : Frame) : Content :=
  if negb (checkAccess fr (activeTab fr) view) then AccessDenied
  else if String.eqb (activeTab fr) "dashboard" then DashboardContent true
  else if String.eqb (activeTab fr) "inventory" then InventoryContent
  else if String.eqb (activeTab fr) "warehouses" then WarehousesContent
  else if String.eqb (activeTab fr) "approvals" then ApprovalsContent
  else if String.eqb (activeTab fr) "valuation" then ValuationContent
  else if String.eqb (activeTab fr) "reports"
       then ReportsContent (checkAccess fr "reports" export)
  else if String.eqb (activeTab fr) "category-mgmt" then CategoryContent
  else if String.eqb (activeTab fr) "access-control" then AccessControlContent
  else if String.eqb (activeTab fr) "bulk-upload" then BulkUploadContent
  else DashboardContent false.

Definition render (fr : Frame) : Screen :=
  if negb (isLoggedIn fr) then LoginScreen
  else if negb (isVerified fr) then TwoFactorScreen
  else MainScreen (renderContent fr).

(** The calls of the sign-in handlers; [Verify] carries the clock of
    its notification. *)
Inductive AuthEvent :=
| Login (selectedRole : UserRole)
| Verify (clk : App.Clock)
| Logout
| Cancel2FA.

Definition authStep (fr : Frame) (e : AuthEvent) : Frame :=
  match e with
  | Login r => handleLogin r fr
  | Verify clk => handleVerify clk fr
  | Logout => handleLogout fr
  | Cancel2FA => handleCancel2FA fr
  end.

Definition authRun (events : list AuthEvent) (fr : Frame) : Frame :=
  fold_left authStep events fr.

Definition isVerify (e : AuthEvent) : bool :=
  match e with Verify _ => true | _ => false end.

(** The cells of [App] as [useState] initialises them, over a given
    application state. *)
Definition initialFrame (st : App.State) : Frame :=
  mkFrame st ADMIN false false "dashboard" defaultPermissions false.

End Shell.

(** ** [TwoFactorAuth.tsx]: the six boxes of the code *)

Module TwoFactorAuth.
Import Js.

Fixpoint allDigits (s : string) : bool :=
  match s with
  | EmptyString => true
  | String c r => isDigit c && allDigits r
  end.

(** [value.slice(-1)]: the last character, or the empty string. *)
Fixpoint lastChar (s : string) : string :=
  match s with
  | EmptyString => ""
  | String c EmptyString => String c ""
  | String _ r => lastChar r
  end.

(** [newCode[index] = v] for an index of the array. *)
Fixpoint setAt (index : nat) (v : string) (code : list string) : list string :=
  match code, index with
  | [], _ => []
  | _ :: rest, O => v :: rest
  | c :: rest, S n => c :: setAt n v rest
  end.

Definition emptyCode : list string := [""; ""; ""; ""; ""; ""].

(** [handleChange], for an index below 6. *)
Definition handleChange (index : nat) (value : string) (code : list string) : list string :=
  if negb (allDigits value) then code
  else setAt index (lastChar value) code.

(** [code.every(d => d !== '')]. *)
Definition isFull (code : list string) : bool :=
  forallb (fun d => negb (String.eqb d "")) code.

(** The effect on [code]: once the boxes are full, [onVerify] is called
    (900 ms later). *)
Definition afterChange {A : Type} (onVerify : A -> A) (code : list string) (parent : A) : A :=
  if isFull code then onVerify parent else parent.

(** Typing into boxes, one change after the other, from the empty
    code. *)
Definition typeAll (changes : list (nat * string)) : list string :=
  fold_left (fun code c => handleChange (fst c) (snd c) code) changes emptyCode.

End TwoFactorAuth.

(** ** [Dashboard]: the derived lists and counts *)

Module Panel.

Definition LOW_STOCK_THRESHOLD : Z := 20.

Definition txPending (t : Transaction) : bool :=
  match t_status t with Types.PENDING => true | _ => false end.

Definition pendingTxs (transactions : list Transaction) : list Transaction :=
  filter txPending transactions.

(** [pendingTxs.slice(0, 5)]: the rows that carry the buttons. *)
Definition shown (transactions : list Transaction) : list Transaction :=
  firstn 5 (pendingTxs transactions).

Definition lowStockItems (items : list Item) : list Item :=
  filter (fun i => i_quantity i <? LOW_STOCK_THRESHOLD) items.

Definition statusEqb (a b : ItemStatus) : bool :=
  match a, b with
  | RAW, RAW | FINISHED, FINISHED | GOOD_AS_NEW, GOOD_AS_NEW | OLD_USED, OLD_USED => true
  | _, _ => false
  end.

(** [statusStats]: the counts of Raw, Finished, Good and Old. *)
Definition statusStats (items : list Item) : list nat :=
  map (fun s => List.length (filter (fun i => statusEqb (i_status i) s) items))
      [RAW; FINISHED; GOOD_AS_NEW; OLD_USED].

(** [itemCount] and [lowStock] of [warehouseStats], per warehouse. *)
Definition whItems (items : list Item) (wh : Warehouse) : list Item :=
  filter (fun i => String.eqb (i_warehouseId i) (w_id wh)) items.

Definition itemCounts (warehouses : list Warehouse) (items : list Item) : list nat :=
  map (fun wh => List.length (whItems items wh)) warehouses.

Definition lowStockCounts (warehouses : list Warehouse) (items : list Item) : list nat :=
  map (fun wh => List.length (lowStockItems (whItems items wh))) warehouses.

(** [i.warehouseId === wh.id], and whether some warehouse of the list
    has the id of the item's. *)
Definition inWarehouse (wh : Warehouse) (i : Item) : bool :=
  String.eqb (i_warehouseId i) (w_id wh).

Definition onFile (whs : list Warehouse) (i : Item) : bool :=
  existsb (fun wh => inWarehouse wh i) whs.

End Panel.

(** ** [TransferItemModal]: the quick-select buttons *)

Module Presets.
Import Js.

Definition presets : list Z := [25; 50; 75; 100].

(** [Math.round(k / 100)] for an integer [k]: the nearest integer, a
    half going up (exact as long as the division is, below 2^45). *)
Definition roundHundredth (k : Z) : Z := (k + 50) / 100.

(** [Math.max(1, Math.round((item.quantity * pct) / 100))]. *)
Definition val (item : Item) (pct : Z) : Z :=
  Z.max 1 (roundHundredth (i_quantity item * pct)).

(** The click on a preset: [setRawQty(String(val)); setError(null)]. *)
Definition selectPreset (item : Item) (pct : Z) (form : TransferItemModal.Form)
  : TransferItemModal.Form :=
  TransferItemModal.mkForm (TransferItemModal.targetWhId form) (showZ (val item pct)) None.

End Presets.

(** ** [public/service-worker.js]: the caches and the answers to
    requests *)

Module ServiceWorker.

Definition CACHE_NAME : string := "nexus-v1".
Definition RUNTIME_CACHE : string := "nexus-runtime-v1".

Definition APP_SHELL : list string := ["/"; "/index.html"].

Definition CDN_ORIGINS : list string :=
  ["https://cdn.tailwindcss.com"; "https://fonts.googleapis.com";
   "https://fonts.gstatic.com"; "https://esm.sh"].

Record Response := mkResponse {
  status : N;
  body : string
}.

(** [response.ok]. *)
Definition ok (r : Response) : bool := ((200 <=? status r) && (status r <=? 299))%N.

(** A request: [origin] is [new URL(request.url).origin]. *)
Record Request := mkRequest {
  method : string;
  url : string;
  mode : string;
  origin : string
}.

(** A cache maps the URL of a request to a response.  The worker has
    its named caches, in the order of their creation, and the network:
    the results of the coming calls of [fetch], [None] for a rejected
    one, every call being rejected once the list is used up. *)
Definition Cache : Type := list (string * Response).

Record Worker := mkWorker {
  caches : list (string * Cache);
  network : list (option Response)
}.

Definition setNetwork (net : list (option Response)) (w : Worker) : Worker :=
  mkWorker (caches w) net.

Definition fetch (w : Worker) : option Response * Worker :=
  match network w with
  | [] => (None, w)
  | r :: rest => (r, mkWorker (caches w) rest)
  end.

(** [cache.match(request)]. *)
Definition cacheMatch (c : Cache) (u : string) : option Response :=
  option_map snd (find (fun e => String.eqb (fst e) u) c).

(** [cache.put(request, response)]: the entry of the URL is replaced,
    or added; a response of status 206 is refused. *)
Fixpoint replaceOrAdd (u : string) (r : Response) (c : Cache) : Cache :=
  match c with
  | [] => [(u, r)]
  | e :: rest => if String.eqb (fst e) u then (u, r) :: rest else e :: replaceOrAdd u r rest
  end.

Definition cachePut (u : string) (r : Response) (c : Cache) : Cache :=
  if (status r =? 206)%N then c else replaceOrAdd u r c.

(** [caches.open(name)] creates the cache when there is none. *)
Definition hasCache (name : string) (cs : list (string * Cache)) : bool :=
  existsb (fun e => String.eqb (fst e) name) cs.

Definition openCache (name : string) (cs : list (string * Cache)) : list (string * Cache) :=
  if hasCache name cs then cs else (cs ++ [(name, [])])%list.

Definition cacheOf (name : string) (cs : list (string * Cache)) : Cache :=
  match find (fun e => String.eqb (fst e) name) cs with
  | Some e => snd e
  | None => []
  end.

(** [caches.open(name).then((cache) => cache.put(request, response))]. *)
Definition putIn (name u : string) (r : Response) (w : Worker) : Worker :=
  mkWorker
    (map (fun e => if String.eqb (fst e) name then (fst e, cachePut u r (snd e)) else e)
         (openCache name (caches w)))
    (network w).

(** [caches.match(request)]: the first cache that has the URL. *)
Fixpoint cachesMatch (cs : list (string * Cache)) (u : string) : option Response :=
  match cs with
  | [] => None
  | e :: rest =>
      match cacheMatch (snd e) u with
      | Some r => Some r
      | None => cachesMatch rest u
      end
  end.

(** What [cache.addAll] accepts: a response that is [ok] and not of
    status 206. *)
Definition addable (r : Response) : bool := ok r && negb (status r =? 206)%N.

(** [cache.addAll(urls)]: every URL is fetched, and the responses are
    stored when all of them are accepted, none otherwise.  [location]
    is [self.location.origin], against which the URLs resolve. *)
Fixpoint fetchAll (urls : list string) (w : Worker)
  : list (string * option Response) * Worker :=
  match urls with
  | [] => ([], w)
  | u :: rest =>
      let (r, w1) := fetch w in
      let (rs, w2) := fetchAll rest w1 in
      ((u, r) :: rs, w2)
  end.

Definition accepted (e : string * option Response) : bool :=
  match snd e with
  | Some r => addable r
  | None => false
  end.

Definition store (location name : string) (w : Worker) (e : string * option Response)
  : Worker :=
  match snd e with
  | Some r => putIn name (location ++ fst e) r w
  | None => w
  end.

Definition addAll (location name : string) (urls : list string) (w : Worker) : Worker :=
  let (rs, w1) := fetchAll urls w in
  if forallb accepted rs then fold_left (store location name) rs w1 else w1.

(** The install listener. *)
Definition onInstall (location : string) (w : Worker) : Worker :=
  addAll location CACHE_NAME APP_SHELL
         (mkWorker (openCache CACHE_NAME (caches w)) (network w)).

(** The activate listener. *)
Definition onActivate (w : Worker) : Worker :=
  mkWorker
    (filter (fun e => negb (negb (String.eqb (fst e) CACHE_NAME)
                            && negb (String.eqb (fst e) RUNTIME_CACHE)))
            (caches w))
    (network w).

(** What the page gets for a request: the browser's own handling when
    the listener returns without [respondWith], a response, or a
    network error when the promise given to [respondWith] is rejected
    or yields no response. *)
Inductive Answer :=
| NotHandled
| Responded (r : Response)
| Failed.

Definition answer (o : option Response) : Answer :=
  match o with Some r => Responded r | None => Failed end.

Definition isCDN (u : string) : bool :=
  existsb (fun o => String.prefix o u) CDN_ORIGINS.

Definition offlineResponse : Response :=
  mkResponse 503 "Offline — resource unavailable".

(** The fetch listener, with the state once the promises it started
    are settled. *)
Definition onFetch (location : string) (request : Request) (w : Worker) : Answer * Worker :=
  if negb (String.eqb (method request) "GET") then (NotHandled, w)
  else if negb (String.prefix "http" (url request)) then (NotHandled, w)
  else if String.eqb (mode request) "navigate" then
    match fetch w with
    | (Some response, w1) =>
        (Responded response, putIn CACHE_NAME (url request) response w1)
    | (None, w1) =>
        match cachesMatch (caches w1) (location ++ "/index.html") with
        | Some cached => (Responded cached, w1)
        | None => let (r, w2) := fetch w1 in (answer r, w2)
        end
    end
  else if isCDN (url request) then
    let w0 := mkWorker (openCache RUNTIME_CACHE (caches w)) (network w) in
    match cacheMatch (cacheOf RUNTIME_CACHE (caches w0)) (url request) with
    | Some cached =>
        match fetch w0 with
        | (Some fresh, w1) => (Responded cached, putIn RUNTIME_CACHE (url request) fresh w1)
        | (None, w1) => (Responded cached, w1)
        end
    | None =>
        match fetch w0 with
        | (Some fresh, w1) => (Responded fresh, putIn RUNTIME_CACHE (url request) fresh w1)
        | (None, w1) => (Responded offlineResponse, w1)
        end
    end
  else if String.eqb (origin request) location then
    match cachesMatch (caches w) (url request) with
    | Some cached => (Responded cached, w)
    | None =>
        match fetch w with
        | (Some response, w1) =>
            (Responded response, putIn CACHE_NAME (url request) response w1)
        | (None, w1) => (Failed, w1)
        end
    end
  else
    match fetch w with
    | (Some response, w1) => (Responded response, w1)
    | (None, w1) => (answer (cachesMatch (caches w1) (url request)), w1)
    end.

(** The events of the worker, each with the network as it is then. *)
Inductive Event :=
| Install (net : list (option Response))
| Activate
| Fetch (request : Request) (net : list (option Response)).

Definition step (location : string) (w : Worker) (e : Event) : Worker :=
  match e with
  | Install net => onInstall location (setNetwork net w)
  | Activate => onActivate w
  | Fetch request net => snd (onFetch location request (setNetwork net w))
  end.

(** Vocabulary: a cache of the given name holds an entry for the URL. *)
Definition holds (name u : string) (cs : list (string * Cache)) : Prop :=
  exists c, In (name, c) cs /\ cacheMatch c u <> None.

End ServiceWorker.

(** ** [CategoryManagement.tsx]: adding, editing and deleting
    categories *)

Module CategoryManagement.
Import Js.

(** What the form dialog hands to [onSave]. *)
Record FormState := mkFormState {
  name : string;
  code : string;
  parentId : string
}.

Record DeleteTarget := mkDeleteTarget {
  d_id : string;
  d_name : string;
  hasSubs : bool
}.

(** The [categories] of the parent and the state cells of the page. *)
Record Page := mkPage {
  categories : list Category;
  addOpen : bool;
  editTarget : option Category;
  deleteTarget : option DeleteTarget
}.

Definition setCategories (f : list Category -> list Category) (pg : Page) : Page :=
  mkPage (f (categories pg)) (addOpen pg) (editTarget pg) (deleteTarget pg).

(** [!c.parentId]: no parent, or the empty string. *)
Definition noParent (c : Category) : bool :=
  match c_parentId c with
  | None => true
  | Some p => String.eqb p ""
  end.

(** [c.parentId === id]. *)
Definition parentIs (id : string) (c : Category) : bool :=
  match c_parentId c with
  | Some p => String.eqb p id
  | None => false
  end.

Definition hasId (id : string) (c : Category) : bool := String.eqb (c_id c) id.

Definition mainCategories (cats : list Category) : list Category := filter noParent cats.

(** [data.parentId || undefined]. *)
Definition orUndefined (s : string) : option string :=
  if String.eqb s "" then None else Some s.

(** [handleAdd]; [now] is [Date.now()]. *)
Definition handleAdd (now : N) (data : FormState) (pg : Page) : Page :=
  let cat := mkCategory ("cat-" ++ showN now) (name data) (code data)
                        (orUndefined (parentId data)) in
  let pg := setCategories (fun prev => (prev ++ [cat])%list) pg in
  mkPage (categories pg) false (editTarget pg) (deleteTarget pg).

Definition handleEdit (data : FormState) (pg : Page) : Page :=
  match editTarget pg with
  | None => pg
  | Some target =>
      let pg :=
        setCategories
          (map (fun c => if hasId (c_id target) c
                         then mkCategory (c_id c) (name data) (code data)
                                         (orUndefined (parentId data))
                         else c)) pg in
      mkPage (categories pg) (addOpen pg) None (deleteTarget pg)
  end.

Definition confirmDelete (id : string) (pg : Page) : Page :=
  match find (hasId id) (categories pg) with
  | None => pg
  | Some cat =>
      mkPage (categories pg) (addOpen pg) (editTarget pg)
             (Some (mkDeleteTarget id (c_name cat) (existsb (parentIs id) (categories pg))))
  end.

Definition executeDelete (pg : Page) : Page :=
  match deleteTarget pg with
  | None => pg
  | Some target =>
      let pg :=
        setCategories
          (filter (fun c => negb (hasId (d_id target) c) && negb (parentIs (d_id target) c)))
          pg in
      mkPage (categories pg) (addOpen pg) (editTarget pg) None
  end.

(** The values of the options of the parent select of a form dialog:
    none, or a main category other than the one being edited. *)
Definition offered (edited : option Category) (cats : list Category) : list string :=
  "" :: map c_id
          (filter (fun c => match edited with
                            | Some e => negb (hasId (c_id e) c)
                            | None => true
                            end)
                  (mainCategories cats)).

(** Vocabulary: every category is a main one or names as its parent a
    main category of the list, which is what the page can show. *)
Definition twoLevels (cats : list Category) : Prop :=
  forall c, In c cats ->
    noParent c = true
    \/ exists m, In m cats /\ noParent m = true /\ c_parentId c = Some (c_id m).

End CategoryManagement.

(** ** [OfflineBanner.tsx]: the banner of the connection, and [App.tsx]'s
    replay callback *)

Module Banner.

(** [handleSync] of [App.tsx]: it logs the actions and never throws. *)
Definition handleSync : Hook.Callback := fun _ => true.

Inductive Colour := Rose | Amber | Emerald.

(** The three blocks of text of the banner: the offline message with
    its badge "n pending", the syncing message with its count and the
    plural "s", and "Back online — all changes synced!". *)
Inductive Message :=
| OfflineMessage (badge : option nat)
| SyncingMessage (count : nat) (plural : bool)
| AllSynced.

(** [OfflineBanner]: [None] when it returns [null], else the colour of
    the bar and the blocks rendered in it. *)
Definition OfflineBanner (isOnline isSyncing : bool) (pendingCount : nat)
  : option (Colour * list Message) :=
  if isOnline && negb isSyncing && Nat.eqb pendingCount 0 then None
  else
    Some (if negb isOnline then Rose else if isSyncing then Amber else Emerald,
          ((if negb isOnline
            then [OfflineMessage (if Nat.ltb 0 pendingCount then Some pendingCount
                                  else None)]
            else [])
           ++ (if isOnline && isSyncing
               then [SyncingMessage pendingCount (negb (Nat.eqb pendingCount 1))]
               else [])
           ++ (if isOnline && negb isSyncing && Nat.eqb pendingCount 0
               then [AllSynced]
               else []))%list).

(** The banner for a state of the hook. *)
Definition bannerOf (w : Hook.World) : option (Colour * list Message) :=
  OfflineBanner (Hook.isOnline w) (Hook.isSyncing w) (Hook.pendingCount w).

(** An event of a session whose replay callback, if it has one, does
    not throw, as [handleSync]. *)
Definition succeeds (e : Session.Event) : Prop :=
  match e with
  | Session.WentOnline cb => forall batch, cb batch = true
  | _ => True
  end.

End Banner.

(** ** [BarcodeLabelModal.tsx]: the Code 39 renderer *)

Module BarcodeLabel.

Definition CODE39 : list (ascii * string) :=
  [
   ("0"%char, "000110100"); ("1"%char, "100100001"); ("2"%char, "001100001"); ("3"%char, "101100000");
   ("4"%char, "000110001"); ("5"%char, "100110000"); ("6"%char, "001110000"); ("7"%char, "000100101");
   ("8"%char, "100100100"); ("9"%char, "001100100"); ("A"%char, "100001001"); ("B"%char, "001001001");
   ("C"%char, "101001000"); ("D"%char, "000011001"); ("E"%char, "100011000"); ("F"%char, "001011000");
   ("G"%char, "000001101"); ("H"%char, "100001100"); ("I"%char, "001001100"); ("J"%char, "000011100");
   ("K"%char, "100000011"); ("L"%char, "001000011"); ("M"%char, "101000010"); ("N"%char, "000010011");
   ("O"%char, "100010010"); ("P"%char, "001010010"); ("Q"%char, "000000111"); ("R"%char, "100000110");
   ("S"%char, "001000110"); ("T"%char, "000010110"); ("U"%char, "110000001"); ("V"%char, "011000001");
   ("W"%char, "111000000"); ("X"%char, "010010001"); ("Y"%char, "110010000"); ("Z"%char, "011010000");
   ("-"%char, "010000101"); ("."%char, "110000100"); (" "%char, "011000100"); ("*"%char, "010010100")
  ].

(** [CODE39[c]]. *)
Definition lookup (c : ascii) : option string :=
  option_map snd (find (fun e => Ascii.eqb (fst e) c) CODE39).

(** [CODE39[c] ?? CODE39[' ']]. *)
Definition patternOf (c : ascii) : string :=
  match lookup c with
  | Some pattern => pattern
  | None => match lookup " "%char with Some pattern => pattern | None => "" end
  end.

(** [toUpperCase] on the characters of ASCII, the others left alone. *)
Definition upper (c : ascii) : ascii :=
  let n := N_of_ascii c in
  if ((97 <=? n) && (n <=? 122))%N then ascii_of_N (n - 32) else c.

Fixpoint toUpperCase (s : string) : string :=
  match s with
  | EmptyString => EmptyString
  | String c r => String (upper c) (toUpperCase r)
  end.

(** The class [0-9A-Z\-. ] of the regular expression. *)
Definition kept (c : ascii) : bool :=
  let n := N_of_ascii c in
  ((48 <=? n) && (n <=? 57))%N || ((65 <=? n) && (n <=? 90))%N
  || (n =? 45)%N || (n =? 46)%N || (n =? 32)%N.

(** [s.replace(/[^0-9A-Z\-. ]/g, '')]. *)
Fixpoint strip (s : string) : string :=
  match s with
  | EmptyString => EmptyString
  | String c r => if kept c then String c (strip r) else strip r
  end.

(** What the bars spell: the text in upper case, stripped, between
    two asterisks. *)
Definition framed (text : string) : string :=
  "*" ++ strip (toUpperCase text) ++ "*".

Definition encoded (text : string) : list string :=
  map patternOf (list_ascii_of_string (framed text)).

Definition NARROW : Z := 2.
Definition WIDE : Z := 5.
Definition GAP : Z := 3.

Record Bar := mkBar {
  x : Z;
  w : Z;
  bar : bool
}.

(** [pattern.split('').forEach((bit, i) => ...)] from element [i] on,
    the pen at [x0]: the elements pushed and the pen afterwards. *)
Fixpoint elements (pattern : string) (i : nat) (x0 : Z) : list Bar * Z :=
  match pattern with
  | EmptyString => ([], x0)
  | String bit rest =>
      let width := if Ascii.eqb bit "1" then WIDE else NARROW in
      let (bars, x1) := elements rest (S i) (x0 + width) in
      (mkBar x0 width (Nat.even i) :: bars, x1)
  end.

(** [encoded.forEach((pattern, ci) => ...)]: the gap follows every
    pattern but the last. *)
Fixpoint place (patterns : list string) (x0 : Z) : list Bar * Z :=
  match patterns with
  | [] => ([], x0)
  | pattern :: rest =>
      let (bars, x1) := elements pattern 0 x0 in
      let x2 := match rest with [] => x1 | _ => x1 + GAP end in
      let (bars', x3) := place rest x2 in
      ((bars ++ bars')%list, x3)
  end.

(** [renderCode39]: the rectangles drawn, and [totalW]. *)
Definition renderCode39 (text : string) : list Bar * Z :=
  let (bars, totalW) := place (encoded text) 0 in
  (filter bar bars, totalW).

(** Vocabulary: the text has only characters of ASCII, for which
    [toUpperCase] is as above. *)
Fixpoint isAscii (s : string) : bool :=
  match s with
  | EmptyString => true
  | String c r => (N_of_ascii c <? 128)%N && isAscii r
  end.

(** Reading the rectangles back, as a scanner does: the widths of five
    bars and of the four spaces between them give the nine elements of
    a pattern, and the pattern its character. *)
Definition bit (width : Z) : ascii := if width =? WIDE then "1"%char else "0"%char.

Definition readPattern (b1 b2 b3 b4 b5 : Bar) : string :=
  String (bit (w b1)) (String (bit (x b2 - (x b1 + w b1)))
  (String (bit (w b2)) (String (bit (x b3 - (x b2 + w b2)))
  (String (bit (w b3)) (String (bit (x b4 - (x b3 + w b3)))
  (String (bit (w b4)) (String (bit (x b5 - (x b4 + w b4)))
  (String (bit (w b5)) EmptyString)))))))).

Definition charOf (pattern : string) : option ascii :=
  option_map fst (find (fun e => String.eqb (snd e) pattern) CODE39).

Fixpoint scan (rects : list Bar) : option string :=
  match rects with
  | [] => Some EmptyString
  | b1 :: b2 :: b3 :: b4 :: b5 :: rest =>
      match charOf (readPattern b1 b2 b3 b4 b5), scan rest with
      | Some c, Some s => Some (String c s)
      | _, _ => None
      end
  | _ => None
  end.

(** The character has an entry in [CODE39]. *)
Definition coded (c : ascii) : bool :=
  existsb (fun e => Ascii.eqb (fst e) c) CODE39.

Definition shift (d : Z) (b : Bar) : Bar := mkBar (x b + d) (w b) (bar b).

(** The rectangles of one character drawn from 0: there are five, they
    read back as the pattern and the pattern as the character, and the
    pen ends at 27. *)
Definition wellDrawn (c : ascii) : bool :=
  match filter bar (fst (elements (patternOf c) 0 0)) with
  | [b1; b2; b3; b4; b5] =>
      String.eqb (readPattern b1 b2 b3 b4 b5) (patternOf c)
      && match charOf (patternOf c) with
         | Some c' => Ascii.eqb c' c
         | None => false
         end
      && (snd (elements (patternOf c) 0 0) =? 27)
  | _ => false
  end.

End BarcodeLabel.

(** ** [src/utils/db.ts]: the stores keyed by a string, and their use
    when [App] starts *)

Module Stores.
Import Db.

(** A record of [appState]: [{ key, value }]. *)
Record Entry (T : Type) := mkEntry {
  key : string;
  value : T
}.
Arguments mkEntry {T} key value.
Arguments key {T} e.
Arguments value {T} e.

(** The object stores created by [onupgradeneeded] beside [syncQueue],
    each with its records in ascending key order, and the schedule of
    the outcomes of the coming requests, as for [Db.IDB].  [T] is the
    type of the values of [appState]. *)
Record Disk (T : Type) := mkDisk {
  s_items : list Item;
  s_warehouses : list Warehouse;
  s_categories : list Category;
  s_transactions : list Transaction;
  s_notifications : list Notification;
  s_appState : list (Entry T);
  s_outcomes : list bool
}.
Arguments mkDisk {T} _ _ _ _ _ _ _.
Arguments s_items {T} d.
Arguments s_warehouses {T} d.
Arguments s_categories {T} d.
Arguments s_transactions {T} d.
Arguments s_notifications {T} d.
Arguments s_appState {T} d.
Arguments s_outcomes {T} d.

(** [StoreName], the names of [STORES] but [syncQueue], each with the
    type of its records. *)
Inductive StoreName (T : Type) : Type -> Type :=
| items : StoreName T Item
| warehouses : StoreName T Warehouse
| categories : StoreName T Category
| transactions : StoreName T Transaction
| notifications : StoreName T Notification
| appState : StoreName T (Entry T).
Arguments items {T}.
Arguments warehouses {T}.
Arguments categories {T}.
Arguments transactions {T}.
Arguments notifications {T}.
Arguments appState {T}.

(** The [keyPath] given to [createObjectStore]. *)
Definition keyPath {T V} (storeName : StoreName T V) : V -> string :=
  match storeName in StoreName _ V return V -> string with
  | items => i_id
  | warehouses => w_id
  | categories => c_id
  | transactions => t_id
  | notifications => n_id
  | appState => key
  end.

Definition records {T V} (storeName : StoreName T V) (d : Disk T) : list V :=
  match storeName in StoreName _ V return list V with
  | items => s_items d
  | warehouses => s_warehouses d
  | categories => s_categories d
  | transactions => s_transactions d
  | notifications => s_notifications d
  | appState => s_appState d
  end.

Definition withRecords {T V} (storeName : StoreName T V) : list V -> Disk T -> Disk T :=
  match storeName in StoreName _ V return list V -> Disk T -> Disk T with
  | items => fun l d =>
      mkDisk l (s_warehouses d) (s_categories d) (s_transactions d)
             (s_notifications d) (s_appState d) (s_outcomes d)
  | warehouses => fun l d =>
      mkDisk (s_items d) l (s_categories d) (s_transactions d)
             (s_notifications d) (s_appState d) (s_outcomes d)
  | categories => fun l d =>
      mkDisk (s_items d) (s_warehouses d) l (s_transactions d)
             (s_notifications d) (s_appState d) (s_outcomes d)
  | transactions => fun l d =>
      mkDisk (s_items d) (s_warehouses d) (s_categories d) l
             (s_notifications d) (s_appState d) (s_outcomes d)
  | notifications => fun l d =>
      mkDisk (s_items d) (s_warehouses d) (s_categories d) (s_transactions d)
             l (s_appState d) (s_outcomes d)
  | appState => fun l d =>
      mkDisk (s_items d) (s_warehouses d) (s_categories d) (s_transactions d)
             (s_notifications d) l (s_outcomes d)
  end.

(** [store.put(v)] on the records of a store, in key order: a record
    of the same key is replaced. *)
Fixpoint put {V : Type} (keyOf : V -> string) (v : V) (l : list V) : list V :=
  match l with
  | [] => [v]
  | a :: rest =>
      match String.compare (keyOf v) (keyOf a) with
      | Lt => v :: a :: rest
      | Eq => v :: rest
      | Gt => a :: put keyOf v rest
      end
  end.

(** [values.forEach((v) => store.put(v))]. *)
Definition putAll {V : Type} (keyOf : V -> string) (values l : list V) : list V :=
  fold_left (fun l v => put keyOf v l) values l.

Definition hasKey {V : Type} (keyOf : V -> string) (k : string) (v : V) : bool :=
  String.eqb (keyOf v) k.

(** An [async] function over these stores. *)
Definition Async (T A : Type) : Type := Disk T -> Settled A * Disk T.

Definition ret {T A} (a : A) : Async T A := fun d => (Resolved a, d).

Definition bind {T A B} (m : Async T A) (k : A -> Async T B) : Async T B :=
  fun d =>
    match m d with
    | (Resolved a, d') => k a d'
    | (Rejected, d') => (Rejected, d')
    end.

Declare Scope stores_scope.
Delimit Scope stores_scope with stores.
Notation "x <- m ;; k" := (bind m (fun x => k))
  (at level 100, m at next level, right associativity) : stores_scope.
Notation "m ;; k" := (bind m (fun _ => k))
  (at level 100, right associativity) : stores_scope.
Local Open Scope stores_scope.

Definition withOutcomes {T} (o : list bool) (d : Disk T) : Disk T :=
  mkDisk (s_items d) (s_warehouses d) (s_categories d) (s_transactions d)
         (s_notifications d) (s_appState d) o.

(** One request, or one transaction: [onsuccess] or [oncomplete]
    resolves; [onerror] rejects, and what the transaction wrote is
    undone. *)
Definition request {T} : Async T unit :=
  fun d =>
    match s_outcomes d with
    | [] => (Resolved tt, d)
    | true :: rest => (Resolved tt, withOutcomes rest d)
    | false :: rest => (Rejected, withOutcomes rest d)
    end.

Definition dbGetAll {T V} (storeName : StoreName T V) : Async T (list V) :=
  request ;; fun d => (Resolved (records storeName d), d).

Definition dbGet {T V} (storeName : StoreName T V) (k : string) : Async T (option V) :=
  request ;;
  fun d => (Resolved (find (hasKey (keyPath storeName) k) (records storeName d)), d).

Definition dbPut {T V} (storeName : StoreName T V) (v : V) : Async T unit :=
  request ;;
  fun d => (Resolved tt,
            withRecords storeName (put (keyPath storeName) v (records storeName d)) d).

Definition dbPutMany {T V} (storeName : StoreName T V) (values : list V) : Async T unit :=
  request ;;
  fun d => (Resolved tt,
            withRecords storeName
              (putAll (keyPath storeName) values (records storeName d)) d).

Definition dbDelete {T V} (storeName : StoreName T V) (k : string) : Async T unit :=
  request ;;
  fun d => (Resolved tt,
            withRecords storeName
              (filter (fun v => negb (hasKey (keyPath storeName) k v))
                      (records storeName d)) d).

Definition dbClear {T V} (storeName : StoreName T V) : Async T unit :=
  request ;; fun d => (Resolved tt, withRecords storeName [] d).

Definition getAppState {T} (k : string) : Async T (option T) :=
  record <- dbGet appState k ;;
  ret (option_map value record).

Definition setAppState {T} (k : string) (v : T) : Async T unit :=
  dbPut appState (mkEntry k v).

(** The body the five [persist*] functions share. *)
Definition persist {T V} (storeName : StoreName T V) (values : list V) : Async T unit :=
  dbClear storeName ;; dbPutMany storeName values.

Definition persistItems {T} := @persist T _ items.
Definition persistWarehouses {T} := @persist T _ warehouses.
Definition persistCategories {T} := @persist T _ categories.
Definition persistTransactions {T} := @persist T _ transactions.
Definition persistNotifications {T} := @persist T _ notifications.

(** [Promise.all] of two promises already started: both run, and the
    result is rejected when one of them is. *)
Definition both {T A B} (a : Async T A) (b : Async T B) : Async T (A * B) :=
  fun d =>
    let (ra, d1) := a d in
    let (rb, d2) := b d1 in
    (match ra, rb with
     | Resolved x, Resolved y => Resolved (x, y)
     | _, _ => Rejected
     end, d2).

Record Persisted := mkPersisted {
  p_items : list Item;
  p_warehouses : list Warehouse;
  p_categories : list Category;
  p_transactions : list Transaction;
  p_notifications : list Notification
}.

Definition loadPersistedState {T} : Async T Persisted :=
  fun d =>
    match both (dbGetAll items)
            (both (dbGetAll warehouses)
               (both (dbGetAll categories)
                  (both (dbGetAll transactions)
                        (dbGetAll notifications)))) d with
    | (Resolved (i, (w, (c, (t, n)))), d') => (Resolved (mkPersisted i w c t n), d')
    | (Rejected, d') => (Rejected, d')
    end.

(** [App.tsx], the effect that runs once at mount.  The three initial
    constants come from [constants.ts]. *)
Section Mount.
Context {T : Type}.
Variable initialItems : list Item.
Variable initialWarehouses : list Warehouse.
Variable initialCategories : list Category.

Definition isEmpty {A : Type} (l : list A) : bool :=
  match l with [] => true | _ => false end.

Definition setWarehouses (l : list Warehouse) (st : App.State) : App.State :=
  App.mkState l (App.items st) (App.categories st) (App.transactions st)
              (App.notifications st) (App.scannedItem st) (App.activeScanFlow st)
              (App.idb st).

Definition setCategories (l : list Category) (st : App.State) : App.State :=
  App.mkState (App.warehouses st) (App.items st) l (App.transactions st)
              (App.notifications st) (App.scannedItem st) (App.activeScanFlow st)
              (App.idb st).

(** The assignments of the [try] block before the seeding. *)
Definition usePersisted (p : Persisted) (st : App.State) : App.State :=
  let st := App.setItems
              (fun _ => if isEmpty (p_items p) then initialItems else p_items p) st in
  let st := setWarehouses
              (if isEmpty (p_warehouses p) then initialWarehouses else p_warehouses p) st in
  let st := setCategories
              (if isEmpty (p_categories p) then initialCategories else p_categories p) st in
  let st := App.setTransactions (fun _ => p_transactions p) st in
  App.setNotifications (fun _ => p_notifications p) st.

(** The [catch] block. *)
Definition useDefaults (st : App.State) : App.State :=
  setCategories initialCategories
    (setWarehouses initialWarehouses (App.setItems (fun _ => initialItems) st)).

Definition seed : Async T unit :=
  persistItems initialItems ;;
  persistWarehouses initialWarehouses ;;
  persistCategories initialCategories.

(** The state, [isDbReady] and the stores once the effect is over. *)
Definition mountEffect (st : App.State) (d : Disk T) : (App.State * bool) * Disk T :=
  match loadPersistedState d with
  | (Resolved persisted, d1) =>
      let st1 := usePersisted persisted st in
      if isEmpty (p_items persisted) then
        match seed d1 with
        | (Resolved _, d2) => ((st1, true), d2)
        | (Rejected, d2) => ((useDefaults st1, true), d2)
        end
      else ((st1, true), d1)
  | (Rejected, d1) => ((useDefaults st, true), d1)
  end.

End Mount.

(** Vocabulary: the keys of a list of records are in strictly
    ascending order; the last record of a list that has a key. *)
Definition ascending {V : Type} (keyOf : V -> string) (l : list V) : Prop :=
  StronglySorted (fun a b => String.compare (keyOf a) (keyOf b) = Lt) l.

Definition lastWith {V : Type} (keyOf : V -> string) (k : string) (l : list V) : option V :=
  find (hasKey keyOf k) (rev l).

End Stores.

(** ** Vocabulary of the statements about requests *)

Module Flow.

(** What a request through a modal may do to the state: nothing, or
    append one PENDING transaction of type [ty] for [item], with a
    positive quantity (at most the stock of [item] when [bounded]) and
    no empty target, leave the items alone and close the scan flow. *)
Definition soundRequest (item : Item) (ty : TxType) (bounded : bool)
  (st st' : App.State) : Prop :=
  st' = st
  \/ exists tx,
       App.transactions st' = (App.transactions st ++ [tx])%list
       /\ t_type tx = ty /\ t_status tx = Types.PENDING
       /\ t_itemId tx = i_id item /\ t_warehouseId tx = i_warehouseId item
       /\ 0 < t_quantity tx
       /\ (bounded = true -> t_quantity tx <= i_quantity item)
       /\ t_targetWarehouseId tx <> Some ""
       /\ (ty = TRANSFER -> t_targetWarehouseId tx <> None)
       /\ App.items st' = App.items st
       /\ App.scannedItem st' = None /\ App.activeScanFlow st' = None.

End Flow.

(** ** Sample data for closed instances *)

Module Sample.

Definition clk : App.Clock :=
  App.mkClock 1700000000000 "2026-01-01T00:00:00.000Z" 42 "k3j9x0q1z".

Definition clk' : App.Clock :=
  App.mkClock 1700000360000 "2026-01-01T00:06:00.000Z" 7 "p0o9i8u7y".

Definition widget : Item :=
  mkItem "it-1" "Widget" "wh-1" "cat-1" 10 100 5 3 2 110 RAW "MNL-WID-1"
         "2025-12-01T00:00:00.000Z".

Definition manila : Warehouse := mkWarehouse "wh-1" "Manila Hub" "MNL".
Definition cebu : Warehouse := mkWarehouse "wh-2" "Cebu Hub" "CEB".
Definition widgets : Category := mkCategory "cat-1" "Widgets" "WID" None.

Definition request (ty : TxType) (txId : string) (target : option string) (qty : Z)
  : Transaction :=
  mkTx txId ty "it-1" "wh-1" target qty Types.PENDING "John Staff"
       "2025-12-31T00:00:00.000Z" None.

(** One item in stock and the given transactions on file. *)
Definition withTransactions (txs : list Transaction) (d : Db.IDB) : App.State :=
  App.mkState [manila; cebu] [widget] [widgets] txs [] None None d.

Definition actionA : Db.NewAction := Db.mkNew "APPROVE" (PApprove "TX-1") "t1".
Definition actionB : Db.NewAction := Db.mkNew "REJECT" (PReject "TX-2" "Other") "t2".
Definition actionC : Db.NewAction := Db.mkNew "APPROVE" (PApprove "TX-3") "t3".

Definition allFail : Hook.Callback := fun _ => false.

End Sample.

(** * Verification *)

(** Boolean range tests, read as propositions. *)
Ltac unbool :=
  repeat match goal with
  | H : (_ && _)%bool = true |- _ => apply andb_true_iff in H; destruct H
  | H : (_ <=? _)%N = true |- _ => apply N.leb_le in H
  | H : (_ <? _)%N = true |- _ => apply N.ltb_lt in H
  | |- (_ && _)%bool = true => apply andb_true_iff; split
  | |- (_ <=? _)%N = true => apply N.leb_le
  | |- (_ <? _)%N = true => apply N.ltb_lt
  end.

Section QueueFacts.
Import Db Queue.

(** A key above all stored keys goes to the end. *)
Lemma upsert_append lo k v l :
  keysWithin lo k l = true -> upsert k v l = (l ++ [v])%list.
Proof.
  revert lo. induction l as [|a l IH]; intros lo; simpl; auto.
  destruct (id a) as [ka|]; [|discriminate].
  intros H. unbool.
  destruct (N.ltb_spec k ka); [lia|].
  destruct (N.eqb_spec k ka); [lia|].
  erewrite IH by eassumption. reflexivity.
Qed.

Lemma keysWithin_app lo k v l :
  id v = Some k -> (lo <= k)%N -> keysWithin lo k l = true ->
  keysWithin lo (k + 1) (l ++ [v]) = true.
Proof.
  intros Hv. revert lo. induction l as [|a l IH]; intros lo Hlo; simpl.
  - intros _. rewrite Hv. unbool; lia.
  - destruct (id a) as [ka|]; [|discriminate].
    intros H. unbool; try lia. apply IH; [lia | assumption].
Qed.

Lemma keysWithin_map (f : SyncAction -> SyncAction) lo hi l :
  (forall x, id (f x) = id x) ->
  keysWithin lo hi (map f l) = keysWithin lo hi l.
Proof.
  intros Hf. revert lo. induction l as [|a l IH]; intros lo; simpl; auto.
  rewrite Hf. destruct (id a); auto. rewrite IH. reflexivity.
Qed.

Lemma map_below (g : SyncAction -> SyncAction) lo hi k l :
  keysWithin lo hi l = true -> (k < lo)%N ->
  map (fun x => if hasKey k x then g x else x) l = l.
Proof.
  revert lo. induction l as [|a l IH]; intros lo H Hk; simpl in *; auto.
  unfold hasKey at 1. destruct (id a) as [ka|]; [|discriminate].
  unbool. destruct (N.eqb_spec k ka); [lia|].
  f_equal. apply (IH (ka + 1)%N); [assumption | lia].
Qed.

Lemma find_key lo hi k l a :
  keysWithin lo hi l = true -> find (hasKey k) l = Some a ->
  id a = Some k /\ (lo <= k)%N /\ (k < hi)%N.
Proof.
  revert lo. induction l as [|b l IH]; intros lo H Hf; simpl in *; [discriminate|].
  unfold hasKey at 1 in Hf. destruct (id b) as [kb|] eqn:Hb; [|discriminate].
  unbool. destruct (N.eqb_spec k kb) as [->|Hne].
  - inversion Hf; subst. auto.
  - destruct (IH _ H0 Hf) as (? & ? & ?). repeat split; auto; lia.
Qed.

(** Rewriting the record stored under [k] happens in place. *)
Lemma upsert_replace (g : SyncAction -> SyncAction) lo hi k l a :
  keysWithin lo hi l = true -> find (hasKey k) l = Some a ->
  upsert k (g a) l = map (fun x => if hasKey k x then g x else x) l.
Proof.
  revert lo. induction l as [|b l IH]; intros lo H Hf; simpl in *; [discriminate|].
  unfold hasKey at 1 in Hf. unfold hasKey at 1.
  destruct (id b) as [kb|] eqn:Hb; [|discriminate].
  unbool. destruct (N.eqb_spec k kb) as [->|Hne].
  - inversion Hf; subst. rewrite N.ltb_irrefl.
    f_equal. symmetry. apply (map_below g (kb + 1)%N hi); [assumption | lia].
  - destruct (find_key _ _ _ _ _ H0 Hf) as (_ & Hk & _).
    destruct (N.ltb_spec k kb); [lia|].
    f_equal. apply (IH _ H0 Hf).
Qed.

Lemma map_fixed (g : SyncAction -> SyncAction) lo hi k l a :
  keysWithin lo hi l = true -> find (hasKey k) l = Some a -> g a = a ->
  map (fun x => if hasKey k x then g x else x) l = l.
Proof.
  intros H Hf Hg. rewrite <- (upsert_replace g lo hi k l a H Hf), Hg.
  revert lo H Hf. induction l as [|b l IH]; intros lo H Hf; simpl in *; [discriminate|].
  unfold hasKey at 1 in Hf. destruct (id b) as [kb|] eqn:Hb; [|discriminate].
  unbool. destruct (N.eqb_spec k kb) as [->|Hne].
  - inversion Hf; subst. rewrite N.ltb_irrefl. reflexivity.
  - destruct (find_key _ _ _ _ _ H0 Hf) as (_ & Hk & _).
    destruct (N.ltb_spec k kb); [lia|]. f_equal. apply (IH _ H0 Hf).
Qed.

Lemma request_ok d : outcomes d = [] -> request d = (Resolved tt, d).
Proof. unfold request. intros ->. reflexivity. Qed.

(** [enqueueSyncAction] when the write succeeds, and when it fails. *)
Lemma enqueue_next a d :
  wellFormed d = true ->
  snd (enqueueSyncAction a d) =
    if nextOk d
    then mkIDB (syncQueue d ++ [stored (keyGen d) a]) (keyGen d + 1) (tl (outcomes d))
    else mkIDB (syncQueue d) (keyGen d) (tl (outcomes d)).
Proof.
  intros Hwf. unfold enqueueSyncAction, dbPut, bind, request, nextOk.
  destruct d as [q g o]; simpl in *.
  destruct o as [|[|] o]; simpl; try reflexivity;
    unfold storePut; simpl; unfold wellFormed in Hwf; simpl in Hwf;
    rewrite (upsert_append 0%N) by assumption; reflexivity.
Qed.

Lemma enqueue_ok a d :
  wellFormed d = true -> outcomes d = [] ->
  enqueueSyncAction a d =
    (Resolved tt, mkIDB (syncQueue d ++ [stored (keyGen d) a]) (keyGen d + 1) []).
Proof.
  intros Hwf Ho. unfold enqueueSyncAction, dbPut, bind. rewrite request_ok by assumption.
  unfold storePut; simpl. unfold wellFormed in Hwf.
  rewrite (upsert_append 0%N) by assumption. rewrite Ho. reflexivity.
Qed.

(** A status transition of the record under [k], by [g]. *)
Lemma mark_ok (g : SyncAction -> SyncAction) d k :
  (forall x, id (g x) = id x) ->
  wellFormed d = true -> outcomes d = [] ->
  (a <- dbGet k ;; match a with Some a => dbPut (g a) | None => ret tt end) d =
    (Resolved tt,
     mkIDB (map (fun x => if hasKey k x then g x else x) (syncQueue d)) (keyGen d) []).
Proof.
  intros Hg Hwf Ho. unfold dbGet, dbPut, bind. rewrite request_ok by assumption.
  unfold wellFormed in Hwf.
  destruct (find (hasKey k) (syncQueue d)) as [a|] eqn:Hf.
  - rewrite request_ok by assumption.
    destruct (find_key _ _ _ _ _ Hwf Hf) as (Ha & _ & Hlt).
    unfold storePut. rewrite Hg, Ha.
    rewrite (upsert_replace g 0%N (keyGen d)) by assumption.
    rewrite Ho. f_equal. f_equal. lia.
  - unfold ret. destruct d as [q kg o]; simpl in *. subst o. f_equal. f_equal.
    clear Hwf. induction q as [|b q IH]; simpl in *; auto.
    destruct (hasKey k b); [discriminate|]. f_equal. auto.
Qed.

Lemma markSynced_ok d k :
  wellFormed d = true -> outcomes d = [] ->
  markSyncActionSynced k d =
    (Resolved tt,
     mkIDB (map (fun x => if hasKey k x then asSynced x else x) (syncQueue d)) (keyGen d) []).
Proof. intros. apply (mark_ok asSynced); auto. Qed.

Lemma markFailed_ok d k :
  wellFormed d = true -> outcomes d = [] ->
  markSyncActionFailed k d =
    (Resolved tt,
     mkIDB (map (fun x => if hasKey k x then asFailed x else x) (syncQueue d)) (keyGen d) []).
Proof. intros. apply (mark_ok asFailed); auto. Qed.

Lemma map_absent (g : SyncAction -> SyncAction) k l :
  find (hasKey k) l = None -> map (fun x => if hasKey k x then g x else x) l = l.
Proof.
  induction l as [|b l IH]; simpl; auto.
  destruct (hasKey k b); [discriminate|]. intros H. f_equal. auto.
Qed.

Lemma find_map_key (g : SyncAction -> SyncAction) k l a :
  (forall x, id (g x) = id x) -> find (hasKey k) l = Some a ->
  find (hasKey k) (map (fun x => if hasKey k x then g x else x) l) = Some (g a).
Proof.
  intros Hg. induction l as [|b l IH]; simpl; [discriminate|].
  destruct (hasKey k b) eqn:Hb; simpl.
  - intros H; inversion H; subst.
    assert (hasKey k (g a) = true) as -> by (unfold hasKey in *; rewrite Hg; exact Hb).
    reflexivity.
  - rewrite Hb. exact IH.
Qed.

(** Every stored key is at least the lower bound of the range. *)
Lemma keysWithin_mid lo hi pre a post k :
  keysWithin lo hi (pre ++ a :: post) = true -> id a = Some k ->
  (lo <= k)%N /\ keysWithin (k + 1) hi post = true.
Proof.
  revert lo. induction pre as [|b pre IH]; intros lo H Ha; simpl in *.
  - rewrite Ha in H. unbool. auto.
  - destruct (id b) as [kb|]; [|discriminate]. unbool.
    destruct (IH _ H0 Ha). split; [lia | assumption].
Qed.

Lemma map_at_key (g : SyncAction -> SyncAction) lo hi pre a post k :
  keysWithin lo hi (pre ++ a :: post) = true -> id a = Some k ->
  map (fun x => if hasKey k x then g x else x) (pre ++ a :: post)
  = (pre ++ g a :: post)%list.
Proof.
  revert lo. induction pre as [|b pre IH]; intros lo H Ha; simpl in *.
  - unfold hasKey at 1. rewrite Ha, N.eqb_refl. f_equal.
    rewrite Ha in H. unbool. apply (map_below g (k + 1)%N hi); [assumption | lia].
  - unfold hasKey at 1. destruct (id b) as [kb|]; [|discriminate]. unbool.
    destruct (keysWithin_mid _ _ _ _ _ _ H0 Ha) as [Hk _].
    destruct (N.eqb_spec k kb); [lia|]. f_equal. apply (IH _ H0 Ha).
Qed.

(** Marking a drained batch, record by record, rewrites exactly the
    PENDING records of the store. *)
Lemma forEachId_mark (g : SyncAction -> SyncAction) (mark : N -> Async unit) hi :
  (forall x, id (g x) = id x) ->
  (forall d k, wellFormed d = true -> outcomes d = [] ->
     mark k d = (Resolved tt,
       mkIDB (map (fun x => if hasKey k x then g x else x) (syncQueue d)) (keyGen d) [])) ->
  forall post pre,
    keysWithin 0 hi (pre ++ post) = true ->
    Hook.forEachId mark (filter isPending post) (mkIDB (pre ++ post) hi [])
    = (Resolved tt,
       mkIDB (pre ++ map (fun x => if isPending x then g x else x) post) hi []).
Proof.
  intros Hg Hmark. induction post as [|a post IH]; intros pre Hwf; simpl.
  - reflexivity.
  - destruct (isPending a) eqn:Hp; simpl.
    + destruct (id a) as [k|] eqn:Ha.
      * unfold bind. rewrite Hmark by (auto; exact Hwf). simpl.
        rewrite (map_at_key g 0%N hi) by assumption.
        change (pre ++ g a :: post)%list with (pre ++ [g a] ++ post)%list.
        rewrite app_assoc. rewrite IH.
        -- rewrite <- app_assoc. reflexivity.
        -- rewrite <- app_assoc. simpl.
           rewrite <- (map_at_key g 0%N hi pre a post k) by assumption.
           rewrite keysWithin_map; [assumption|].
           intros x. destruct (hasKey k x); auto.
      * exfalso. clear -Hwf Ha. revert Hwf. generalize 0%N.
        induction pre as [|b pre IHp]; intros lo; simpl.
        -- rewrite Ha. discriminate.
        -- destruct (id b); [|discriminate]. intros H. unbool. eauto.
    + change (pre ++ a :: post)%list with (pre ++ [a] ++ post)%list in *.
      rewrite app_assoc in *. rewrite IH by assumption.
      rewrite <- app_assoc. reflexivity.
Qed.

Lemma described_stored k a : described (stored k a) = a.
Proof. destruct a; reflexivity. Qed.

Lemma runOp_inv d op :
  wellFormed d = true -> outcomes d = [] ->
  wellFormed (runOp d op) = true /\ outcomes (runOp d op) = []
  /\ map described (syncQueue (runOp d op))
     = (map described (syncQueue d)
        ++ match op with Enqueue a => [a] | _ => [] end)%list.
Proof.
  intros Hwf Ho. destruct op as [a|k|k]; simpl.
  - rewrite enqueue_ok by assumption. simpl. unfold wellFormed in *; simpl.
    repeat split.
    + apply keysWithin_app; [reflexivity | lia | assumption].
    + rewrite map_app. simpl. rewrite described_stored. reflexivity.
  - rewrite markSynced_ok by assumption. simpl. unfold wellFormed in *; simpl.
    repeat split.
    + rewrite keysWithin_map; [assumption|]. intros x; destruct (hasKey k x); auto.
    + rewrite map_map, app_nil_r. apply map_ext.
      intros x; destruct (hasKey k x); reflexivity.
  - rewrite markFailed_ok by assumption. simpl. unfold wellFormed in *; simpl.
    repeat split.
    + rewrite keysWithin_map; [assumption|]. intros x; destruct (hasKey k x); auto.
    + rewrite map_map, app_nil_r. apply map_ext.
      intros x; destruct (hasKey k x); reflexivity.
Qed.

Lemma fold_runOp_inv ops : forall d,
  wellFormed d = true -> outcomes d = [] ->
  wellFormed (fold_left runOp ops d) = true /\ outcomes (fold_left runOp ops d) = []
  /\ map described (syncQueue (fold_left runOp ops d))
     = (map described (syncQueue d) ++ enqueuedBy ops)%list.
Proof.
  induction ops as [|op ops IH]; intros d Hwf Ho; simpl.
  - rewrite app_nil_r. auto.
  - destruct (runOp_inv d op Hwf Ho) as (Hwf' & Ho' & Hd).
    destruct (IH _ Hwf' Ho') as (? & ? & Hd'). repeat split; auto.
    rewrite Hd', Hd, <- app_assoc. destruct op; reflexivity.
Qed.

Lemma runOps_inv ops :
  wellFormed (runOps ops) = true /\ outcomes (runOps ops) = []
  /\ map described (syncQueue (runOps ops)) = enqueuedBy ops.
Proof. apply (fold_runOp_inv ops emptyDB); reflexivity. Qed.

Lemma getPending_ok d :
  outcomes d = [] -> getPendingSyncActions d = (Resolved (pendingOf d), d).
Proof.
  intros Ho. unfold getPendingSyncActions, dbGetAll, bind.
  rewrite request_ok by assumption. reflexivity.
Qed.

End QueueFacts.

(** ** Draining and replaying the queue *)

Section SyncCycle.
Import Db Queue Hook.

Lemma runOps_snoc ops op : runOps (ops ++ [op]) = runOp (runOps ops) op.
Proof. unfold runOps. rewrite fold_left_app. reflexivity. Qed.

Lemma pendingOf_enqueue ops a :
  pendingOf (runOps (ops ++ [Enqueue a]))
  = (pendingOf (runOps ops) ++ [stored (keyGen (runOps ops)) a])%list.
Proof.
  destruct (runOps_inv ops) as (Hwf & Ho & _).
  rewrite runOps_snoc. unfold runOp. rewrite enqueue_ok by assumption.
  unfold pendingOf. simpl. rewrite filter_app. reflexivity.
Qed.

Lemma none_pending_after (g : SyncAction -> SyncAction) l :
  (forall x, isPending (g x) = false) ->
  filter isPending (map (fun x => if isPending x then g x else x) l) = [].
Proof.
  intros Hg. induction l as [|a l IH]; simpl; auto.
  destruct (isPending a) eqn:Ha; [rewrite Hg | rewrite Ha]; exact IH.
Qed.

(** A cycle over a non-empty batch: the callback decides how the whole
    batch is marked. *)
Lemma syncNow_batch cb w :
  wellFormed (db w) = true -> outcomes (db w) = [] -> pendingOf (db w) <> [] ->
  syncNow (Some cb) w =
    (Resolved tt,
     mkWorld (mkIDB (map (fun a => if isPending a
                                   then (if cb (pendingOf (db w)) then asSynced a
                                         else asFailed a)
                                   else a) (syncQueue (db w)))
                    (keyGen (db w)) [])
             (isOnline w) false
             (if cb (pendingOf (db w)) then 0 else List.length (pendingOf (db w)))
             (replayed w ++ [pendingOf (db w)])).
Proof.
  intros Hwf Ho Hne. unfold syncNow. rewrite getPending_ok by assumption.
  destruct (pendingOf (db w)) as [|a l] eqn:Hp; [congruence|].
  rewrite <- Hp. clear Hne.
  destruct w as [[q kg o] on sy pc lg]; simpl in *. subst o.
  unfold wellFormed in Hwf; simpl in Hwf.
  unfold tryBlock, catchBlock, logReplay, setIsSyncing, setPendingCount, setDb; simpl.
  unfold pendingOf in *; simpl in *.
  destruct (cb (filter isPending q)).
  - rewrite (forEachId_mark asSynced markSyncActionSynced kg) with (pre := []);
      auto using markSynced_ok.
  - rewrite (forEachId_mark asFailed markSyncActionFailed kg) with (pre := []);
      auto using markFailed_ok.
Qed.

(** C4. The store holds the actions in the order they were enqueued;
    draining returns the PENDING ones in that order.  Three actions A,
    B, C enqueued in that order come last in the batch, as A, B, C
    under three consecutive keys, and a sync cycle applies the replay
    callback to exactly that batch: whatever the callback, its verdict
    on this list, and on no other, decides whether the actions of the
    batch are stored SYNCED or FAILED, and the batch is what the cycle
    records as replayed.  A cycle does not call the callback on an
    empty batch. *)
Theorem fifo_replay_order (ops : list Op) (cb : Callback) (online syncing : bool)
  (n : nat) (log : list (list SyncAction)) (A B C : NewAction) :
  let d := runOps ops in
  let d3 := runOps (ops ++ [Enqueue A; Enqueue B; Enqueue C]) in
  let batch := (pendingOf d
                ++ [stored (keyGen d) A; stored (keyGen d + 1) B;
                    stored (keyGen d + 2) C])%list in
  map described (syncQueue d) = enqueuedBy ops
  /\ getPendingSyncActions d = (Resolved (pendingOf d), d)
  /\ (pendingOf d = [] ->
      syncNow (Some cb) (mkWorld d online syncing n log)
      = (Resolved tt, mkWorld d online syncing 0 log))
  /\ getPendingSyncActions d3 = (Resolved batch, d3)
  /\ map described batch = (map described (pendingOf d) ++ [A; B; C])%list
  /\ syncNow (Some cb) (mkWorld d3 online syncing n log)
     = (Resolved tt,
        mkWorld (mkIDB (map (fun a => if isPending a
                                      then (if cb batch then asSynced a else asFailed a)
                                      else a) (syncQueue d3))
                       (keyGen d3) [])
                online false (if cb batch then 0 else List.length batch)
                (log ++ [batch])).
Proof.
  intros d d3 batch.
  destruct (runOps_inv ops) as (Hwf & Ho & Hd).
  destruct (runOps_inv (ops ++ [Enqueue A; Enqueue B; Enqueue C])) as (Hwf3 & Ho3 & _).
  assert (H3 : pendingOf d3 = batch).
  { unfold d3, batch, d.
    change [Enqueue A; Enqueue B; Enqueue C]
      with ([Enqueue A] ++ [Enqueue B] ++ [Enqueue C])%list.
    rewrite !app_assoc, !pendingOf_enqueue, <- !app_assoc. simpl.
    assert (K : forall os a, keyGen (runOps (os ++ [Enqueue a])) = (keyGen (runOps os) + 1)%N).
    { intros os a. destruct (runOps_inv os) as (Hw & Hs & _).
      rewrite runOps_snoc. unfold runOp. rewrite enqueue_ok by assumption. reflexivity. }
    replace (ops ++ [Enqueue A; Enqueue B])%list
      with ((ops ++ [Enqueue A]) ++ [Enqueue B])%list by (rewrite <- app_assoc; reflexivity).
    rewrite !K.
    replace (keyGen (runOps ops) + 1 + 1)%N with (keyGen (runOps ops) + 2)%N by lia.
    reflexivity. }
  split; [exact Hd|]. split; [apply getPending_ok; assumption|]. split; [|split; [|split]].
  - intros He. unfold syncNow. simpl db. rewrite getPending_ok by assumption.
    fold d. rewrite He. reflexivity.
  - rewrite <- H3. apply getPending_ok. assumption.
  - unfold batch. rewrite map_app. simpl. rewrite !described_stored. reflexivity.
  - rewrite <- H3.
    apply (syncNow_batch cb (mkWorld d3 online syncing n log)); try assumption.
    simpl. rewrite H3. unfold batch. intros E. destruct (pendingOf d); discriminate E.
Qed.

(** C5, as the code has it. After a cycle over a non-empty batch, every
    action of the batch is stored SYNCED and the pending count is 0 when
    the callback succeeds; every action of the batch is stored FAILED
    with [retries] one higher when the callback throws, the pending
    count keeping the size of the batch.  In both cases the next drain
    is empty: a FAILED action is not PENDING, so it is not replayed
    again.  A cycle over an empty batch only sets the count to 0. *)
Theorem sync_cycle_outcome (ops : list Op) (cb : Callback) (online syncing : bool)
  (n : nat) (log : list (list SyncAction)) :
  let d := runOps ops in
  let batch := pendingOf d in
  let w' := snd (syncNow (Some cb) (mkWorld d online syncing n log)) in
  match batch with
  | [] => w' = mkWorld d online syncing 0 log
  | _ :: _ =>
      syncQueue (db w')
      = map (fun a => if isPending a
                      then (if cb batch then asSynced a else asFailed a)
                      else a) (syncQueue d)
      /\ pendingCount w' = (if cb batch then 0 else List.length batch)%nat
      /\ replayed w' = (log ++ [batch])%list
      /\ isSyncing w' = false
      /\ getPendingSyncActions (db w') = (Resolved [], db w')
  end.
Proof.
  intros d batch w'. destruct (runOps_inv ops) as (Hwf & Ho & _).
  subst batch w'. destruct (pendingOf d) as [|a l] eqn:Hb.
  - unfold syncNow. simpl db. rewrite getPending_ok by assumption.
    rewrite Hb. reflexivity.
  - assert (Hne : pendingOf d <> []) by congruence.
    rewrite syncNow_batch by assumption. simpl. rewrite Hb.
    split; [reflexivity|]. split; [reflexivity|].
    split; [reflexivity|]. split; [reflexivity|].
    rewrite getPending_ok by reflexivity. unfold pendingOf. simpl.
    rewrite none_pending_after; [reflexivity|].
    intros x. destruct (cb (a :: l)); reflexivity.
Qed.

(** C5 as stated fails: two PENDING actions, a callback that throws; the
    batch is marked FAILED and the next drain does not contain it. *)
Lemma failed_batch_not_redrained :
  let d := runOps [Enqueue Sample.actionA; Enqueue Sample.actionB] in
  let w' := snd (syncNow (Some Sample.allFail) (mkWorld d true false 0 [])) in
  map id (pendingOf d) = [Some 1%N; Some 2%N]
  /\ map status (syncQueue (db w')) = [FAILED; FAILED]
  /\ map retries (syncQueue (db w')) = [1%N; 1%N]
  /\ getPendingSyncActions (db w') = (Resolved [], db w')
  /\ ~ (forall a, In a (pendingOf d) ->
          exists a', In a' (pendingOf (db w')) /\ id a' = id a).
Proof.
  cbv zeta. repeat split; try reflexivity.
  intros H. destruct (H (stored 1 Sample.actionA)) as (a' & Hin & _).
  - left. reflexivity.
  - exact Hin.
Qed.

(** C9, as the code has it. On a key that is not stored, both marks
    resolve and change nothing.  On a stored key, [markSyncActionSynced]
    rewrites the record with status SYNCED and [markSyncActionFailed]
    with status FAILED and [retries] one higher, whatever the status
    was: only marking SYNCED an action that is SYNCED leaves the store
    as it is. *)
Theorem mark_transitions (ops : list Op) (k : N) :
  let d := runOps ops in
  match find (hasKey k) (syncQueue d) with
  | None =>
      markSyncActionSynced k d = (Resolved tt, d)
      /\ markSyncActionFailed k d = (Resolved tt, d)
  | Some a =>
      fst (markSyncActionSynced k d) = Resolved tt
      /\ fst (markSyncActionFailed k d) = Resolved tt
      /\ find (hasKey k) (syncQueue (snd (markSyncActionSynced k d))) = Some (asSynced a)
      /\ find (hasKey k) (syncQueue (snd (markSyncActionFailed k d))) = Some (asFailed a)
      /\ snd (markSyncActionFailed k d) <> d
      /\ match status a with
         | SYNCED => snd (markSyncActionSynced k d) = d
         | _ => snd (markSyncActionSynced k d) <> d
         end
  end.
Proof.
  intros d. destruct (runOps_inv ops) as (Hwf & Ho & _). fold d in Hwf, Ho.
  rewrite markSynced_ok, markFailed_ok by assumption.
  destruct (find (hasKey k) (syncQueue d)) as [a|] eqn:Hf.
  - simpl.
    assert (HS : find (hasKey k) (map (fun x => if hasKey k x then asSynced x else x)
                                      (syncQueue d)) = Some (asSynced a))
      by (apply find_map_key; auto).
    assert (HF : find (hasKey k) (map (fun x => if hasKey k x then asFailed x else x)
                                      (syncQueue d)) = Some (asFailed a))
      by (apply find_map_key; auto).
    repeat split; auto.
    + intros E. rewrite <- E in Hf at 1. simpl in Hf. rewrite HF in Hf.
      inversion Hf as [E']. apply (f_equal retries) in E'. simpl in E'. lia.
    + destruct (status a) eqn:Hs.
      * intros E. rewrite <- E in Hf at 1. simpl in Hf. rewrite HS in Hf.
        inversion Hf as [E']. apply (f_equal status) in E'. simpl in E'. congruence.
      * unfold wellFormed in Hwf.
        rewrite (map_fixed asSynced 0%N (keyGen d) k (syncQueue d) a); auto.
        -- destruct d; simpl in *; subst; reflexivity.
        -- destruct a; simpl in *; subst; reflexivity.
      * intros E. rewrite <- E in Hf at 1. simpl in Hf. rewrite HS in Hf.
        inversion Hf as [E']. apply (f_equal status) in E'. simpl in E'. congruence.
  - rewrite !map_absent by assumption.
    destruct d as [q kg o]; simpl in *. subst o. auto.
Qed.

(** C9 as stated fails: an action that is FAILED with one retry is
    rewritten by either mark. *)
Lemma mark_terminal_rewrites_record :
  let d := runOps [Enqueue Sample.actionA; MarkFailed 1] in
  option_map (fun a => (status a, retries a)) (find (hasKey 1) (syncQueue d))
  = Some (FAILED, 1%N)
  /\ option_map (fun a => (status a, retries a))
       (find (hasKey 1) (syncQueue (snd (markSyncActionFailed 1 d))))
     = Some (FAILED, 2%N)
  /\ option_map (fun a => (status a, retries a))
       (find (hasKey 1) (syncQueue (snd (markSyncActionSynced 1 d))))
     = Some (SYNCED, 1%N)
  /\ snd (markSyncActionFailed 1 d) <> d
  /\ snd (markSyncActionSynced 1 d) <> d.
Proof. cbv zeta. repeat split; try reflexivity; vm_compute; discriminate. Qed.

End SyncCycle.

(** ** Numbers as text *)

Section Numbers.
Import Js.

Lemma digits_step (acc : option Z) (c : ascii) (r : string) :
  isDigit c = true ->
  digits acc (String c r)
  = digits (Some (10 * match acc with Some a => a | None => 0 end + digitVal c)) r.
Proof. intros H. simpl. rewrite H. reflexivity. Qed.

Ltac digit_value :=
  match goal with
  | |- context [digitVal ?c] =>
      let v := eval vm_compute in (digitVal c) in change (digitVal c) with v
  end.

Lemma digits_acc (d : Decimal.uint) (p : positive) :
  digits (Some (Z.pos p)) (NilEmpty.string_of_uint d) = Some (Z.pos (Pos.of_uint_acc d p)).
Proof.
  revert p. induction d; intros p; cbn [NilEmpty.string_of_uint Pos.of_uint_acc];
    [reflexivity|..];
    rewrite digits_step by reflexivity; rewrite <- IHd; do 2 f_equal; digit_value; lia.
Qed.

Lemma digits_from_zero (d : Decimal.uint) :
  digits (Some 0) (NilEmpty.string_of_uint d) = Some (Z.of_N (Pos.of_uint d)).
Proof.
  induction d; cbn [NilEmpty.string_of_uint Pos.of_uint]; [reflexivity|..];
    rewrite digits_step by reflexivity; digit_value;
    [exact IHd | apply digits_acc ..].
Qed.

Lemma digits_none (d : Decimal.uint) :
  d <> Decimal.Nil ->
  digits None (NilEmpty.string_of_uint d) = Some (Z.of_N (Pos.of_uint d)).
Proof.
  intros Hd. rewrite <- digits_from_zero. destruct d; [contradiction Hd|..]; reflexivity.
Qed.

Lemma parseInt_digits (d : Decimal.uint) :
  d <> Decimal.Nil ->
  parseInt (NilEmpty.string_of_uint d) = Some (Z.of_N (Pos.of_uint d)).
Proof.
  intros Hd. rewrite <- (digits_none d Hd). destruct d; [contradiction Hd|..]; reflexivity.
Qed.

Lemma to_uint_not_nil (p : positive) : Pos.to_uint p <> Decimal.Nil.
Proof.
  intros E. pose proof (DecimalPos.Unsigned.of_to p) as H. rewrite E in H. discriminate H.
Qed.

Lemma nilzero_string (d : Decimal.uint) :
  d <> Decimal.Nil -> NilZero.string_of_uint d = NilEmpty.string_of_uint d.
Proof. destruct d; [intros H; contradiction H|..]; reflexivity. Qed.

(** [parseInt(String(z), 10)] is [z]. *)
Lemma parseInt_showZ (z : Z) : parseInt (showZ z) = Some z.
Proof.
  unfold showZ. destruct z as [|p|p]; simpl.
  - reflexivity.
  - rewrite (nilzero_string _ (to_uint_not_nil p)),
      (parseInt_digits _ (to_uint_not_nil p)), DecimalPos.Unsigned.of_to. reflexivity.
  - rewrite (nilzero_string _ (to_uint_not_nil p)).
    unfold parseInt. simpl. rewrite (digits_none _ (to_uint_not_nil p)),
      DecimalPos.Unsigned.of_to. reflexivity.
Qed.

Lemma parseIntOr0_showZ (z : Z) : parseIntOr0 (showZ z) = z.
Proof. unfold parseIntOr0. rewrite parseInt_showZ. reflexivity. Qed.






End Numbers.

(** ** Request handlers and their callers *)

Section Requests.
Import Db Queue App Ledger.

Lemma handler_requested clk item qty ty pre name target st st' :
  wellFormed (idb st) = true ->
  transactions st' = (transactions st ++ [newRequest clk pre ty item target qty])%list ->
  items st' = items st ->
  idb st' = snd (enqueueSyncAction
                   (mkNew name (PTransaction (newRequest clk pre ty item target qty))
                          (isoNow clk)) (idb st)) ->
  requested clk item qty ty pre name target st st'.
Proof.
  intros Hwf Ht Hi Hd. unfold requested. rewrite Ht, Hi, Hd, enqueue_next by assumption.
  repeat split. destruct (nextOk (idb st)); reflexivity.
Qed.

(** C3, as the code has it. Every request handler call appends the new
    PENDING transaction to [transactions] and touches no item; the
    matching action (same type, the transaction as payload, PENDING, no
    retries) is appended to the queue when the write to the store
    succeeds, and when that write fails the transaction stays without
    a queue entry: the handler neither awaits nor undoes. *)
Theorem request_outcome (clk : Clock) (item : Item) (qty : Z) (targetWhId : string)
  (warehouses0 : list Warehouse) (st : State) :
  wellFormed (idb st) = true ->
  requested clk item qty STOCK_IN "TX-" "STOCK_IN" None st
            (handleStockInRequest clk item qty st)
  /\ requested clk item qty STOCK_OUT "TX-" "STOCK_OUT" None st
               (handleStockOutRequest clk item qty st)
  /\ requested clk item qty TRANSFER "TR-" "TRANSFER" (Some targetWhId) st
               (handleTransferRequest clk warehouses0 item targetWhId qty st).
Proof.
  intros Hwf. repeat split; apply handler_requested; auto.
Qed.

Lemma request_outcome_witness :
  wellFormed (idb (Sample.withTransactions [] emptyDB)) = true
  /\ requested Sample.clk Sample.widget 4 STOCK_OUT "TX-" "STOCK_OUT" None
       (Sample.withTransactions [] emptyDB)
       (handleStockOutRequest Sample.clk Sample.widget 4
          (Sample.withTransactions [] emptyDB)).
Proof.
  split; [reflexivity|].
  apply (request_outcome Sample.clk Sample.widget 4 "wh-2" [Sample.manila; Sample.cebu]
           (Sample.withTransactions [] emptyDB)).
  reflexivity.
Defined.

(** C3 as stated fails: when the write to the store fails, the
    transaction is on file and the queue is empty. *)
Lemma request_without_queue_entry :
  let st := Sample.withTransactions [] (mkIDB [] 1 [false]) in
  let st' := handleStockInRequest Sample.clk Sample.widget 5 st in
  map t_id (transactions st') = ["TX-1700000000000"]
  /\ syncQueue (idb st') = []
  /\ ~ ((exists tx a, In tx (transactions st') /\ ~ In tx (transactions st)
                      /\ In a (syncQueue (idb st')) /\ payload a = PTransaction tx)
        \/ (transactions st' = transactions st
            /\ syncQueue (idb st') = syncQueue (idb st))).
Proof.
  cbv zeta. split; [reflexivity|]. split; [reflexivity|].
  intros [(tx & a & _ & _ & Ha & _) | [H _]].
  - exact Ha.
  - discriminate H.
Qed.




End Requests.

(** ** Strings: the pieces of a generated id *)

Section Strings.
Import Js.

Lemma append_nil_r (s : string) : s ++ "" = s.
Proof. induction s as [|c s IH]; simpl; [reflexivity|]. rewrite IH. reflexivity. Qed.

Lemma append_assoc (a b c : string) : (a ++ b) ++ c = a ++ (b ++ c).
Proof. induction a as [|x a IH]; simpl; [reflexivity|]. rewrite IH. reflexivity. Qed.

Lemma revString_acc acc s : revString acc s = revString "" s ++ acc.
Proof.
  revert acc. induction s as [|c s IH]; intros acc; simpl; [reflexivity|].
  rewrite (IH (String c acc)), (IH (String c "")).
  rewrite append_assoc. reflexivity.
Qed.

Lemma revString_twice cur s : revString "" (revString cur s) = revString "" cur ++ s.
Proof.
  revert cur. induction s as [|c s IH]; intros cur; simpl.
  - rewrite append_nil_r. reflexivity.
  - rewrite IH. simpl. rewrite (revString_acc (String c "")).
    rewrite append_assoc. reflexivity.
Qed.

Lemma splitGo_piece sep cur s rest :
  avoids sep s = true ->
  splitGo sep cur (s ++ String sep rest)
  = (revString "" cur ++ s) :: splitGo sep "" rest.
Proof.
  revert cur. induction s as [|c s IH]; intros cur H; simpl in *.
  - rewrite Ascii.eqb_refl, append_nil_r. reflexivity.
  - apply andb_true_iff in H. destruct H as [Hc Hs].
    apply negb_true_iff in Hc. rewrite Hc, IH by assumption.
    simpl. rewrite (revString_acc (String c "")), append_assoc. reflexivity.
Qed.

Lemma digits_avoid_dash d : avoids "-" (NilEmpty.string_of_uint d) = true.
Proof. induction d; simpl; auto. Qed.

Lemma showN_avoids_dash n : avoids "-" (showN n) = true.
Proof.
  unfold showN, NilZero.string_of_uint.
  destruct (N.to_uint n); try reflexivity; apply (digits_avoid_dash (_ _)).
Qed.

(** [newId.split('-')[1]] is the clock reading. *)
Lemma newId_suffix clk : at_ (split "-" (App.newId clk)) 1 = showN (App.now clk).
Proof.
  unfold App.newId, split.
  change ("it-" ++ showN (App.now clk) ++ "-" ++ showN (App.random1000 clk))
    with ("it" ++ String "-" (showN (App.now clk)
                               ++ String "-" (showN (App.random1000 clk)))).
  rewrite splitGo_piece by reflexivity.
  rewrite splitGo_piece by apply showN_avoids_dash.
  reflexivity.
Qed.

End Strings.

(** ** The item list under the approval updater *)

Section Items.
Import App Ledger.

Lemma find_hasId k l x : find (hasId k) l = Some x -> In x l /\ i_id x = k.
Proof.
  intros H. apply find_some in H. destruct H as [Hin Hk].
  split; [assumption|]. apply String.eqb_eq. exact Hk.
Qed.

Lemma find_map_hasId (f : Item -> Item) k l :
  (forall i, i_id (f i) = i_id i) ->
  find (hasId k) (map f l) = option_map f (find (hasId k) l).
Proof.
  intros Hf. induction l as [|i l IH]; simpl; auto.
  unfold hasId at 1 3. rewrite Hf. destruct (String.eqb (i_id i) k); auto.
Qed.

Lemma find_map_matches (f : Item -> Item) target src l :
  (forall i, matchesTarget target src (f i) = matchesTarget target src i) ->
  find (matchesTarget target src) (map f l)
  = option_map f (find (matchesTarget target src) l).
Proof.
  intros Hf. induction l as [|i l IH]; simpl; auto.
  rewrite Hf. destruct (matchesTarget target src i); auto.
Qed.

Lemma ids_decrementSource clk tx l : map i_id (decrementSource clk tx l) = map i_id l.
Proof.
  unfold decrementSource. rewrite map_map. apply map_ext.
  intros i. destruct (hasId (t_itemId tx) i); reflexivity.
Qed.

Lemma ids_mergeInto clk tx e l : map i_id (mergeInto clk tx e l) = map i_id l.
Proof.
  unfold mergeInto. rewrite map_map. apply map_ext.
  intros i. destruct (hasId (i_id e) i); reflexivity.
Qed.

(** With unique ids, the item found under an id is the only one that
    carries it. *)
Lemma unique_item l x y :
  NoDup (map i_id l) -> In x l -> In y l -> i_id x = i_id y -> x = y.
Proof.
  induction l as [|i l IH]; simpl; intros Hnd Hx Hy E; [contradiction|].
  inversion Hnd as [|? ? Hni Hnd']; subst.
  destruct Hx as [->|Hx], Hy as [->|Hy]; auto.
  - exfalso. apply Hni. rewrite E. apply in_map. assumption.
  - exfalso. apply Hni. rewrite <- E. apply in_map. assumption.
Qed.

Lemma find_decrementSource clk tx l src :
  find (hasId (t_itemId tx)) l = Some src ->
  find (hasId (t_itemId tx)) (decrementSource clk tx l)
  = Some (withQuantity (i_quantity src - t_quantity tx) (isoNow clk) src).
Proof.
  intros H. unfold decrementSource. rewrite find_map_hasId.
  - rewrite H. simpl. apply find_some in H. destruct H as [_ ->]. reflexivity.
  - intros i. destruct (hasId (t_itemId tx) i); reflexivity.
Qed.

Lemma matches_decrementSource clk tx target src l :
  find (matchesTarget target src) (decrementSource clk tx l)
  = option_map (fun i => if hasId (t_itemId tx) i
                         then withQuantity (i_quantity i - t_quantity tx) (isoNow clk) i
                         else i)
               (find (matchesTarget target src) l).
Proof.
  unfold decrementSource. apply find_map_matches.
  intros i. destruct (hasId (t_itemId tx) i); reflexivity.
Qed.

(** What the updater computes, by the type of the transaction and the
    presence of a matching item. *)
Lemma approveItems_other clk ws cs tx src l :
  t_type tx <> TRANSFER ->
  approveItems clk ws cs tx src l = decrementSource clk tx l.
Proof. unfold approveItems. destruct (t_type tx); congruence. Qed.

Lemma approveItems_transfer clk ws cs tx src target l :
  t_type tx = TRANSFER -> t_targetWarehouseId tx = Some target -> target <> "" ->
  approveItems clk ws cs tx src l
  = match find (matchesTarget target src) l with
    | Some e => mergeInto clk tx e (decrementSource clk tx l)
    | None => (decrementSource clk tx l ++ [newItem clk ws cs tx src target])%list
    end.
Proof.
  intros Hty Htg Hne. unfold approveItems. rewrite Hty, Htg.
  apply String.eqb_neq in Hne. rewrite Hne.
  rewrite matches_decrementSource.
  destruct (find (matchesTarget target src) l) as [e|]; simpl; [|reflexivity].
  unfold mergeInto. destruct (hasId (t_itemId tx) e); reflexivity.
Qed.

(** An id that is on file stays on file. *)
Lemma approveItems_keeps clk ws cs tx src l k x :
  find (hasId k) l = Some x ->
  exists y, find (hasId k) (approveItems clk ws cs tx src l) = Some y.
Proof.
  intros H.
  assert (Hd : exists y, find (hasId k) (decrementSource clk tx l) = Some y).
  { unfold decrementSource. rewrite find_map_hasId, H; simpl; eauto.
    intros i. destruct (hasId (t_itemId tx) i); reflexivity. }
  destruct Hd as [y Hy]. unfold approveItems.
  destruct (t_type tx); eauto.
  destruct (t_targetWarehouseId tx) as [target|]; eauto.
  destruct (String.eqb target ""); eauto.
  destruct (find (matchesTarget target src) (decrementSource clk tx l)) as [e|].
  - unfold mergeInto. rewrite find_map_hasId, Hy; simpl; eauto.
    intros i. destruct (hasId (i_id e) i); reflexivity.
  - clear H. induction (decrementSource clk tx l) as [|i l' IH]; simpl in *; [discriminate|].
    destruct (hasId k i); eauto.
Qed.

Lemma find_app_some {A : Type} (p : A -> bool) l l' x :
  find p l = Some x -> find p (l ++ l') = Some x.
Proof.
  induction l as [|a l IH]; simpl; [discriminate|]. destruct (p a); auto.
Qed.

Lemma matchesTarget_warehouse target src e :
  matchesTarget target src e = true ->
  i_warehouseId e = target /\ i_categoryId e = i_categoryId src /\ i_name e = i_name src.
Proof.
  unfold matchesTarget. rewrite !andb_true_iff, !String.eqb_eq. tauto.
Qed.

(** The source item after the updater, when it is not itself the item
    the transfer merges into. *)
Lemma approveItems_source clk ws cs tx src l :
  NoDup (map i_id l) ->
  find (hasId (t_itemId tx)) l = Some src ->
  t_targetWarehouseId tx <> Some (i_warehouseId src) ->
  find (hasId (t_itemId tx)) (approveItems clk ws cs tx src l)
  = Some (withQuantity (i_quantity src - t_quantity tx) (isoNow clk) src).
Proof.
  intros Hnd Hsrc Hwh.
  pose proof (find_decrementSource clk tx l src Hsrc) as Hd.
  unfold approveItems. destruct (t_type tx); auto.
  destruct (t_targetWarehouseId tx) as [target|]; auto.
  destruct (String.eqb target ""); auto.
  destruct (find (matchesTarget target src) (decrementSource clk tx l)) as [e|] eqn:He.
  - unfold mergeInto. rewrite find_map_hasId, Hd.
    + simpl. f_equal. unfold hasId at 1. simpl.
      destruct (String.eqb_spec (i_id src) (i_id e)) as [E|]; [exfalso|reflexivity].
      apply find_some in He. destruct He as [Hine Hm].
      apply matchesTarget_warehouse in Hm. destruct Hm as [Hw _].
      apply find_some in Hd. destruct Hd as [Hind _].
      rewrite <- (ids_decrementSource clk tx) in Hnd.
      assert (e = withQuantity (i_quantity src - t_quantity tx) (isoNow clk) src)
        by (apply (unique_item _ _ _ Hnd); auto).
      subst e. simpl in Hw. congruence.
    + intros i. destruct (hasId (i_id e) i); reflexivity.
  - apply find_app_some. assumption.
Qed.

(** Quantities stay non-negative when the source item has enough
    stock. *)
Lemma approveItems_nonneg clk ws cs tx src l :
  NoDup (map i_id l) ->
  find (hasId (t_itemId tx)) l = Some src ->
  0 <= t_quantity tx <= i_quantity src ->
  (forall i, In i l -> 0 <= i_quantity i) ->
  forall i, In i (approveItems clk ws cs tx src l) -> 0 <= i_quantity i.
Proof.
  intros Hnd Hsrc Hq Hall.
  destruct (find_hasId _ _ _ Hsrc) as [Hin Hid].
  assert (Hdec : forall i, In i (decrementSource clk tx l) -> 0 <= i_quantity i).
  { intros i Hi. apply in_map_iff in Hi. destruct Hi as (j & <- & Hj).
    destruct (hasId (t_itemId tx) j) eqn:E; [|auto].
    apply String.eqb_eq in E.
    assert (j = src) by (apply (unique_item l); auto; congruence).
    subst j. simpl. lia. }
  unfold approveItems. destruct (t_type tx); auto.
  destruct (t_targetWarehouseId tx) as [target|]; auto.
  destruct (String.eqb target ""); auto.
  destruct (find (matchesTarget target src) (decrementSource clk tx l)) as [e|].
  - intros i Hi. apply in_map_iff in Hi. destruct Hi as (j & <- & Hj).
    specialize (Hdec j Hj). destruct (hasId (i_id e) j); simpl; lia.
  - intros i Hi. apply in_app_or in Hi. destruct Hi as [Hi|[<-|[]]]; auto.
    simpl. lia.
Qed.

End Items.

(** ** Approval and rejection *)

Section Decisions.
Import Db Queue App Ledger.

Lemma setTransactions_same st : setTransactions (fun _ => transactions st) st = st.
Proof. destruct st; reflexivity. Qed.

Lemma mapEffect_skip {A S : Type} (f : A -> S -> A * S) l s :
  (forall x, In x l -> forall s', f x s' = (x, s')) -> mapEffect f l s = (l, s).
Proof.
  induction l as [|x l IH]; intros H; simpl; auto.
  rewrite (H x) by (left; reflexivity). rewrite IH; auto.
  intros y Hy. apply H. right; assumption.
Qed.

(** Only one element is processed: the others are passed on. *)
Lemma mapEffect_single {A S : Type} (f : A -> S -> A * S) pre x post s :
  (forall y, In y (pre ++ post) -> forall s', f y s' = (y, s')) ->
  mapEffect f (pre ++ x :: post) s = ((pre ++ fst (f x s) :: post)%list, snd (f x s)).
Proof.
  intros H. induction pre as [|y pre IH]; simpl.
  - destruct (f x s) as [x' s1]. rewrite mapEffect_skip; auto.
  - rewrite (H y) by (left; reflexivity). rewrite IH; auto.
    intros z Hz. apply H. right; assumption.
Qed.

(** With unique ids, a transaction on file splits the list in two
    parts that do not carry its id. *)
Lemma unique_split (l : list Transaction) tx :
  NoDup (map t_id l) -> In tx l ->
  exists pre post, l = (pre ++ tx :: post)%list
    /\ forall t, In t (pre ++ post) -> txHasId (t_id tx) t = false.
Proof.
  intros Hnd Hin. destruct (in_split _ _ Hin) as (pre & post & ->).
  exists pre, post. split; [reflexivity|].
  intros t Ht. unfold txHasId. apply String.eqb_neq. intros E.
  rewrite map_app in Hnd. simpl in Hnd. apply NoDup_remove_2 in Hnd.
  apply Hnd. rewrite <- E, <- map_app. apply in_map. assumption.
Qed.

Lemma map_single (f : Transaction -> Transaction) txId pre tx post :
  txHasId txId tx = true ->
  (forall t, In t (pre ++ post) -> txHasId txId t = false) ->
  map (fun t => if txHasId txId t then f t else t) (pre ++ tx :: post)
  = (pre ++ f tx :: post)%list.
Proof.
  intros Hx H. rewrite map_app. simpl. rewrite Hx. f_equal; [|f_equal].
  - rewrite <- (map_id pre) at 2. apply map_ext_in.
    intros t Ht. rewrite H; auto. apply in_or_app; auto.
  - rewrite <- (map_id post) at 2. apply map_ext_in.
    intros t Ht. rewrite H; auto. apply in_or_app; auto.
Qed.

(** [approve] on a state where no transaction carries the id, or where
    the transactions that do have no source item, changes nothing. *)
Lemma approve_skip clk txId st :
  (forall t, In t (transactions st) -> txHasId txId t = true ->
             hasSource (items st) t = false) ->
  approve clk txId st = st.
Proof.
  intros H. unfold approve, handleApproveTransaction.
  rewrite mapEffect_skip; [apply setTransactions_same|].
  intros t Ht s'. unfold approveCallback. specialize (H t Ht).
  unfold txHasId, hasSource in H. destruct (String.eqb (t_id t) txId); simpl; auto.
  destruct (find (hasId (t_itemId t)) (items st)); auto.
  specialize (H eq_refl). discriminate.
Qed.

(** [approve] on the one transaction that carries the id, when its
    source item exists. *)
Lemma approve_unique clk txId st tx src :
  NoDup (map t_id (transactions st)) -> In tx (transactions st) -> t_id tx = txId ->
  find (hasId (t_itemId tx)) (items st) = Some src ->
  transactions (approve clk txId st)
  = map (fun t => if txHasId txId t then approved t else t) (transactions st)
  /\ items (approve clk txId st)
     = approveItems clk (warehouses st) (categories st) tx src (items st)
  /\ idb (approve clk txId st)
     = snd (enqueueSyncAction (mkNew "APPROVE" (PApprove txId) (isoNow clk)) (idb st))
  /\ warehouses (approve clk txId st) = warehouses st
  /\ categories (approve clk txId st) = categories st.
Proof.
  intros Hnd Hin Hid Hsrc. destruct (unique_split _ _ Hnd Hin) as (pre & post & Hl & Hno).
  rewrite Hid in Hno.
  assert (Hx : txHasId txId tx = true) by (unfold txHasId; rewrite Hid; apply String.eqb_refl).
  assert (E : approve clk txId st
              = setTransactions
                  (fun _ => map (fun t => if txHasId txId t then approved t else t)
                                (transactions st))
                  (snd (approveCallback clk (items st) (warehouses st) (categories st)
                                        txId tx st))).
  { unfold approve, handleApproveTransaction. rewrite Hl.
    rewrite mapEffect_single.
    - rewrite (map_single approved) by assumption.
      unfold approveCallback. unfold txHasId in Hx. rewrite Hx, Hsrc. reflexivity.
    - intros t Ht s'. unfold approveCallback. specialize (Hno t Ht).
      unfold txHasId in Hno. rewrite Hno. reflexivity. }
  rewrite E. unfold approveCallback. unfold txHasId in Hx. rewrite Hx, Hsrc.
  destruct st; simpl. repeat split.
Qed.

Lemma reject_unique clk txId reason st tx :
  NoDup (map t_id (transactions st)) -> In tx (transactions st) -> t_id tx = txId ->
  transactions (reject clk txId reason st)
  = map (fun t => if txHasId txId t then rejected reason t else t) (transactions st)
  /\ items (reject clk txId reason st) = items st
  /\ idb (reject clk txId reason st)
     = snd (enqueueSyncAction (mkNew "REJECT" (PReject txId reason) (isoNow clk)) (idb st)).
Proof.
  intros Hnd Hin Hid. destruct (unique_split _ _ Hnd Hin) as (pre & post & Hl & Hno).
  rewrite Hid in Hno.
  assert (Hx : txHasId txId tx = true) by (unfold txHasId; rewrite Hid; apply String.eqb_refl).
  assert (E : reject clk txId reason st
              = setTransactions
                  (fun _ => map (fun t => if txHasId txId t then rejected reason t else t)
                                (transactions st))
                  (snd (rejectCallback clk (items st) txId reason tx st))).
  { unfold reject, handleRejectTransaction. rewrite Hl.
    rewrite mapEffect_single.
    - rewrite (map_single (rejected reason)) by assumption.
      unfold rejectCallback. unfold txHasId in Hx. rewrite Hx. reflexivity.
    - intros t Ht s'. unfold rejectCallback. specialize (Hno t Ht).
      unfold txHasId in Hno. rewrite Hno. reflexivity. }
  rewrite E. unfold rejectCallback. unfold txHasId in Hx. rewrite Hx.
  destruct st; simpl. repeat split.
Qed.

Lemma ids_marked (f : Transaction -> Transaction) txId l :
  (forall t, t_id (f t) = t_id t) ->
  map t_id (map (fun t => if txHasId txId t then f t else t) l) = map t_id l.
Proof.
  intros Hf. rewrite map_map. apply map_ext.
  intros t. destruct (txHasId txId t); auto.
Qed.

Lemma in_marked (f : Transaction -> Transaction) l tx :
  In tx l -> In (f tx) (map (fun t => if txHasId (t_id tx) t then f t else t) l).
Proof.
  intros H. apply in_map_iff. exists tx. split; [|assumption].
  unfold txHasId. rewrite String.eqb_refl. reflexivity.
Qed.

(** C7, as the code has it.  [handleRejectTransaction] does not test
    the reason: for every reason, the empty one included, and a
    transaction on file (ids unique, the store taking the write), the
    transaction becomes REJECTED with exactly that reason, no item
    changes, and a REJECT action carrying the transaction id and the
    reason is appended to the queue.  Only the dialog of the dashboard
    refuses an empty reason, changing nothing, and hands any other
    reason on to the handler as it is. *)
Theorem reject_takes_any_reason (clk : Clock) (txId reason : string) (st : State)
  (tx : Transaction) (d : Dashboard.Dialog) :
  NoDup (map t_id (transactions st)) -> In tx (transactions st) -> t_id tx = txId ->
  wellFormed (idb st) = true -> nextOk (idb st) = true ->
  let st' := reject clk txId reason st in
  (transactions st'
   = map (fun t => if txHasId txId t then rejected reason t else t) (transactions st)
   /\ In (rejected reason tx) (transactions st')
   /\ t_status (rejected reason tx) = REJECTED
   /\ t_rejectionReason (rejected reason tx) = Some reason
   /\ items st' = items st
   /\ syncQueue (idb st')
      = (syncQueue (idb st)
         ++ [stored (keyGen (idb st))
               (mkNew "REJECT" (PReject txId reason) (isoNow clk))])%list)
  /\ (Dashboard.finalReason d = "" -> rejectFromDashboard clk d st = (d, st))
  /\ (Dashboard.rejectingTx d = Some tx -> Dashboard.finalReason d <> "" ->
      snd (rejectFromDashboard clk d st) = reject clk txId (Dashboard.finalReason d) st).
Proof.
  intros Hnd Hin Hid Hwf Hok st'. split; [|split].
  - destruct (reject_unique clk txId reason st tx Hnd Hin Hid) as (Ht & Hi & Hq).
    unfold st'. rewrite Ht, Hi, Hq, enqueue_next, Hok by assumption.
    repeat split. rewrite <- Hid. apply in_marked. assumption.
  - intros E. unfold rejectFromDashboard, Dashboard.handleFinalReject.
    destruct (Dashboard.rejectingTx d); [|reflexivity].
    rewrite E. reflexivity.
  - intros Hd Hr. unfold rejectFromDashboard, Dashboard.handleFinalReject. rewrite Hd.
    apply String.eqb_neq in Hr. rewrite Hr, Hid. reflexivity.
Qed.

Lemma reject_takes_any_reason_witness :
  let tx := Sample.request STOCK_OUT "TX-7" None 4 in
  let st := Sample.withTransactions [tx] emptyDB in
  In (rejected "" tx) (transactions (reject Sample.clk "TX-7" "" st))
  /\ t_rejectionReason (rejected "" tx) = Some ""
  /\ items (reject Sample.clk "TX-7" "" st) = items st.
Proof.
  cbv zeta.
  pose proof (reject_takes_any_reason Sample.clk "TX-7" ""
                (Sample.withTransactions [Sample.request STOCK_OUT "TX-7" None 4] emptyDB)
                (Sample.request STOCK_OUT "TX-7" None 4)
                (Dashboard.mkDialog None "" "")) as H.
  destruct H as ((_ & Hin & _ & Hr & Hi & _) & _).
  - repeat constructor. intros [].
  - left. reflexivity.
  - reflexivity.
  - reflexivity.
  - reflexivity.
  - split; [exact Hin|]. split; [exact Hr | exact Hi].
Defined.

(** C7 as stated fails: [reject] with an empty reason is not refused;
    the transaction becomes REJECTED with the empty reason and a REJECT
    action is queued. *)
Lemma reject_accepts_empty_reason :
  let tx := Sample.request STOCK_OUT "TX-7" None 4 in
  let st := Sample.withTransactions [tx] emptyDB in
  let st' := reject Sample.clk "TX-7" "" st in
  map t_status (transactions st') = [REJECTED]
  /\ map t_rejectionReason (transactions st') = [Some ""]
  /\ map payload (syncQueue (idb st')) = [PReject "TX-7" ""]
  /\ st' <> st.
Proof.
  cbv zeta. repeat split; try reflexivity.
  intros E. apply (f_equal (fun s => map t_status (transactions s))) in E.
  vm_compute in E. discriminate.
Qed.

Lemma unique_tx l t tx :
  NoDup (map t_id l) -> In t l -> In tx l -> t_id t = t_id tx -> t = tx.
Proof.
  induction l as [|a l IH]; simpl; intros Hnd Ht Hx E; [contradiction|].
  inversion Hnd as [|? ? Hni Hnd']; subst.
  destruct Ht as [->|Ht], Hx as [->|Hx]; auto.
  - exfalso. apply Hni. rewrite E. apply in_map. assumption.
  - exfalso. apply Hni. rewrite <- E. apply in_map. assumption.
Qed.

(** A second approval leaves the transactions as the first one left
    them. *)
Lemma approve_twice_transactions clk clk' txId st :
  NoDup (map t_id (transactions st)) ->
  transactions (approve clk' txId (approve clk txId st))
  = transactions (approve clk txId st).
Proof.
  intros Hnd.
  destruct (find (txHasId txId) (transactions st)) as [tx|] eqn:Hf.
  - apply find_some in Hf. destruct Hf as [Hin Hid].
    apply String.eqb_eq in Hid.
    destruct (find (hasId (t_itemId tx)) (items st)) as [src|] eqn:Hs.
    + destruct (approve_unique clk txId st tx src Hnd Hin Hid Hs) as (Ht & Hi & _).
      assert (Hnd1 : NoDup (map t_id (transactions (approve clk txId st))))
        by (rewrite Ht, ids_marked; auto).
      assert (Hin1 : In (approved tx) (transactions (approve clk txId st)))
        by (rewrite Ht, <- Hid; apply in_marked; assumption).
      destruct (approveItems_keeps clk (warehouses st) (categories st) tx src _ _ _ Hs)
        as [y Hy].
      rewrite <- Hi in Hy.
      destruct (approve_unique clk' txId _ (approved tx) y Hnd1 Hin1 Hid Hy) as (Ht2 & _).
      rewrite Ht2, Ht, map_map. apply map_ext. intros t.
      destruct (txHasId txId t) eqn:E; [|rewrite E; reflexivity].
      unfold txHasId in *. simpl. rewrite E. reflexivity.
    + assert (E : approve clk txId st = st).
      { apply approve_skip. intros t Ht Hid'. unfold txHasId in Hid'.
        apply String.eqb_eq in Hid'.
        assert (t = tx) by (apply (unique_tx (transactions st)); auto; congruence).
        subst t. unfold hasSource. rewrite Hs. reflexivity. }
      rewrite E. rewrite approve_skip; [reflexivity|].
      intros t Ht Hid'. unfold txHasId in Hid'. apply String.eqb_eq in Hid'.
      assert (t = tx) by (apply (unique_tx (transactions st)); auto; congruence).
      subst t. unfold hasSource. rewrite Hs. reflexivity.
  - assert (E : forall c, approve c txId st = st).
    { intros c. apply approve_skip. intros t Ht Hid'.
      rewrite (find_none _ _ Hf t Ht) in Hid'. discriminate. }
    rewrite !E. reflexivity.
Qed.

(** C2, as the code has it. Approving an id that no transaction carries
    changes nothing.  The handlers do not look at the status: a
    transaction on file whose source item exists is set to APPROVED by
    [approve] and to REJECTED by [reject] whatever its status was, and
    each approval subtracts the quantity from the source item again.  So
    approving twice leaves the same transactions as approving once, but
    not the same item quantities. *)
Theorem approve_ignores_status (clk clk' : Clock) (txId : string) (st : State) :
  ((forall t, In t (transactions st) -> t_id t <> txId) -> approve clk txId st = st)
  /\ (NoDup (map t_id (transactions st)) ->
      transactions (approve clk' txId (approve clk txId st))
      = transactions (approve clk txId st))
  /\ (forall tx src reason,
        NoDup (map t_id (transactions st)) -> In tx (transactions st) ->
        t_id tx = txId -> find (hasId (t_itemId tx)) (items st) = Some src ->
        In (approved tx) (transactions (approve clk txId st))
        /\ In (rejected reason tx) (transactions (reject clk txId reason st))
        /\ (t_type tx <> TRANSFER ->
            items (approve clk txId st) = decrementSource clk tx (items st)
            /\ items (approve clk' txId (approve clk txId st))
               = decrementSource clk' tx (decrementSource clk tx (items st)))).
Proof.
  split; [|split].
  - intros H. apply approve_skip. intros t Ht Hid. unfold txHasId in Hid.
    apply String.eqb_eq in Hid. destruct (H t Ht Hid).
  - apply approve_twice_transactions.
  - intros tx src reason Hnd Hin Hid Hs.
    destruct (approve_unique clk txId st tx src Hnd Hin Hid Hs) as (Ht & Hi & _ & Hw & Hc).
    destruct (reject_unique clk txId reason st tx Hnd Hin Hid) as (Hr & _).
    split; [|split].
    + rewrite Ht, <- Hid. apply in_marked. assumption.
    + rewrite Hr, <- Hid. apply in_marked. assumption.
    + intros Hty.
      assert (Hi1 : items (approve clk txId st) = decrementSource clk tx (items st))
        by (rewrite Hi; apply approveItems_other; assumption).
      split; [assumption|].
      assert (Hnd1 : NoDup (map t_id (transactions (approve clk txId st))))
        by (rewrite Ht, ids_marked; auto).
      assert (Hin1 : In (approved tx) (transactions (approve clk txId st)))
        by (rewrite Ht, <- Hid; apply in_marked; assumption).
      pose proof (find_decrementSource clk tx _ _ Hs) as Hy. rewrite <- Hi1 in Hy.
      destruct (approve_unique clk' txId _ (approved tx) _ Hnd1 Hin1 Hid Hy) as (_ & Hi2 & _).
      rewrite Hi2, approveItems_other by assumption. rewrite Hi1. reflexivity.
Qed.

Lemma approve_ignores_status_witness :
  let tx := Sample.request STOCK_OUT "TX-7" None 3 in
  let st := Sample.withTransactions [tx] emptyDB in
  approve Sample.clk "TX-0" st = st
  /\ transactions (approve Sample.clk' "TX-7" (approve Sample.clk "TX-7" st))
     = transactions (approve Sample.clk "TX-7" st)
  /\ In (approved tx) (transactions (approve Sample.clk "TX-7" st))
  /\ map i_quantity (decrementSource Sample.clk' tx
                        (decrementSource Sample.clk tx (items st))) = [4].
Proof.
  cbv zeta.
  pose proof (approve_ignores_status Sample.clk Sample.clk' "TX-0"
                (Sample.withTransactions [Sample.request STOCK_OUT "TX-7" None 3] emptyDB))
    as (Habsent & _).
  pose proof (approve_ignores_status Sample.clk Sample.clk' "TX-7"
                (Sample.withTransactions [Sample.request STOCK_OUT "TX-7" None 3] emptyDB))
    as (_ & Htwice & Hblind).
  assert (Hnd : NoDup (map t_id [Sample.request STOCK_OUT "TX-7" None 3]))
    by (repeat constructor; intros []).
  split; [|split; [|split]].
  - apply Habsent. intros t [<-|[]]. discriminate.
  - apply Htwice. exact Hnd.
  - apply (Hblind _ Sample.widget "Other" Hnd); [left|..]; reflexivity.
  - reflexivity.
Defined.

(** C2 as stated fails: a second approval of an APPROVED stock-out takes
    the quantity off again, and a rejection overwrites the APPROVED
    status. *)
Lemma second_approval_decrements_again :
  let tx := Sample.request STOCK_OUT "TX-7" None 3 in
  let st := Sample.withTransactions [tx] emptyDB in
  let once := approve Sample.clk "TX-7" st in
  let twice := approve Sample.clk' "TX-7" once in
  map t_status (transactions once) = [APPROVED]
  /\ map i_quantity (items once) = [7]
  /\ map i_quantity (items twice) = [4]
  /\ map t_status (transactions (reject Sample.clk' "TX-7" "Other" once)) = [REJECTED]
  /\ twice <> once.
Proof.
  cbv zeta. repeat split; try reflexivity.
  intros E. apply (f_equal (fun s => map i_quantity (items s))) in E.
  vm_compute in E. discriminate.
Qed.

(** C1, as the code has it. Approval makes no stock check: for a
    STOCK_OUT or TRANSFER transaction on file whose source item exists
    (ids unique, the target not being the warehouse of the source), the
    transaction becomes APPROVED and the source item loses the quantity
    of the transaction, also when that exceeds its stock.  Quantities
    stay non-negative across the approval when the quantity of the
    transaction lies between 0 and the stock of the source item. *)
Theorem approval_without_stock_check (clk : Clock) (txId : string) (st : State)
  (tx : Transaction) (src : Item) :
  NoDup (map t_id (transactions st)) -> NoDup (map i_id (items st)) ->
  In tx (transactions st) -> t_id tx = txId ->
  t_type tx = STOCK_OUT \/ t_type tx = TRANSFER ->
  find (hasId (t_itemId tx)) (items st) = Some src ->
  t_targetWarehouseId tx <> Some (i_warehouseId src) ->
  let st' := approve clk txId st in
  In (approved tx) (transactions st')
  /\ t_status (approved tx) = APPROVED
  /\ find (hasId (t_itemId tx)) (items st')
     = Some (withQuantity (i_quantity src - t_quantity tx) (isoNow clk) src)
  /\ (0 <= t_quantity tx <= i_quantity src ->
      (forall i, In i (items st) -> 0 <= i_quantity i) ->
      forall i, In i (items st') -> 0 <= i_quantity i).
Proof.
  intros Hnd Hni Hin Hid _ Hs Hwh st'.
  destruct (approve_unique clk txId st tx src Hnd Hin Hid Hs) as (Ht & Hi & _).
  unfold st'. rewrite Ht, Hi. repeat split.
  - rewrite <- Hid. apply in_marked. assumption.
  - apply approveItems_source; assumption.
  - intros Hq Hall. apply approveItems_nonneg; assumption.
Qed.

Lemma approval_without_stock_check_witness :
  let tx := Sample.request STOCK_OUT "TX-7" None 15 in
  let st := Sample.withTransactions [tx] emptyDB in
  In (approved tx) (transactions (approve Sample.clk "TX-7" st))
  /\ find (hasId "it-1") (items (approve Sample.clk "TX-7" st))
     = Some (withQuantity (10 - 15) (isoNow Sample.clk) Sample.widget).
Proof.
  cbv zeta.
  pose proof (approval_without_stock_check Sample.clk "TX-7"
                (Sample.withTransactions [Sample.request STOCK_OUT "TX-7" None 15] emptyDB)
                (Sample.request STOCK_OUT "TX-7" None 15) Sample.widget) as H.
  simpl in H.
  destruct H as (H1 & _ & H3 & _).
  - repeat constructor. intros [].
  - repeat constructor. intros [].
  - left. reflexivity.
  - reflexivity.
  - left. reflexivity.
  - reflexivity.
  - discriminate.
  - split; assumption.
Defined.

(** C1 as stated fails: a stock-out of 15 on an item with 10 in stock is
    approved and leaves the quantity at -5. *)
Lemma approval_drives_stock_negative :
  let tx := Sample.request STOCK_OUT "TX-7" None 15 in
  let st := Sample.withTransactions [tx] emptyDB in
  let st' := approve Sample.clk "TX-7" st in
  map i_quantity (items st) = [10]
  /\ map i_quantity (items st') = [-5]
  /\ map t_status (transactions st') = [APPROVED]
  /\ ~ (items st' = items st /\ transactions st' = transactions st).
Proof.
  cbv zeta. repeat split; try reflexivity.
  intros [_ E]. vm_compute in E. discriminate.
Qed.

End Decisions.

(** ** Approval of a transfer *)

Section Transfer.
Import Db Queue App Ledger.

Lemma totalStock_app n c l l' :
  totalStock n c (l ++ l') = totalStock n c l + totalStock n c l'.
Proof.
  induction l as [|i l IH]; simpl; [reflexivity|].
  destruct (sameProduct n c i); lia.
Qed.

Lemma map_no_id (f : Item -> Item) k l :
  ~ In k (map i_id l) -> map (fun i => if hasId k i then f i else i) l = l.
Proof.
  induction l as [|i l IH]; simpl; intros H; [reflexivity|].
  unfold hasId at 1. destruct (String.eqb_spec (i_id i) k) as [E|_].
  - exfalso. apply H. left. assumption.
  - f_equal. apply IH. intros Hin. apply H. right. assumption.
Qed.

(** Changing the quantity of the one item under an id moves the total
    of its product by the difference. *)
Lemma totalStock_adjust (adj : Z -> Z) stamp n c k l x :
  NoDup (map i_id l) -> find (hasId k) l = Some x ->
  totalStock n c (map (fun i => if hasId k i
                                then withQuantity (adj (i_quantity i)) stamp i
                                else i) l)
  = totalStock n c l
    + (if sameProduct n c x then adj (i_quantity x) - i_quantity x else 0).
Proof.
  induction l as [|i l IH]; simpl; intros Hnd Hf; [discriminate|].
  inversion Hnd as [|? ? Hni Hnd']; subst.
  destruct (hasId k i) eqn:E.
  - inversion Hf; subst x. apply String.eqb_eq in E. subst k.
    rewrite map_no_id by assumption.
    change (sameProduct n c (withQuantity (adj (i_quantity i)) stamp i))
      with (sameProduct n c i).
    destruct (sameProduct n c i); simpl; lia.
  - rewrite (IH Hnd' Hf). destruct (sameProduct n c i); lia.
Qed.

Lemma find_unique_item l x :
  NoDup (map i_id l) -> In x l -> find (hasId (i_id x)) l = Some x.
Proof.
  intros Hnd Hin. destruct (find (hasId (i_id x)) l) as [y|] eqn:E.
  - destruct (find_hasId _ _ _ E) as [Hy Hid].
    f_equal. apply (unique_item l); auto.
  - exfalso. pose proof (find_none _ _ E x Hin) as H.
    unfold hasId in H. rewrite String.eqb_refl in H. discriminate.
Qed.

Lemma matches_sameProduct target src e :
  matchesTarget target src e = true ->
  sameProduct (i_name src) (i_categoryId src) e = true.
Proof.
  intros H. apply matchesTarget_warehouse in H. destruct H as (_ & Hc & Hn).
  unfold sameProduct. rewrite Hc, Hn, !String.eqb_refl. reflexivity.
Qed.

Lemma sameProduct_self src : sameProduct (i_name src) (i_categoryId src) src = true.
Proof. unfold sameProduct. rewrite !String.eqb_refl. reflexivity. Qed.

(** The updater of a transfer moves stock, it does not make or lose
    any. *)
Lemma approveItems_conserves clk ws cs tx src target l :
  NoDup (map i_id l) ->
  t_type tx = TRANSFER -> t_targetWarehouseId tx = Some target -> target <> "" ->
  find (hasId (t_itemId tx)) l = Some src ->
  totalStock (i_name src) (i_categoryId src) (approveItems clk ws cs tx src l)
  = totalStock (i_name src) (i_categoryId src) l.
Proof.
  intros Hnd Hty Htg Hne Hsrc.
  rewrite (approveItems_transfer clk ws cs tx src target) by assumption.
  assert (Hdec : totalStock (i_name src) (i_categoryId src) (decrementSource clk tx l)
                 = totalStock (i_name src) (i_categoryId src) l - t_quantity tx).
  { unfold decrementSource.
    rewrite (totalStock_adjust (fun q => q - t_quantity tx) (isoNow clk) _ _ _ l src)
      by assumption.
    rewrite sameProduct_self. lia. }
  destruct (find (matchesTarget target src) l) as [e|] eqn:He.
  - apply find_some in He. destruct He as [Hin Hm].
    pose proof (find_unique_item l e Hnd Hin) as Hfe.
    assert (Hfd : find (hasId (i_id e)) (decrementSource clk tx l)
                  = Some (if hasId (t_itemId tx) e
                          then withQuantity (i_quantity e - t_quantity tx) (isoNow clk) e
                          else e)).
    { unfold decrementSource. rewrite find_map_hasId, Hfe; [reflexivity|].
      intros i. destruct (hasId (t_itemId tx) i); reflexivity. }
    unfold mergeInto.
    rewrite (totalStock_adjust (fun q => q + t_quantity tx) (isoNow clk) _ _ _ _ _
               ltac:(rewrite ids_decrementSource; exact Hnd) Hfd).
    rewrite Hdec.
    assert (Hp : sameProduct (i_name src) (i_categoryId src)
                   (if hasId (t_itemId tx) e
                    then withQuantity (i_quantity e - t_quantity tx) (isoNow clk) e
                    else e) = true).
    { destruct (hasId (t_itemId tx) e); apply (matches_sameProduct target); exact Hm. }
    rewrite Hp. lia.
  - rewrite totalStock_app, Hdec. simpl.
    change (sameProduct (i_name src) (i_categoryId src)
              (newItem clk ws cs tx src target))
      with (sameProduct (i_name src) (i_categoryId src) src).
    rewrite sameProduct_self. lia.
Qed.

(** C10, as the code has it.  For the approval of a TRANSFER
    transaction on file whose source item exists, transaction and item
    ids being unique: when the transaction names a target warehouse
    (not the empty string), the total quantity of the items with the
    name and category of the source item is the same before and after;
    when it names none, or the empty string, the approval only takes
    the quantity of the transaction off the source item, and that total
    goes down by it. *)
Theorem transfer_conserves_stock_with_target (clk : Clock) (txId : string) (st : State)
  (tx : Transaction) (src : Item) :
  NoDup (map t_id (transactions st)) -> NoDup (map i_id (items st)) ->
  In tx (transactions st) -> t_id tx = txId -> t_type tx = TRANSFER ->
  find (hasId (t_itemId tx)) (items st) = Some src ->
  let total := totalStock (i_name src) (i_categoryId src) in
  (forall target,
     t_targetWarehouseId tx = Some target -> target <> "" ->
     total (items (approve clk txId st)) = total (items st))
  /\ (t_targetWarehouseId tx = None \/ t_targetWarehouseId tx = Some "" ->
      items (approve clk txId st) = decrementSource clk tx (items st)
      /\ total (items (approve clk txId st)) = total (items st) - t_quantity tx).
Proof.
  intros Hnd Hni Hin Hid Hty Hs total.
  destruct (approve_unique clk txId st tx src Hnd Hin Hid Hs) as (_ & Hi & _).
  rewrite Hi. split.
  - intros target Htg Hne.
    apply (approveItems_conserves clk _ _ tx src target); assumption.
  - intros Htg.
    assert (E : approveItems clk (warehouses st) (categories st) tx src (items st)
                = decrementSource clk tx (items st)).
    { unfold approveItems. rewrite Hty. destruct Htg as [-> | ->]; reflexivity. }
    rewrite E. split; [reflexivity|]. unfold total, decrementSource.
    rewrite (totalStock_adjust (fun q => q - t_quantity tx) (isoNow clk) _ _
               (t_itemId tx) (items st) src Hni Hs).
    rewrite sameProduct_self. lia.
Qed.

Lemma transfer_conserves_stock_with_target_witness :
  let tx := Sample.request TRANSFER "TR-9" (Some "wh-2") 4 in
  let st := Sample.withTransactions [tx] emptyDB in
  map i_quantity (items (approve Sample.clk "TR-9" st)) = [6; 4]
  /\ totalStock "Widget" "cat-1" (items (approve Sample.clk "TR-9" st))
     = totalStock "Widget" "cat-1" (items st).
Proof.
  cbv zeta. split; [reflexivity|].
  pose proof (transfer_conserves_stock_with_target Sample.clk "TR-9"
                (Sample.withTransactions
                   [Sample.request TRANSFER "TR-9" (Some "wh-2") 4] emptyDB)
                (Sample.request TRANSFER "TR-9" (Some "wh-2") 4) Sample.widget) as H.
  destruct H as [H _].
  - repeat constructor. intros [].
  - repeat constructor. intros [].
  - left. reflexivity.
  - reflexivity.
  - reflexivity.
  - reflexivity.
  - apply (H "wh-2"); [reflexivity | discriminate].
Defined.

(** C10 as stated fails: a TRANSFER transaction that names no target
    warehouse is approved with the source item on file, and the total
    stock of the product goes from 10 to 8. *)
Lemma targetless_transfer_loses_stock :
  let tx := Sample.request TRANSFER "TR-9" None 2 in
  let st := Sample.withTransactions [tx] emptyDB in
  let st' := approve Sample.clk "TR-9" st in
  find (hasId (t_itemId tx)) (items st) = Some Sample.widget
  /\ map t_status (transactions st') = [APPROVED]
  /\ map i_quantity (items st') = [8]
  /\ totalStock "Widget" "cat-1" (items st) = 10
  /\ totalStock "Widget" "cat-1" (items st') = 8
  /\ totalStock "Widget" "cat-1" (items st') <> totalStock "Widget" "cat-1" (items st).
Proof.
  cbv zeta. repeat split; try reflexivity. vm_compute. discriminate.
Qed.

Lemma find_app_none {A : Type} (p : A -> bool) l l' :
  find p l = None -> find p (l ++ l') = find p l'.
Proof.
  induction l as [|a l IH]; simpl; [reflexivity|]. destruct (p a); [discriminate|auto].
Qed.

Lemma find_ext {A : Type} (p q : A -> bool) l :
  (forall x, p x = q x) -> find p l = find q l.
Proof.
  intros H. induction l as [|a l IH]; simpl; [reflexivity|].
  rewrite H, IH. reflexivity.
Qed.

(** The predicate of the search reads the source item only for its
    category and name. *)
Lemma matchesTarget_ext target src y i :
  i_name y = i_name src -> i_categoryId y = i_categoryId src ->
  matchesTarget target y i = matchesTarget target src i.
Proof. intros Hn Hc. unfold matchesTarget. rewrite Hn, Hc. reflexivity. Qed.

Lemma matches_clone clk ws cs tx src target :
  matchesTarget target src (newItem clk ws cs tx src target) = true.
Proof. unfold matchesTarget. simpl. rewrite !String.eqb_refl. reflexivity. Qed.

(** After a merge the first matching item holds what it held, plus the
    quantity of the transaction unless it is the source item itself. *)
Lemma merge_quantity clk tx src target l e :
  find (matchesTarget target src) l = Some e ->
  option_map i_quantity
    (find (matchesTarget target src) (mergeInto clk tx e (decrementSource clk tx l)))
  = Some (if hasId (t_itemId tx) e then i_quantity e
          else i_quantity e + t_quantity tx).
Proof.
  intros He. unfold mergeInto. rewrite find_map_matches.
  - rewrite matches_decrementSource, He. simpl. f_equal.
    destruct (hasId (t_itemId tx) e) eqn:E; unfold hasId at 1; simpl;
      rewrite String.eqb_refl; simpl; lia.
  - intros i. destruct (hasId (i_id e) i); reflexivity.
Qed.

(** The item found under the id of the source keeps its name and its
    category through the updater. *)
Lemma approveItems_keeps_product clk ws cs tx src l k x :
  find (hasId k) l = Some x ->
  exists y, find (hasId k) (approveItems clk ws cs tx src l) = Some y
            /\ i_name y = i_name x /\ i_categoryId y = i_categoryId x.
Proof.
  intros H.
  assert (Hd : exists y, find (hasId k) (decrementSource clk tx l) = Some y
                         /\ i_name y = i_name x /\ i_categoryId y = i_categoryId x).
  { unfold decrementSource. rewrite find_map_hasId, H; simpl.
    - eexists. split; [reflexivity|]. destruct (hasId (t_itemId tx) x); auto.
    - intros i. destruct (hasId (t_itemId tx) i); reflexivity. }
  destruct Hd as (y & Hy & Hn & Hc). unfold approveItems.
  destruct (t_type tx); eauto.
  destruct (t_targetWarehouseId tx) as [target|]; eauto.
  destruct (String.eqb target ""); eauto.
  destruct (find (matchesTarget target src) (decrementSource clk tx l)) as [e|].
  - unfold mergeInto. rewrite find_map_hasId, Hy; simpl.
    + eexists. split; [reflexivity|]. destruct (hasId (i_id e) y); auto.
    + intros i. destruct (hasId (i_id e) i); reflexivity.
  - exists y. split; auto. apply find_app_some. assumption.
Qed.

(** After the approval of a transfer the target warehouse holds a
    matching item. *)
Lemma approveItems_leaves_match clk ws cs tx src target l :
  t_type tx = TRANSFER -> t_targetWarehouseId tx = Some target -> target <> "" ->
  find (matchesTarget target src) (approveItems clk ws cs tx src l) <> None.
Proof.
  intros Hty Htg Hne. rewrite (approveItems_transfer clk ws cs tx src target) by assumption.
  destruct (find (matchesTarget target src) l) as [e|] eqn:He.
  - pose proof (merge_quantity clk tx src target l e He) as H.
    destruct (find _ (mergeInto _ _ _ _)); [discriminate | discriminate H].
  - rewrite find_app_none.
    + simpl. rewrite matches_clone. discriminate.
    + rewrite matches_decrementSource, He. reflexivity.
Qed.

(** C6, as the code has it.  Approving a TRANSFER transaction on file
    (transaction ids unique) whose source item exists:
    - with no target warehouse, or the empty string, nothing is merged
      or created, the source item only loses the quantity;
    - with a target, when an item matches it (target warehouse, category
      and name of the source), no item is created, and the first such
      item ends with its quantity plus that of the transaction, or
      with its quantity unchanged when it is the source item itself
      (the target being the warehouse of the source);
    - otherwise one item is appended, a copy of the source (name,
      category, status, cost fields) with the target warehouse, the
      quantity of the transaction, the id [it-{Date.now()}-{random}],
      which is generated and compared with no existing id, and the
      barcode made of the prefix of the target warehouse, or "WH" when
      that warehouse is not on file or has an empty prefix, of the code
      of the category of the source, or "GEN" likewise, and of the
      clock reading.
    With a target a matching item exists afterwards, so that the
    approval of a second transfer of the same item to the same target
    adds to it and appends nothing. *)
Theorem transfer_merges_or_appends (clk : Clock) (st : State) (tx : Transaction)
  (src : Item) :
  NoDup (map t_id (transactions st)) ->
  In tx (transactions st) ->
  t_type tx = TRANSFER ->
  find (hasId (t_itemId tx)) (items st) = Some src ->
  let st1 := approve clk (t_id tx) st in
  (t_targetWarehouseId tx = None \/ t_targetWarehouseId tx = Some "" ->
   items st1 = decrementSource clk tx (items st))
  /\ forall target,
       t_targetWarehouseId tx = Some target -> target <> "" ->
       match find (matchesTarget target src) (items st) with
       | Some e =>
           items st1 = mergeInto clk tx e (decrementSource clk tx (items st))
           /\ map i_id (items st1) = map i_id (items st)
           /\ option_map i_quantity (find (matchesTarget target src) (items st1))
              = Some (if hasId (t_itemId tx) e then i_quantity e
                      else i_quantity e + t_quantity tx)
       | None =>
           let new := newItem clk (warehouses st) (categories st) tx src target in
           let prefix :=
             match find (fun x => String.eqb (w_id x) target) (warehouses st) with
             | Some w => if String.eqb (w_prefix w) "" then "WH" else w_prefix w
             | None => "WH"
             end in
           let code :=
             match find (fun x => String.eqb (c_id x) (i_categoryId src))
                        (categories st) with
             | Some c => if String.eqb (c_code c) "" then "GEN" else c_code c
             | None => "GEN"
             end in
           items st1 = (decrementSource clk tx (items st) ++ [new])%list
           /\ i_id new = "it-" ++ Js.showN (now clk) ++ "-" ++ Js.showN (random1000 clk)
           /\ i_warehouseId new = target
           /\ i_quantity new = t_quantity tx
           /\ (i_name new, i_categoryId new, i_status new)
              = (i_name src, i_categoryId src, i_status src)
           /\ (i_baseCost new, i_freight new, i_duties new, i_taxes new,
               i_trueUnitCost new)
              = (i_baseCost src, i_freight src, i_duties src, i_taxes src,
                 i_trueUnitCost src)
           /\ i_barcode new = prefix ++ "-" ++ code ++ "-" ++ Js.showN (now clk)
       end
       /\ find (matchesTarget target src) (items st1) <> None
       /\ forall (clk2 : Clock) (tx2 : Transaction),
            In tx2 (transactions st) -> t_id tx2 <> t_id tx ->
            t_type tx2 = TRANSFER -> t_itemId tx2 = t_itemId tx ->
            t_targetWarehouseId tx2 = Some target ->
            let st2 := approve clk2 (t_id tx2) st1 in
            map i_id (items st2) = map i_id (items st1)
            /\ option_map i_quantity (find (matchesTarget target src) (items st2))
               = option_map (fun e1 => if hasId (t_itemId tx) e1 then i_quantity e1
                                       else i_quantity e1 + t_quantity tx2)
                            (find (matchesTarget target src) (items st1)).
Proof.
  intros Hnd Hin Hty Hs st1.
  destruct (approve_unique clk (t_id tx) st tx src Hnd Hin eq_refl Hs)
    as (Ht & Hi & _ & Hws & Hcs).
  fold st1 in Ht, Hi, Hws, Hcs.
  split.
  { intros Htg. rewrite Hi. unfold approveItems. rewrite Hty.
    destruct Htg as [-> | ->]; reflexivity. }
  intros target Htg Hne.
  pose proof (approveItems_transfer clk (warehouses st) (categories st) tx src target
                (items st) Hty Htg Hne) as Hcase.
  pose proof (approveItems_leaves_match clk (warehouses st) (categories st) tx src target
                (items st) Hty Htg Hne) as Hex.
  rewrite <- Hi in Hex.
  split; [|split; [exact Hex|]].
  - rewrite Hi, Hcase.
    destruct (find (matchesTarget target src) (items st)) as [e|] eqn:He.
    + split; [reflexivity|]. split.
      * rewrite ids_mergeInto, ids_decrementSource. reflexivity.
      * apply merge_quantity. assumption.
    + cbv zeta. split; [reflexivity|]. repeat split.
      unfold newItem. cbn [i_barcode]. unfold newBarcode.
      rewrite newId_suffix. unfold Js.optOrElse, Js.orElse.
      destruct (find (fun x => String.eqb (w_id x) target) (warehouses st));
        destruct (find (fun x => String.eqb (c_id x) (i_categoryId src)) (categories st));
        reflexivity.
  - intros clk2 tx2 Hin2 Hid2 Hty2 Hit2 Htg2 st2.
    assert (Hnd1 : NoDup (map t_id (transactions st1))) by (rewrite Ht, ids_marked; auto).
    assert (Hin1 : In tx2 (transactions st1)).
    { rewrite Ht. apply in_map_iff. exists tx2. split; [|assumption].
      unfold txHasId. apply String.eqb_neq in Hid2. rewrite Hid2. reflexivity. }
    destruct (approveItems_keeps_product clk (warehouses st) (categories st) tx src
                (items st) _ _ Hs) as (y & Hy & Hyn & Hyc).
    rewrite <- Hi, <- Hit2 in Hy.
    destruct (approve_unique clk2 (t_id tx2) st1 tx2 y Hnd1 Hin1 eq_refl Hy)
      as (_ & Hi2 & _).
    fold st2 in Hi2.
    rewrite (approveItems_transfer clk2 _ _ tx2 y target (items st1) Hty2 Htg2 Hne) in Hi2.
    assert (Hext : forall l, find (matchesTarget target y) l
                             = find (matchesTarget target src) l)
      by (intros l; apply find_ext; intros i; apply matchesTarget_ext; assumption).
    rewrite Hext in Hi2.
    destruct (find (matchesTarget target src) (items st1)) as [e1|] eqn:He1;
      [|congruence].
    rewrite Hi2. split.
    + rewrite ids_mergeInto, ids_decrementSource. reflexivity.
    + rewrite <- Hext. rewrite <- Hext in He1.
      rewrite (merge_quantity clk2 tx2 y target (items st1) e1 He1).
      simpl. rewrite Hit2. reflexivity.
Qed.

Lemma transfer_merges_or_appends_witness :
  let tx := Sample.request TRANSFER "TR-9" (Some "wh-2") 10 in
  let tx2 := Sample.request TRANSFER "TR-10" (Some "wh-2") 5 in
  let widget25 := withQuantity 25 "2025-12-01T00:00:00.000Z" Sample.widget in
  let st := mkState [Sample.manila; Sample.cebu] [widget25] [Sample.widgets]
                    [tx; tx2] [] None None emptyDB in
  let st1 := approve Sample.clk "TR-9" st in
  let st2 := approve Sample.clk' "TR-10" st1 in
  map i_quantity (items st1) = [15; 10]
  /\ map i_barcode (items st1) = ["MNL-WID-1"; "CEB-WID-1700000000000"]
  /\ map i_id (items st2) = map i_id (items st1)
  /\ option_map i_quantity (find (matchesTarget "wh-2" widget25) (items st2)) = Some 15.
Proof.
  cbv zeta.
  pose proof (transfer_merges_or_appends Sample.clk
    (mkState [Sample.manila; Sample.cebu]
             [withQuantity 25 "2025-12-01T00:00:00.000Z" Sample.widget] [Sample.widgets]
             [Sample.request TRANSFER "TR-9" (Some "wh-2") 10;
              Sample.request TRANSFER "TR-10" (Some "wh-2") 5] [] None None emptyDB)
    (Sample.request TRANSFER "TR-9" (Some "wh-2") 10)
    (withQuantity 25 "2025-12-01T00:00:00.000Z" Sample.widget)) as H.
  destruct H as (_ & H).
  - repeat constructor; simpl; [intros [E|[]]; discriminate E | intros []].
  - left. reflexivity.
  - reflexivity.
  - reflexivity.
  - destruct (H "wh-2") as (_ & _ & Hsecond); [reflexivity | discriminate |].
    destruct (Hsecond Sample.clk' (Sample.request TRANSFER "TR-10" (Some "wh-2") 5))
      as (Hids & Hq).
    + right. left. reflexivity.
    + discriminate.
    + reflexivity.
    + reflexivity.
    + reflexivity.
    + split; [reflexivity|]. split; [reflexivity|]. split; [exact Hids|].
      etransitivity; [exact Hq | reflexivity].
Defined.

(** C6 as stated fails: the id of the new item is not fresh when an
    item already has the generated id, and the barcode starts with "WH"
    when the target warehouse is not on file. *)
Lemma new_item_id_may_collide :
  let other := mkItem "it-1700000000000-42" "Gear" "wh-1" "cat-1" 3 50 1 1 1 53 RAW
                      "MNL-WID-2" "2025-12-01T00:00:00.000Z" in
  let tx := Sample.request TRANSFER "TR-9" (Some "wh-9") 4 in
  let st := mkState [Sample.manila; Sample.cebu] [Sample.widget; other] [Sample.widgets]
                    [tx] [] None None emptyDB in
  let st' := approve Sample.clk "TR-9" st in
  NoDup (map i_id (items st))
  /\ find (matchesTarget "wh-9" Sample.widget) (items st) = None
  /\ map i_id (items st') = ["it-1"; "it-1700000000000-42"; "it-1700000000000-42"]
  /\ ~ NoDup (map i_id (items st'))
  /\ map i_barcode (items st') = ["MNL-WID-1"; "MNL-WID-2"; "WH-WID-1700000000000"].
Proof.
  cbv zeta. split; [|split; [|split; [|split]]]; try reflexivity.
  - repeat constructor; simpl; [intros [E|[]]; discriminate E | intros []].
  - intros H. vm_compute in H. inversion H as [|? ? _ H2]. inversion H2 as [|? ? Hni _].
    apply Hni. left. reflexivity.
Qed.

End Transfer.

(** ** The queue and the sync cycle when requests fail *)

Section Failures.
Import Db Queue Hook Session.

Lemma keysWithin_in lo hi l a :
  keysWithin lo hi l = true -> In a l ->
  exists k, id a = Some k /\ (lo <= k)%N /\ (k < hi)%N.
Proof.
  revert lo. induction l as [|b l IH]; intros lo H Hin; simpl in *; [contradiction|].
  destruct (id b) as [kb|] eqn:Hb; [|discriminate]. unbool.
  destruct Hin as [->|Hin].
  - exists kb. auto.
  - destruct (IH _ H0 Hin) as (k & Hk & Hlo & Hhi). exists k. repeat split; auto; lia.
Qed.

Lemma keysWithin_NoDup lo hi l : keysWithin lo hi l = true -> NoDup (map id l).
Proof.
  revert lo. induction l as [|b l IH]; intros lo H; simpl in *; [constructor|].
  destruct (id b) as [kb|] eqn:Hb; [|discriminate]. unbool.
  constructor; [|eapply IH; eassumption].
  intros Hin. apply in_map_iff in Hin. destruct Hin as (a & Ha & Hin).
  destruct (keysWithin_in _ _ _ _ H0 Hin) as (k & Hk & Hlo & _).
  rewrite Hk in Ha. inversion Ha; subst. lia.
Qed.

(** One mark, whatever the outcome of its requests: the store keeps its
    key generator and its records, the one under [k] being rewritten
    exactly when the mark resolves. *)
Lemma mark_any (g : SyncAction -> SyncAction) d k :
  (forall x, id (g x) = id x) -> wellFormed d = true ->
  exists r o',
    (a <- dbGet k ;; match a with Some a => dbPut (g a) | None => ret tt end) d
    = (r, mkIDB (match r with
                 | Resolved _ => map (fun x => if hasKey k x then g x else x) (syncQueue d)
                 | Rejected => syncQueue d
                 end) (keyGen d) o').
Proof.
  intros Hg Hwf. unfold dbGet, dbPut, bind, request. unfold wellFormed in Hwf.
  destruct d as [q kg o]; simpl in *.
  destruct o as [|[|] o]; simpl.
  - destruct (find (hasKey k) q) as [a|] eqn:Hf; simpl.
    + exists (Resolved tt), []. unfold storePut.
      destruct (find_key _ _ _ _ _ Hwf Hf) as (Ha & _ & Hlt).
      rewrite Hg, Ha. simpl.
      rewrite (upsert_replace g 0%N kg) by assumption.
      f_equal. f_equal. lia.
    + exists (Resolved tt), []. unfold ret. rewrite map_absent by assumption. reflexivity.
  - destruct (find (hasKey k) q) as [a|] eqn:Hf; simpl.
    + destruct (find_key _ _ _ _ _ Hwf Hf) as (Ha & _ & Hlt).
      destruct o as [|[|] o]; simpl.
      * exists (Resolved tt), []. unfold storePut. rewrite Hg, Ha. simpl.
        rewrite (upsert_replace g 0%N kg) by assumption. f_equal. f_equal. lia.
      * exists (Resolved tt), o. unfold storePut. rewrite Hg, Ha. simpl.
        rewrite (upsert_replace g 0%N kg) by assumption. f_equal. f_equal. lia.
      * exists Rejected, o. reflexivity.
    + exists (Resolved tt), o. unfold ret. rewrite map_absent by assumption. reflexivity.
  - exists Rejected, o. reflexivity.
Qed.

Lemma wellFormed_marked (g : SyncAction -> SyncAction) k q kg o o' :
  (forall x, id (g x) = id x) ->
  wellFormed (mkIDB q kg o) = true ->
  wellFormed (mkIDB (map (fun x => if hasKey k x then g x else x) q) kg o') = true.
Proof.
  intros Hg H. unfold wellFormed in *; simpl in *.
  rewrite keysWithin_map; [assumption|]. intros x. destruct (hasKey k x); auto.
Qed.

Lemma markSynced_any d k :
  wellFormed d = true ->
  exists r o',
    markSyncActionSynced k d
    = (r, mkIDB (match r with
                 | Resolved _ =>
                     map (fun x => if hasKey k x then asSynced x else x) (syncQueue d)
                 | Rejected => syncQueue d
                 end) (keyGen d) o').
Proof. intros H. exact (mark_any asSynced d k (fun _ => eq_refl) H). Qed.

Lemma markFailed_any d k :
  wellFormed d = true ->
  exists r o',
    markSyncActionFailed k d
    = (r, mkIDB (match r with
                 | Resolved _ =>
                     map (fun x => if hasKey k x then asFailed x else x) (syncQueue d)
                 | Rejected => syncQueue d
                 end) (keyGen d) o').
Proof. intros H. exact (mark_any asFailed d k (fun _ => eq_refl) H). Qed.

Lemma described_marked (g : SyncAction -> SyncAction) k q :
  (forall x, described (g x) = described x) ->
  map described (map (fun x => if hasKey k x then g x else x) q) = map described q.
Proof.
  intros Hg. rewrite map_map. apply map_ext. intros x. destruct (hasKey k x); auto.
Qed.

(** One call on the queue, whatever the outcome of its requests, keeps
    the keys ascending below the generator, and adds at most the
    enqueued action, at the end. *)
Lemma runOp_any d op :
  wellFormed d = true ->
  wellFormed (runOp d op) = true
  /\ exists extra,
       map described (syncQueue (runOp d op))
       = (map described (syncQueue d) ++ extra)%list
       /\ (extra = [] \/ exists a, op = Enqueue a /\ extra = [a]).
Proof.
  intros Hwf. destruct op as [a|k|k]; simpl.
  - rewrite enqueue_next by assumption. destruct (nextOk d).
    + split.
      * unfold wellFormed in *; simpl.
        apply keysWithin_app; [reflexivity | lia | assumption].
      * exists [a]. simpl. rewrite map_app. simpl. rewrite described_stored.
        split; [reflexivity|]. right. exists a. auto.
    + split; [exact Hwf|]. exists []. rewrite app_nil_r. auto.
  - destruct (markSynced_any d k Hwf) as (r & o' & ->). simpl.
    destruct d as [q kg o]. destruct r; simpl.
    + split; [apply (wellFormed_marked asSynced k q kg o); auto|].
      exists []. rewrite app_nil_r, described_marked; auto.
    + split; [exact Hwf|]. exists []. rewrite app_nil_r. auto.
  - destruct (markFailed_any d k Hwf) as (r & o' & ->). simpl.
    destruct d as [q kg o]. destruct r; simpl.
    + split; [apply (wellFormed_marked asFailed k q kg o); auto|].
      exists []. rewrite app_nil_r, described_marked; auto.
    + split; [exact Hwf|]. exists []. rewrite app_nil_r. auto.
Qed.

(** The actions of [l] in their order, some left out. *)
Lemma history_any schedule ops :
  wellFormed (history schedule ops) = true
  /\ (List.length (syncQueue (history schedule ops)) <= List.length (enqueuedBy ops))%nat
  /\ forall a, In a (syncQueue (history schedule ops)) ->
                In (described a) (enqueuedBy ops).
Proof.
  unfold history.
  assert (G : forall d, wellFormed d = true ->
            wellFormed (fold_left runOp ops d) = true
            /\ (List.length (syncQueue (fold_left runOp ops d))
                <= List.length (syncQueue d) + List.length (enqueuedBy ops))%nat
            /\ forall a, In a (syncQueue (fold_left runOp ops d)) ->
                  In (described a) (map described (syncQueue d) ++ enqueuedBy ops)).
  { induction ops as [|op ops IH]; intros d Hwf; simpl.
    - split; [assumption|]. split; [lia|]. intros a Ha. rewrite app_nil_r.
      apply in_map. assumption.
    - destruct (runOp_any d op Hwf) as (Hwf' & extra & Hd & Hex).
      destruct (IH _ Hwf') as (H1 & H2 & H3). split; [assumption|].
      assert (Hlen : List.length (syncQueue (runOp d op))
                     = (List.length (syncQueue d) + List.length extra)%nat).
      { rewrite <- (length_map described), Hd, length_app, length_map. reflexivity. }
      split.
      + assert (List.length (enqueuedBy ops) <= List.length (enqueuedBy (op :: ops)))%nat
          by (destruct op; simpl; lia).
        destruct Hex as [->|(a & -> & ->)]; simpl in *; lia.
      + intros a Ha. specialize (H3 a Ha). rewrite Hd, <- app_assoc in H3.
        destruct Hex as [->|(a0 & -> & ->)]; simpl in *; [|assumption].
        destruct op; simpl; auto.
        apply in_app_or in H3. apply in_or_app. destruct H3; auto. right. right. auto. }
  destruct (G (mkIDB [] 1 schedule) eq_refl) as (H1 & H2 & H3).
  split; [assumption|]. split; [simpl in H2; lia|]. exact H3.
Qed.

(** X1. Whatever requests fail along a history of enqueue and mark
    calls, the stored actions carry distinct keys below the key
    generator, and only actions that were enqueued are stored. *)
Theorem queue_keeps_distinct_keys (schedule : list bool) (ops : list Op) :
  let d := history schedule ops in
  NoDup (map id (syncQueue d))
  /\ (forall a, In a (syncQueue d) -> exists k, id a = Some k /\ (k < keyGen d)%N)
  /\ (List.length (syncQueue d) <= List.length (enqueuedBy ops))%nat
  /\ (forall a, In a (syncQueue d) -> In (described a) (enqueuedBy ops)).
Proof.
  intros d. destruct (history_any schedule ops) as (Hwf & Hlen & Hin). fold d in Hwf, Hlen, Hin.
  unfold wellFormed in Hwf. split; [|split; [|split]]; auto.
  - eapply keysWithin_NoDup; eassumption.
  - intros a Ha. destruct (keysWithin_in _ _ _ _ Hwf Ha) as (k & Hk & _ & Hlt). eauto.
Qed.

Lemma keptBy_refl l : Forall2 keptBy l l.
Proof. induction l; constructor; auto. repeat split; auto. Qed.

Lemma keptBy_ids l l' : Forall2 keptBy l l' -> map id l' = map id l.
Proof. induction 1 as [|a a' l l' (Hi & _) _ IH]; simpl; congruence. Qed.

Lemma keptBy_described l l' : Forall2 keptBy l l' -> map described l' = map described l.
Proof. induction 1 as [|a a' l l' (_ & Hd & _) _ IH]; simpl; congruence. Qed.

(** Marking a drained batch, whatever the outcome of the requests:
    the records stay in place, related to what they were by a relation
    [R] that the rewriting [g] of a PENDING record respects; [post] is
    the queue as drained, [post'] as it is now. *)
Lemma forEachId_any (R : SyncAction -> SyncAction -> Prop)
  (g : SyncAction -> SyncAction) (mark : N -> Async unit) hi :
  (forall x, id (g x) = id x) ->
  (forall a a', R a a' -> id a' = id a) ->
  (forall a a', R a a' -> isPending a = false -> a' = a) ->
  (forall a a', R a a' -> isPending a = true -> R a (g a')) ->
  (forall d k, wellFormed d = true ->
     exists r o', mark k d
       = (r, mkIDB (match r with
                    | Resolved _ =>
                        map (fun x => if hasKey k x then g x else x) (syncQueue d)
                    | Rejected => syncQueue d
                    end) (keyGen d) o')) ->
  forall post post', Forall2 R post post' ->
  forall pre o, keysWithin 0 hi (pre ++ post') = true ->
    exists r post'' o',
      forEachId mark (filter isPending post) (mkIDB (pre ++ post') hi o)
      = (r, mkIDB (pre ++ post'') hi o')
      /\ Forall2 R post post''
      /\ keysWithin 0 hi (pre ++ post'') = true.
Proof.
  intros Hg HRid HRnp HRg Hmark post post' HF.
  induction HF as [|a a' post post' Hk HF IH]; intros pre o Hwf; simpl.
  - exists (Resolved tt), [], o. repeat split; auto.
  - destruct (isPending a) eqn:Hp; simpl.
    + assert (Hin : In a' (pre ++ a' :: post')) by (apply in_or_app; right; left; auto).
      destruct (keysWithin_in _ _ _ _ Hwf Hin) as (k & Hka & _).
      rewrite <- (HRid _ _ Hk), Hka. unfold bind.
      destruct (Hmark (mkIDB (pre ++ a' :: post') hi o) k Hwf) as (r1 & o1 & E).
      rewrite E. simpl. destruct r1 as [[]|].
      * rewrite (map_at_key g 0%N hi) by assumption.
        assert (Hwf1 : keysWithin 0 hi ((pre ++ [g a']) ++ post') = true).
        { rewrite <- app_assoc. simpl.
          rewrite <- (map_at_key g 0%N hi pre a' post' k) by assumption.
          rewrite keysWithin_map; [assumption|].
          intros x. destruct (hasKey k x); auto. }
        destruct (IH (pre ++ [g a'])%list o1 Hwf1) as (r & post'' & o' & E2 & HF2 & Hwf2).
        rewrite <- !app_assoc in E2. rewrite <- app_assoc in Hwf2. simpl in E2, Hwf2.
        exists r, (g a' :: post''), o'. split; [exact E2|]. split; [|exact Hwf2].
        constructor; auto.
      * exists Rejected, (a' :: post'), o1. split; [reflexivity|]. split; [|assumption].
        constructor; auto.
    + assert (Hwf1 : keysWithin 0 hi ((pre ++ [a']) ++ post') = true)
        by (rewrite <- app_assoc; exact Hwf).
      destruct (IH (pre ++ [a'])%list o Hwf1) as (r & post'' & o' & E2 & HF2 & Hwf2).
      rewrite <- !app_assoc in E2. rewrite <- app_assoc in Hwf2. simpl in E2, Hwf2.
      exists r, (a' :: post''), o'. split; [exact E2|]. split; [|exact Hwf2].
      constructor; auto.
Qed.

(** The same, on a database, for the relation [keptBy]. *)
Lemma forEachId_db (g : SyncAction -> SyncAction) (mark : N -> Async unit) q0 d :
  (forall x, id (g x) = id x) ->
  (forall x, described (g x) = described x) ->
  (forall d k, wellFormed d = true ->
     exists r o', mark k d
       = (r, mkIDB (match r with
                    | Resolved _ =>
                        map (fun x => if hasKey k x then g x else x) (syncQueue d)
                    | Rejected => syncQueue d
                    end) (keyGen d) o')) ->
  Forall2 keptBy q0 (syncQueue d) -> wellFormed d = true ->
  let d' := snd (forEachId mark (filter isPending q0) d) in
  Forall2 keptBy q0 (syncQueue d') /\ wellFormed d' = true /\ keyGen d' = keyGen d.
Proof.
  intros Hg Hd Hmark HF Hwf. destruct d as [q kg o]. unfold wellFormed in *. simpl in *.
  destruct (forEachId_any keptBy g mark kg Hg) with (post := q0) (post' := q)
    (pre := @nil SyncAction) (o := o) as (r & q' & o' & E & HF' & Hwf'); auto.
  - intros a a' (Hi & _). exact Hi.
  - intros a a' (_ & _ & H). exact H.
  - intros a a' (Hi & Hdd & _) Hp. split; [rewrite Hg; assumption|].
    split; [rewrite Hd; assumption|]. intros C; congruence.
  - simpl in E. rewrite E. simpl. auto.
Qed.

Lemma getPending_any d :
  exists o',
    getPendingSyncActions d = (Rejected, mkIDB (syncQueue d) (keyGen d) o')
    \/ getPendingSyncActions d
       = (Resolved (pendingOf d), mkIDB (syncQueue d) (keyGen d) o').
Proof.
  unfold getPendingSyncActions, dbGetAll, bind, request.
  destruct d as [q kg o]; simpl. destruct o as [|[|] o]; simpl.
  - exists []. right. reflexivity.
  - exists o. right. reflexivity.
  - exists o. left. reflexivity.
Qed.

Lemma catchBlock_keeps q0 w :
  Forall2 keptBy q0 (syncQueue (db w)) -> wellFormed (db w) = true ->
  let w' := snd (catchBlock (filter isPending q0) w) in
  Forall2 keptBy q0 (syncQueue (db w')) /\ wellFormed (db w') = true
  /\ keyGen (db w') = keyGen (db w) /\ replayed w' = replayed w
  /\ isOnline w' = isOnline w /\ isSyncing w' = isSyncing w.
Proof.
  intros HF Hwf. unfold catchBlock.
  pose proof (forEachId_db asFailed markSyncActionFailed q0 (db w)
                (fun _ => eq_refl) (fun _ => eq_refl) markFailed_any HF Hwf)
    as (HF3 & Hwf3 & Hk3).
  destruct (forEachId markSyncActionFailed (filter isPending q0) (db w)) as [r3 d3].
  simpl in *. auto 10.
Qed.

Lemma tryBlock_keeps cb q0 w :
  Forall2 keptBy q0 (syncQueue (db w)) -> wellFormed (db w) = true ->
  let w' := snd (tryBlock cb (filter isPending q0) w) in
  Forall2 keptBy q0 (syncQueue (db w')) /\ wellFormed (db w') = true
  /\ keyGen (db w') = keyGen (db w)
  /\ replayed w' = (replayed w ++ [filter isPending q0])%list
  /\ isOnline w' = isOnline w /\ isSyncing w' = isSyncing w.
Proof.
  intros HF Hwf. unfold tryBlock.
  destruct (cb (filter isPending q0)); [|simpl; auto 10].
  pose proof (forEachId_db asSynced markSyncActionSynced q0 (db w)
                (fun _ => eq_refl) (fun _ => eq_refl) markSynced_any HF Hwf)
    as (HF3 & Hwf3 & Hk3).
  simpl db.
  destruct (forEachId markSyncActionSynced (filter isPending q0) (db w)) as [[[]|] d3];
    simpl in *; auto 10.
Qed.

(** X2. A sync cycle, whatever fails in it, keeps every record of the
    queue in place with its key and its action, touches only records
    that were PENDING, and leaves the key generator alone; the replay
    callback is called at most once, and only with the non-empty
    drained batch; [isOnline] is not touched and [isSyncing] is false
    again at the end. *)
Theorem sync_cycle_keeps_queue (onSync : option Callback) (w : World) :
  wellFormed (db w) = true ->
  let w' := snd (syncNow onSync w) in
  Forall2 keptBy (syncQueue (db w)) (syncQueue (db w'))
  /\ map id (syncQueue (db w')) = map id (syncQueue (db w))
  /\ map described (syncQueue (db w')) = map described (syncQueue (db w))
  /\ keyGen (db w') = keyGen (db w)
  /\ wellFormed (db w') = true
  /\ (replayed w' = replayed w
      \/ (pendingOf (db w) <> [] /\ replayed w' = (replayed w ++ [pendingOf (db w)])%list))
  /\ isOnline w' = isOnline w
  /\ (isSyncing w = false -> isSyncing w' = false).
Proof.
  intros Hwf w'.
  assert (G : Forall2 keptBy (syncQueue (db w)) (syncQueue (db w'))
              /\ keyGen (db w') = keyGen (db w)
              /\ wellFormed (db w') = true
              /\ (replayed w' = replayed w
                  \/ (pendingOf (db w) <> []
                      /\ replayed w' = (replayed w ++ [pendingOf (db w)])%list))
              /\ isOnline w' = isOnline w
              /\ (isSyncing w = false -> isSyncing w' = false)).
  { unfold w', syncNow.
    destruct (getPending_any (db w)) as (o1 & [E|E]); rewrite E; cbv beta iota zeta.
    - simpl. repeat split; auto using keptBy_refl.
    - set (w1 := setPendingCount _ (setDb _ w)).
      assert (H1 : Forall2 keptBy (syncQueue (db w)) (syncQueue (db w1))
                   /\ wellFormed (db w1) = true /\ keyGen (db w1) = keyGen (db w)
                   /\ replayed w1 = replayed w /\ isOnline w1 = isOnline w
                   /\ isSyncing w1 = isSyncing w)
        by (simpl; repeat split; auto using keptBy_refl).
      destruct H1 as (HF1 & Hwf1 & Hk1 & Hr1 & Ho1 & Hs1).
      destruct (pendingOf (db w)) as [|a l] eqn:Hp.
      + repeat split; auto.
      + destruct onSync as [cb|]; [|repeat split; auto].
        rewrite <- Hp. unfold pendingOf.
        set (w2 := setIsSyncing true w1).
        pose proof (tryBlock_keeps cb (syncQueue (db w)) w2 HF1 Hwf1)
          as (HF2 & Hwf2 & Hk2 & Hr2 & Ho2 & Hs2).
        assert (Hne : filter isPending (syncQueue (db w)) <> [])
          by (unfold pendingOf in Hp; rewrite Hp; discriminate).
        destruct (tryBlock cb (filter isPending (syncQueue (db w))) w2) as [[|] w3];
          simpl in HF2, Hwf2, Hk2, Hr2, Ho2, Hs2.
        * simpl. repeat split; auto; try congruence;
            (right; split; [assumption | simpl in Hr2; congruence]).
        * pose proof (catchBlock_keeps (syncQueue (db w)) w3 HF2 Hwf2)
            as (HF3 & Hwf3 & Hk3 & Hr3 & Ho3 & Hs3).
          destruct (catchBlock (filter isPending (syncQueue (db w))) w3) as [r4 w4];
            simpl in HF3, Hwf3, Hk3, Hr3, Ho3, Hs3.
          simpl. repeat split; auto; try congruence;
            (right; split; [assumption | simpl in Hr2; congruence]). }
  destruct G as (HF & Hk & Hwf' & Hr & Ho & Hs).
  repeat split; auto using keptBy_ids, keptBy_described.
Qed.

Lemma sync_cycle_keeps_queue_witness :
  let d := mkIDB (syncQueue (runOps [Enqueue Sample.actionA; Enqueue Sample.actionB]))
                 3 [true; true; true; false; true; false] in
  let w := mkWorld d true false 0 [] in
  let w' := snd (syncNow (Some (fun _ => true)) w) in
  wellFormed (db w) = true
  /\ map id (syncQueue (db w')) = map id (syncQueue (db w))
  /\ map status (syncQueue (db w')) = [SYNCED; PENDING]
  /\ isSyncing w' = false.
Proof.
  cbv zeta. split; [reflexivity|].
  pose proof (sync_cycle_keeps_queue (Some (fun _ => true))
    (mkWorld (mkIDB (syncQueue (runOps [Enqueue Sample.actionA; Enqueue Sample.actionB]))
                    3 [true; true; true; false; true; false]) true false 0 [])
    eq_refl) as (_ & Hids & _ & _ & _ & _ & _ & Hs).
  split; [exact Hids|]. split; [reflexivity|]. apply Hs. reflexivity.
Defined.

Lemma getPending_next d :
  nextOk d = true ->
  getPendingSyncActions d
  = (Resolved (pendingOf d), mkIDB (syncQueue d) (keyGen d) (tl (outcomes d))).
Proof.
  unfold getPendingSyncActions, dbGetAll, bind, request, nextOk.
  destruct d as [q kg o]; simpl. destruct o as [|[|] o]; simpl; try reflexivity.
  discriminate.
Qed.

(** After a marking that was cut short, records are as drained or
    already SYNCED; marking the batch FAILED, the requests succeeding,
    then ends with every drained record FAILED. *)
Lemma forEachId_failed_after hi post post' :
  Forall2 (fun a a' => a' = a \/ (isPending a = true /\ a' = asSynced a)) post post' ->
  forall pre, keysWithin 0 hi (pre ++ post') = true ->
    forEachId markSyncActionFailed (filter isPending post) (mkIDB (pre ++ post') hi [])
    = (Resolved tt,
       mkIDB (pre ++ map (fun a => if isPending a then asFailed a else a) post) hi []).
Proof.
  induction 1 as [|a a' post post' Hk HF IH]; intros pre Hwf; simpl; [reflexivity|].
  destruct (isPending a) eqn:Hp; simpl.
  - assert (Hin : In a' (pre ++ a' :: post')) by (apply in_or_app; right; left; auto).
    destruct (keysWithin_in _ _ _ _ Hwf Hin) as (k & Hka & _).
    assert (Hid : id a = Some k) by (destruct Hk as [->|[_ ->]]; exact Hka).
    assert (Hf : asFailed a' = asFailed a) by (destruct Hk as [->|[_ ->]]; reflexivity).
    rewrite Hid. unfold bind. rewrite markFailed_ok by (auto; exact Hwf). simpl.
    rewrite (map_at_key asFailed 0%N hi) by assumption. rewrite Hf.
    change (pre ++ asFailed a :: post')%list with (pre ++ [asFailed a] ++ post')%list.
    rewrite app_assoc, IH.
    + rewrite <- app_assoc. reflexivity.
    + rewrite <- app_assoc. simpl. rewrite <- Hf.
      rewrite <- (map_at_key asFailed 0%N hi pre a' post' k) by assumption.
      rewrite keysWithin_map; [assumption|]. intros x. destruct (hasKey k x); auto.
  - assert (a' = a) by (destruct Hk as [->|[C _]]; [reflexivity | congruence]). subst a'.
    change (pre ++ a :: post')%list with (pre ++ [a] ++ post')%list in *.
    rewrite app_assoc in *. rewrite IH by assumption.
    rewrite <- app_assoc. reflexivity.
Qed.

(** X3. When the replay callback succeeds but a request fails while the
    batch is being marked SYNCED, and the requests after that succeed,
    the cycle resolves with every action of the batch stored FAILED,
    [retries] one higher, also those already marked SYNCED; the pending
    count keeps the size of the batch. *)
Theorem failed_marking_fails_batch (cb : Callback) (w : World) :
  wellFormed (db w) = true ->
  nextOk (db w) = true ->
  pendingOf (db w) <> [] ->
  cb (pendingOf (db w)) = true ->
  fst (forEachId markSyncActionSynced (pendingOf (db w))
         (snd (getPendingSyncActions (db w)))) = Rejected ->
  outcomes (snd (forEachId markSyncActionSynced (pendingOf (db w))
                   (snd (getPendingSyncActions (db w))))) = [] ->
  syncNow (Some cb) w
  = (Resolved tt,
     mkWorld (mkIDB (map (fun a => if isPending a then asFailed a else a)
                         (syncQueue (db w)))
                    (keyGen (db w)) [])
             (isOnline w) false (List.length (pendingOf (db w)))
             (replayed w ++ [pendingOf (db w)])).
Proof.
  intros Hwf Hok Hne Hcb Hrej Hout. unfold syncNow.
  rewrite (getPending_next _ Hok) in *. simpl snd in Hrej, Hout.
  destruct (pendingOf (db w)) as [|a l] eqn:Hp; [congruence|]. rewrite <- Hp in *.
  clear Hne. cbv beta iota zeta.
  unfold tryBlock. unfold logReplay at 1. rewrite Hcb.
  destruct w as [[q kg o] on sy pc lg]. simpl in *. unfold pendingOf in *. simpl in *.
  unfold wellFormed in Hwf; simpl in Hwf.
  destruct (forEachId_any
              (fun a a' => a' = a \/ (isPending a = true /\ a' = asSynced a))
              asSynced markSyncActionSynced kg (fun _ => eq_refl))
    with (post := q) (post' := q) (pre := @nil SyncAction) (o := tl o)
    as (r & q2 & o2 & E & HF2 & Hwf2).
  - intros a0 a0' [->|[_ ->]]; reflexivity.
  - intros a0 a0' [->|[C _]] Hnp; [reflexivity | congruence].
  - intros a0 a0' [->|[_ ->]] Hpp; right; auto.
  - exact markSynced_any.
  - clear. induction q; constructor; auto.
  - exact Hwf.
  - simpl in E. rewrite E in *. simpl in Hrej, Hout. subst r o2. simpl.
    unfold catchBlock. simpl.
    pose proof (forEachId_failed_after kg q q2 HF2 [] Hwf2) as HX. simpl in HX.
    rewrite HX. reflexivity.
Qed.

Lemma failed_marking_fails_batch_witness :
  let d := mkIDB (syncQueue (runOps [Enqueue Sample.actionA; Enqueue Sample.actionB]))
                 3 [true; true; true; false] in
  let w := mkWorld d true false 0 [] in
  map status (syncQueue (db (snd (syncNow (Some (fun _ => true)) w)))) = [FAILED; FAILED]
  /\ map retries (syncQueue (db (snd (syncNow (Some (fun _ => true)) w)))) = [1%N; 1%N]
  /\ pendingCount (snd (syncNow (Some (fun _ => true)) w)) = 2%nat.
Proof.
  cbv zeta.
  assert (Hne : pendingOf (mkIDB (syncQueue (runOps [Enqueue Sample.actionA;
                                                       Enqueue Sample.actionB]))
                                 3 [true; true; true; false]) <> [])
    by discriminate.
  pose proof (failed_marking_fails_batch (fun _ => true)
    (mkWorld (mkIDB (syncQueue (runOps [Enqueue Sample.actionA; Enqueue Sample.actionB]))
                    3 [true; true; true; false]) true false 0 [])
    eq_refl eq_refl Hne eq_refl eq_refl eq_refl) as E.
  split; [|split].
  - exact (f_equal (fun r => map status (syncQueue (db (snd r)))) E).
  - exact (f_equal (fun r => map retries (syncQueue (db (snd r)))) E).
  - exact (f_equal (fun r => pendingCount (snd r)) E).
Defined.

End Failures.

(** ** Sessions: every action is replayed once *)

Section Sessions.
Import Db Queue Hook Session.

Lemma filter_none {A : Type} (p : A -> bool) l :
  Forall (fun a => p a = false) l -> filter p l = [].
Proof. induction 1 as [|a l Ha _ IH]; simpl; [reflexivity|]. rewrite Ha. exact IH. Qed.

Lemma filter_all {A : Type} (p : A -> bool) l :
  Forall (fun a => p a = true) l -> filter p l = l.
Proof. induction 1 as [|a l Ha _ IH]; simpl; [reflexivity|]. rewrite Ha, IH. reflexivity. Qed.

Lemma map_if_none {A : Type} (p : A -> bool) (g : A -> A) l :
  Forall (fun a => p a = false) l -> map (fun a => if p a then g a else a) l = l.
Proof. induction 1 as [|a l Ha _ IH]; simpl; [reflexivity|]. rewrite Ha, IH. reflexivity. Qed.

Lemma map_if_all {A : Type} (p : A -> bool) (g : A -> A) l :
  Forall (fun a => p a = true) l -> map (fun a => if p a then g a else a) l = map g l.
Proof. induction 1 as [|a l Ha _ IH]; simpl; [reflexivity|]. rewrite Ha, IH. reflexivity. Qed.

Lemma step_replayedOnce w enq e :
  replayedOnce w enq ->
  replayedOnce (step w e) (enq ++ match e with Enqueued a => [a] | _ => [] end).
Proof.
  intros (Hwf & Ho & done & pend & Hq & Hd & Hp & Hids & Hdes & Henq & Hne & Hpr).
  destruct e as [a|cb|]; simpl.
  - rewrite enqueue_ok by assumption. unfold replayedOnce. simpl.
    split; [|split; [reflexivity|]].
    + unfold wellFormed in *. simpl.
      apply keysWithin_app; [reflexivity | lia | assumption].
    + exists done, (pend ++ [stored (keyGen (db w)) a])%list.
      rewrite Hq, <- app_assoc. split; [reflexivity|]. split; [assumption|].
      split; [apply Forall_app; split; [assumption | repeat constructor]|].
      split; [assumption|]. split; [assumption|].
      split; [|split; assumption].
      rewrite app_assoc, map_app, Henq. simpl. rewrite described_stored. reflexivity.
  - unfold handleOnline.
    assert (Hpd : pendingOf (db (setIsOnline true w)) = pend).
    { unfold pendingOf. simpl. rewrite Hq, filter_app, filter_none, filter_all; auto. }
    rewrite app_nil_r.
    destruct pend as [|p0 pend'] eqn:Epend.
    + unfold syncNow. rewrite getPending_ok by exact Ho. rewrite Hpd. simpl.
      unfold replayedOnce. simpl. split; [assumption|]. split; [assumption|].
      exists done, []. auto 10.
    + rewrite <- Epend in *.
      assert (Hn : pendingOf (db (setIsOnline true w)) <> [])
        by (rewrite Hpd, Epend; discriminate).
      rewrite syncNow_batch by assumption. rewrite Hpd. simpl.
      set (g := fun a => if cb pend then asSynced a else asFailed a).
      assert (Hmap : map (fun a => if isPending a
                                   then (if cb pend then asSynced a else asFailed a)
                                   else a) (syncQueue (db w))
                     = (done ++ map g pend)%list).
      { rewrite Hq, map_app.
        rewrite (map_if_none isPending g) by assumption.
        rewrite (map_if_all isPending g) by assumption. reflexivity. }
      rewrite Hmap. unfold replayedOnce. simpl.
      split; [|split; [reflexivity|]].
      * unfold wellFormed in *. simpl. rewrite <- Hmap.
        rewrite keysWithin_map; [assumption|].
        intros x. destruct (isPending x); [destruct (cb pend)|]; reflexivity.
      * exists (done ++ map g pend)%list, []. rewrite app_nil_r.
        split; [reflexivity|].
        split; [apply Forall_app; split; [assumption|];
                apply Forall_forall; intros x Hx; apply in_map_iff in Hx;
                destruct Hx as (y & <- & _); unfold g; destruct (cb pend); reflexivity|].
        split; [constructor|].
        rewrite concat_app. simpl. rewrite app_nil_r, !map_app, Hids, Hdes, !map_map.
        split; [f_equal; apply map_ext; intros x; unfold g; destruct (cb pend); reflexivity|].
        split; [f_equal; apply map_ext; intros x; unfold g; destruct (cb pend); reflexivity|].
        split.
        { rewrite <- Henq, map_app. f_equal. symmetry. apply map_ext.
          intros x; unfold g; destruct (cb pend); reflexivity. }
        split.
        { intros Hin. apply in_app_or in Hin. destruct Hin as [Hin|[Hin|[]]]; auto.
          rewrite Epend in Hin. discriminate. }
        apply Forall_app. split; assumption.
  - rewrite app_nil_r. unfold replayedOnce, handleOffline. simpl.
    split; [assumption|]. split; [assumption|]. exists done, pend. auto 10.
Qed.

Lemma run_replayedOnce events : forall w enq,
  replayedOnce w enq ->
  replayedOnce (fold_left step events w) (enq ++ enqueuedIn events).
Proof.
  induction events as [|e events IH]; intros w enq H; simpl.
  - rewrite app_nil_r. assumption.
  - apply (step_replayedOnce w enq e) in H. apply IH in H.
    rewrite <- app_assoc in H. destruct e; exact H.
Qed.

Lemma replayed_tryBlock cb pending w :
  replayed (snd (tryBlock cb pending w)) = (replayed w ++ [pending])%list.
Proof.
  unfold tryBlock. destruct (cb pending); simpl; [|reflexivity].
  destruct (forEachId markSyncActionSynced pending (db w)) as [[|] d]; reflexivity.
Qed.

Lemma replayed_catchBlock pending w :
  replayed (snd (catchBlock pending w)) = replayed w.
Proof.
  unfold catchBlock.
  destruct (forEachId markSyncActionFailed pending (db w)) as [r d]; reflexivity.
Qed.

Lemma replayed_settle cb pending w :
  replayed (snd (Overlap.settle cb pending w)) = (replayed w ++ [pending])%list.
Proof.
  unfold Overlap.settle.
  pose proof (replayed_tryBlock cb pending (setIsSyncing true w)) as Ht.
  destruct (tryBlock cb pending (setIsSyncing true w)) as [[|] w2]; simpl in *.
  - exact Ht.
  - pose proof (replayed_catchBlock pending w2) as Hc.
    destruct (catchBlock pending w2) as [r w3]; simpl in *.
    rewrite Hc. exact Ht.
Qed.

Lemma drain_quiet w :
  outcomes (db w) = [] ->
  Overlap.drain w
  = (Resolved (pendingOf (db w)),
     mkWorld (db w) (isOnline w) (isSyncing w) (List.length (pendingOf (db w)))
             (replayed w)).
Proof.
  intros Ho. unfold Overlap.drain. rewrite getPending_ok by assumption. reflexivity.
Qed.

(** X4. [syncNow] is its read of the queue followed by the call of the
    callback and the marks.  Over any session of enqueues,
    reconnections and disconnections on a store whose requests succeed,
    in which the cycle of each reconnection ends before the next event:
    the batches handed to the replay callback, put end to end and
    followed by the actions still PENDING, are exactly the enqueued
    actions in the order they were enqueued; no action is handed over
    twice, the callback is never called with an empty batch, and it
    only sees PENDING actions.  Nothing in the hook keeps two cycles
    apart: when a second reconnection reads the queue before the first
    cycle has marked anything, both callbacks are called on the same
    batch. *)
Theorem replay_once_unless_cycles_overlap (online : bool) (events : list Event)
  (cb1 cb2 : Callback) (w0 : World) :
  let w := run online [] events in
  (forall cb v, syncNow (Some cb) v = Overlap.cycle cb v)
  /\ (map described (List.concat (replayed w)) ++ map described (pendingOf (db w)))%list
     = enqueuedIn events
  /\ NoDup (map id (List.concat (replayed w)))
  /\ ~ In [] (replayed w)
  /\ Forall (fun a => status a = PENDING) (List.concat (replayed w))
  /\ (outcomes (db w0) = [] -> pendingOf (db w0) <> [] ->
      replayed (Overlap.overlapped cb1 cb2 w0)
      = (replayed w0 ++ [pendingOf (db w0); pendingOf (db w0)])%list).
Proof.
  intros w. split.
  { intros cb v. unfold syncNow, Overlap.cycle, Overlap.drain, Overlap.settle.
    destruct (getPendingSyncActions (db v)) as [[pending|] d]; [|reflexivity].
    destruct pending; reflexivity. }
  assert (H0 : replayedOnce (mounted online []) []).
  { unfold replayedOnce, mounted. simpl. split; [reflexivity|]. split; [reflexivity|].
    exists [], []. simpl. auto 10. }
  apply (run_replayedOnce events) in H0. simpl in H0. fold (run online [] events) in H0.
  fold w in H0.
  destruct H0 as (Hwf & Ho & done & pend & Hq & Hd & Hp & Hids & Hdes & Henq & Hne & Hpr).
  split; [|split; [|split; [|split]]].
  - unfold pendingOf. rewrite Hq, filter_app, filter_none, filter_all by assumption.
    simpl. rewrite Hdes, <- map_app. exact Henq.
  - rewrite Hids. unfold wellFormed in Hwf. rewrite Hq in Hwf.
    apply keysWithin_NoDup in Hwf. rewrite map_app in Hwf.
    apply NoDup_app_remove_r in Hwf. exact Hwf.
  - exact Hne.
  - eapply Forall_impl; [|exact Hpr]. intros a Ha. unfold isPending in Ha.
    destruct (status a); simpl in Ha; congruence.
  - intros Hq0 Hp0. unfold Overlap.overlapped.
    rewrite (drain_quiet (setIsOnline true w0) Hq0).
    change (db (setIsOnline true w0)) with (db w0).
    set (w1 := mkWorld (db w0) _ _ _ _).
    rewrite (drain_quiet (setIsOnline true w1) Hq0).
    change (db (setIsOnline true w1)) with (db w0).
    set (w2 := mkWorld (db w0) _ _ _ _).
    destruct (pendingOf (db w0)) as [|a l]; [congruence|].
    cbv beta iota zeta. rewrite !replayed_settle.
    rewrite <- app_assoc. reflexivity.
Qed.

Lemma replay_once_unless_cycles_overlap_witness :
  let a := mkNew "REJECT" (PReject "TX-1" "late") "2026-01-01T00:00:00.000Z" in
  let w0 := run false [] [Enqueued a] in
  map (map id) (replayed (Overlap.overlapped (fun _ => true) (fun _ => false) w0))
  = [[Some 1%N]; [Some 1%N]].
Proof.
  cbv zeta.
  pose proof (replay_once_unless_cycles_overlap false [] (fun _ => true) (fun _ => false)
    (run false [] [Enqueued (mkNew "REJECT" (PReject "TX-1" "late")
                               "2026-01-01T00:00:00.000Z")])) as H.
  destruct H as (_ & _ & _ & _ & _ & H).
  assert (Hq : outcomes (db (run false [] [Enqueued (mkNew "REJECT" (PReject "TX-1" "late")
                               "2026-01-01T00:00:00.000Z")])) = []) by reflexivity.
  assert (Hp : pendingOf (db (run false [] [Enqueued (mkNew "REJECT" (PReject "TX-1" "late")
                               "2026-01-01T00:00:00.000Z")])) <> [])
    by (vm_compute; discriminate).
  rewrite (H Hq Hp). reflexivity.
Defined.

End Sessions.

(** ** Requests through the modals, and their approval *)

Section Flows.
Import Db Queue App Ledger Flow.

Lemma handler_sound clk item ty pre name target bounded qty st st' :
  0 < qty -> (bounded = true -> qty <= i_quantity item) ->
  target <> Some "" -> (ty = TRANSFER -> target <> None) ->
  transactions st' = (transactions st ++ [newRequest clk pre ty item target qty])%list ->
  items st' = items st -> scannedItem st' = None -> activeScanFlow st' = None ->
  idb st' = snd (enqueueSyncAction
                   (mkNew name (PTransaction (newRequest clk pre ty item target qty))
                          (isoNow clk)) (idb st)) ->
  soundRequest item ty bounded st st'.
Proof.
  intros Hq Hb Ht Htr Htx Hi Hs Ha _. right.
  exists (newRequest clk pre ty item target qty). repeat split; auto.
Qed.

(** X5. Whatever is typed into a modal, a request leaves the state as
    it was, or appends exactly one PENDING transaction for the item of
    the modal, with a positive quantity, at most the stock of the item
    for a stock-out and for a transfer, a transfer naming a non-empty
    target; it changes no item and closes the scan flow. *)
Theorem modal_requests_are_sound (clk : Clock) (item : Item)
  (form : StockActionModal.Form) (tform : TransferItemModal.Form) (st : State) :
  soundRequest item STOCK_IN false st (snd (requestStockIn clk item form st))
  /\ soundRequest item STOCK_OUT true st (snd (requestStockOut clk item form st))
  /\ soundRequest item TRANSFER true st (snd (requestTransfer clk item tform st)).
Proof.
  split; [|split].
  - unfold requestStockIn, StockActionModal.validateAndConfirm.
    destruct (Z.leb_spec (Js.parseIntOr0 (StockActionModal.rawQty form)) 0);
      [left; reflexivity|]. simpl.
    apply (handler_sound clk item STOCK_IN "TX-" "STOCK_IN" None false
             (Js.parseIntOr0 (StockActionModal.rawQty form)));
      try reflexivity; try lia; try (intros; discriminate); try (intros; lia).
  - unfold requestStockOut, StockActionModal.validateAndConfirm.
    destruct (Z.leb_spec (Js.parseIntOr0 (StockActionModal.rawQty form)) 0);
      [left; reflexivity|]. simpl.
    destruct (Z.ltb_spec (i_quantity item)
                (Js.parseIntOr0 (StockActionModal.rawQty form))); [left; reflexivity|].
    simpl.
    apply (handler_sound clk item STOCK_OUT "TX-" "STOCK_OUT" None true
             (Js.parseIntOr0 (StockActionModal.rawQty form)));
      try reflexivity; try lia; try (intros; discriminate); try (intros; lia).
  - unfold requestTransfer, TransferItemModal.validateAndConfirm.
    destruct (String.eqb_spec (TransferItemModal.targetWhId tform) "");
      [left; reflexivity|].
    destruct (Z.leb_spec (Js.parseIntOr0 (TransferItemModal.rawQty tform)) 0);
      [left; reflexivity|].
    destruct (Z.ltb_spec (i_quantity item)
                (Js.parseIntOr0 (TransferItemModal.rawQty tform))); [left; reflexivity|].
    simpl.
    apply (handler_sound clk item TRANSFER "TR-" "TRANSFER"
             (Some (TransferItemModal.targetWhId tform)) true
             (Js.parseIntOr0 (TransferItemModal.rawQty tform)));
      try reflexivity; try lia; try (intros; discriminate); try (intros; lia).
    intros E. inversion E. contradiction.
Qed.

Lemma nodup_snoc (l : list Transaction) tx :
  NoDup (map t_id l) -> ~ In (t_id tx) (map t_id l) -> NoDup (map t_id (l ++ [tx])).
Proof.
  intros Hnd Hni. rewrite map_app. simpl.
  apply NoDup_app; [assumption | repeat constructor; intros [] |].
  intros x Hx [<-|[]]. contradiction.
Qed.

(** Approving the request that was just appended, for an item on
    file. *)
Lemma approve_appended clk2 st1 st tx item :
  transactions st1 = (transactions st ++ [tx])%list -> items st1 = items st ->
  NoDup (map t_id (transactions st)) -> ~ In (t_id tx) (map t_id (transactions st)) ->
  NoDup (map i_id (items st)) -> In item (items st) -> t_itemId tx = i_id item ->
  items (approve clk2 (t_id tx) st1)
  = approveItems clk2 (warehouses st1) (categories st1) tx item (items st)
  /\ In (approved tx) (transactions (approve clk2 (t_id tx) st1))
  /\ find (hasId (t_itemId tx)) (items st) = Some item.
Proof.
  intros Ht Hi Hnd Hfresh Hni Hin Hit.
  assert (Hs : find (hasId (t_itemId tx)) (items st1) = Some item)
    by (rewrite Hi, Hit; apply find_unique_item; assumption).
  assert (Hnd1 : NoDup (map t_id (transactions st1)))
    by (rewrite Ht; apply nodup_snoc; assumption).
  assert (Hin1 : In tx (transactions st1))
    by (rewrite Ht; apply in_or_app; right; left; reflexivity).
  destruct (approve_unique clk2 (t_id tx) st1 tx item Hnd1 Hin1 eq_refl Hs)
    as (Ht2 & Hi2 & _).
  rewrite Hi2, Ht2, Hi. split; [reflexivity|]. split.
  - apply in_marked. assumption.
  - rewrite <- Hi. assumption.
Qed.

(** X6. A transfer requested through the modal for an item on file
    and then approved, nothing else having changed in between, leaves
    every quantity non-negative when all were, and the total stock of
    the product as it was: the bound checked by the modal is the one
    the approval needs. *)
Theorem approved_transfer_request_keeps_stock (clk clk2 : Clock) (item : Item)
  (tform : TransferItemModal.Form) (st : State) :
  In item (items st) ->
  NoDup (map i_id (items st)) -> NoDup (map t_id (transactions st)) ->
  ~ In ("TR-" ++ Js.showN (now clk)) (map t_id (transactions st)) ->
  (forall i, In i (items st) -> 0 <= i_quantity i) ->
  snd (requestTransfer clk item tform st) <> st ->
  let st2 := approve clk2 ("TR-" ++ Js.showN (now clk))
                     (snd (requestTransfer clk item tform st)) in
  (forall i, In i (items st2) -> 0 <= i_quantity i)
  /\ totalStock (i_name item) (i_categoryId item) (items st2)
     = totalStock (i_name item) (i_categoryId item) (items st).
Proof.
  intros Hin Hni Hnd Hfresh Hall Hacc.
  unfold requestTransfer, TransferItemModal.validateAndConfirm in *.
  destruct (String.eqb_spec (TransferItemModal.targetWhId tform) "") as [|Hne];
    [contradiction Hacc; reflexivity|].
  destruct (Z.leb_spec (Js.parseIntOr0 (TransferItemModal.rawQty tform)) 0) as [|Hpos];
    [contradiction Hacc; reflexivity|].
  destruct (Z.ltb_spec (i_quantity item)
              (Js.parseIntOr0 (TransferItemModal.rawQty tform))) as [|Hle];
    [contradiction Hacc; reflexivity|].
  clear Hacc. simpl snd.
  set (qty := Js.parseIntOr0 (TransferItemModal.rawQty tform)) in *.
  set (target := TransferItemModal.targetWhId tform) in *.
  set (tx := newRequest clk "TR-" TRANSFER item (Some target) qty).
  set (st1 := transfer clk item target qty st).
  destruct (approve_appended clk2 st1 st tx item) as (Hi2 & _ & Hs); auto;
    try (destruct st; reflexivity).
  change ("TR-" ++ Js.showN (now clk)) with (t_id tx). cbv zeta.
  rewrite Hi2. split.
  - apply approveItems_nonneg; auto. simpl. lia.
  - apply (approveItems_conserves clk2 _ _ tx item target); auto.
Qed.

Lemma approved_transfer_request_keeps_stock_witness :
  let st := Sample.withTransactions [] emptyDB in
  let tform := TransferItemModal.mkForm "wh-2" "4" None in
  let st2 := approve Sample.clk' "TR-1700000000000"
                     (snd (requestTransfer Sample.clk Sample.widget tform st)) in
  map i_quantity (items st2) = [6; 4]
  /\ totalStock "Widget" "cat-1" (items st2) = totalStock "Widget" "cat-1" (items st).
Proof.
  cbv zeta. split; [reflexivity|].
  apply (approved_transfer_request_keeps_stock Sample.clk Sample.clk' Sample.widget
           (TransferItemModal.mkForm "wh-2" "4" None)
           (Sample.withTransactions [] emptyDB)).
  - left. reflexivity.
  - repeat constructor. intros [].
  - constructor.
  - intros [].
  - intros i [<-|[]]. discriminate.
  - intros E. apply (f_equal (fun s => List.length (transactions s))) in E.
    discriminate E.
Defined.

(** X7. A stock-in requested through the modal for an item on file and
    then approved lowers the quantity of the item by the quantity
    requested: the approval subtracts whatever the type of the
    transaction is. *)
Theorem approved_stock_in_lowers_stock (clk clk2 : Clock) (item : Item)
  (form : StockActionModal.Form) (st : State) :
  In item (items st) ->
  NoDup (map i_id (items st)) -> NoDup (map t_id (transactions st)) ->
  ~ In ("TX-" ++ Js.showN (now clk)) (map t_id (transactions st)) ->
  snd (requestStockIn clk item form st) <> st ->
  let qty := Js.parseIntOr0 (StockActionModal.rawQty form) in
  let st2 := approve clk2 ("TX-" ++ Js.showN (now clk))
                     (snd (requestStockIn clk item form st)) in
  0 < qty
  /\ find (hasId (i_id item)) (items st2)
     = Some (withQuantity (i_quantity item - qty) (isoNow clk2) item)
  /\ List.length (items st2) = List.length (items st).
Proof.
  intros Hin Hni Hnd Hfresh Hacc.
  unfold requestStockIn, StockActionModal.validateAndConfirm in *.
  destruct (Z.leb_spec (Js.parseIntOr0 (StockActionModal.rawQty form)) 0) as [|Hpos];
    [contradiction Hacc; reflexivity|].
  clear Hacc. simpl. 
  set (qty := Js.parseIntOr0 (StockActionModal.rawQty form)) in *.
  set (tx := newRequest clk "TX-" STOCK_IN item None qty).
  set (st1 := handleStockInRequest clk item qty st).
  destruct (approve_appended clk2 st1 st tx item) as (Hi2 & _ & Hs); auto;
    try (destruct st; reflexivity).
  change (String "T" (String "X" (String "-" (Js.showN (now clk))))) with (t_id tx).
  rewrite Hi2, approveItems_other by discriminate.
  split; [assumption|]. split.
  - exact (find_decrementSource clk2 tx (items st) item Hs).
  - unfold decrementSource. apply length_map.
Qed.

Lemma approved_stock_in_lowers_stock_witness :
  let st := Sample.withTransactions [] emptyDB in
  let form := StockActionModal.mkForm "5" None in
  map i_quantity (items (approve Sample.clk' "TX-1700000000000"
                           (snd (requestStockIn Sample.clk Sample.widget form st))))
  = [5]
  /\ find (hasId "it-1")
          (items (approve Sample.clk' "TX-1700000000000"
                    (snd (requestStockIn Sample.clk Sample.widget form st))))
     = Some (withQuantity (10 - 5) (isoNow Sample.clk') Sample.widget).
Proof.
  cbv zeta. split; [reflexivity|].
  apply (approved_stock_in_lowers_stock Sample.clk Sample.clk' Sample.widget
           (StockActionModal.mkForm "5" None) (Sample.withTransactions [] emptyDB)).
  - left. reflexivity.
  - repeat constructor. intros [].
  - constructor.
  - intros [].
  - intros E. apply (f_equal (fun s => List.length (transactions s))) in E.
    discriminate E.
Defined.

(** X8. Approving a transaction whose item is not on file does
    nothing at all: the transaction keeps its status, no notification
    is added and nothing is enqueued.  Rejecting it works: it becomes
    REJECTED, and the notification names the item as "Item". *)
Theorem approve_needs_source_item (clk : Clock) (txId reason : string) (st : State)
  (tx : Transaction) :
  NoDup (map t_id (transactions st)) -> In tx (transactions st) -> t_id tx = txId ->
  find (hasId (t_itemId tx)) (items st) = None ->
  approve clk txId st = st
  /\ In (rejected reason tx) (transactions (reject clk txId reason st))
  /\ notifications (reject clk txId reason st)
     = mkNotif (notifId clk) "Transaction Rejected"
               (typeName (t_type tx) ++ " request for Item was declined.")
               false (isoNow clk) :: notifications st.
Proof.
  intros Hnd Hin Hid Hs. split; [|split].
  - apply approve_skip. intros t Ht Hx. unfold txHasId in Hx. apply String.eqb_eq in Hx.
    assert (t = tx) by (apply (unique_tx (transactions st)); auto; congruence).
    subst t. unfold hasSource. rewrite Hs. reflexivity.
  - destruct (reject_unique clk txId reason st tx Hnd Hin Hid) as (Hr & _).
    rewrite Hr, <- Hid. apply in_marked. assumption.
  - destruct (unique_split _ _ Hnd Hin) as (pre & post & Hl & Hno). rewrite Hid in Hno.
    unfold reject, handleRejectTransaction. rewrite Hl. rewrite mapEffect_single.
    + unfold rejectCallback, txHasId. rewrite Hid, String.eqb_refl, Hs.
      destruct st; reflexivity.
    + intros t Ht s'. unfold rejectCallback. specialize (Hno t Ht).
      unfold txHasId in Hno. rewrite Hno. reflexivity.
Qed.

Lemma approve_needs_source_item_witness :
  let tx := mkTx "TX-7" STOCK_OUT "it-gone" "wh-1" None 3 Types.PENDING "John Staff"
                 "2025-12-31T00:00:00.000Z" None in
  let st := Sample.withTransactions [tx] emptyDB in
  approve Sample.clk "TX-7" st = st
  /\ map t_status (transactions (reject Sample.clk "TX-7" "Other" st)) = [REJECTED].
Proof.
  cbv zeta. split; [|reflexivity].
  apply (approve_needs_source_item Sample.clk "TX-7" "Other"
           (Sample.withTransactions
              [mkTx "TX-7" STOCK_OUT "it-gone" "wh-1" None 3 Types.PENDING "John Staff"
                    "2025-12-31T00:00:00.000Z" None] emptyDB)
           (mkTx "TX-7" STOCK_OUT "it-gone" "wh-1" None 3 Types.PENDING "John Staff"
                 "2025-12-31T00:00:00.000Z" None)).
  - repeat constructor. intros [].
  - left. reflexivity.
  - reflexivity.
  - reflexivity.
Defined.

Lemma pending_after_marking (f : Transaction -> Transaction) txId l :
  (forall t, Panel.txPending (f t) = false) ->
  Panel.pendingTxs (map (fun t => if txHasId txId t then f t else t) l)
  = filter (fun t => negb (txHasId txId t)) (Panel.pendingTxs l).
Proof.
  intros Hf. unfold Panel.pendingTxs. induction l as [|t l IH]; simpl; [reflexivity|].
  destruct (txHasId txId t) eqn:E.
  - rewrite Hf. destruct (Panel.txPending t); simpl; [rewrite E; simpl|]; exact IH.
  - destruct (Panel.txPending t); simpl; [rewrite E; simpl; f_equal|]; exact IH.
Qed.

Lemma filter_absent (l : list Transaction) txId :
  ~ In txId (map t_id l) -> filter (fun t => negb (txHasId txId t)) l = l.
Proof.
  induction l as [|b l IH]; simpl; intros Hni; [reflexivity|].
  unfold txHasId at 1. destruct (String.eqb_spec (t_id b) txId) as [E|_]; simpl.
  - exfalso. apply Hni. left. assumption.
  - f_equal. apply IH. intros H. apply Hni. right. assumption.
Qed.

Lemma length_without (l : list Transaction) tx :
  NoDup (map t_id l) -> In tx l ->
  S (List.length (filter (fun t => negb (txHasId (t_id tx) t)) l)) = List.length l.
Proof.
  induction l as [|a l IH]; simpl; intros Hnd Hin; [contradiction|].
  inversion Hnd as [|? ? Hni Hnd']; subst.
  destruct (txHasId (t_id tx) a) eqn:E; simpl.
  - f_equal. unfold txHasId in E. apply String.eqb_eq in E.
    rewrite filter_absent; [reflexivity|]. rewrite <- E. assumption.
  - f_equal. apply IH; [assumption|]. destruct Hin as [->|Hin]; [|assumption].
    unfold txHasId in E. rewrite String.eqb_refl in E. discriminate.
Qed.

Lemma in_firstn {A : Type} (n : nat) (l : list A) x : In x (firstn n l) -> In x l.
Proof.
  revert l. induction n as [|n IH]; intros [|a l]; simpl; try contradiction.
  intros [H|H]; [left; assumption | right; apply IH; assumption].
Qed.

Lemma nodup_pending l : NoDup (map t_id l) -> NoDup (map t_id (Panel.pendingTxs l)).
Proof.
  unfold Panel.pendingTxs. induction l as [|a l IH]; simpl; intros H; [constructor|].
  inversion H as [|? ? Hni Hnd]; subst. destruct (Panel.txPending a); simpl; auto.
  constructor; auto. intros Hin. apply Hni. apply in_map_iff in Hin.
  destruct Hin as (x & Hx & Hin). apply filter_In in Hin. destruct Hin as [Hin _].
  rewrite <- Hx. apply in_map. assumption.
Qed.

(** X9. A PENDING transaction that is approved (its item being on
    file) or rejected leaves the list of pending approvals of the
    dashboard; the other pending transactions stay, in their order, so
    the list is one shorter and no row offers the decided transaction
    again. *)
Theorem decided_leaves_pending_list (clk : Clock) (reason : string) (st : State)
  (tx : Transaction) (src : Item) :
  NoDup (map t_id (transactions st)) -> In tx (transactions st) ->
  t_status tx = Types.PENDING ->
  find (hasId (t_itemId tx)) (items st) = Some src ->
  let others := filter (fun t => negb (txHasId (t_id tx) t))
                       (Panel.pendingTxs (transactions st)) in
  Panel.pendingTxs (transactions (approve clk (t_id tx) st)) = others
  /\ Panel.pendingTxs (transactions (reject clk (t_id tx) reason st)) = others
  /\ S (List.length others) = List.length (Panel.pendingTxs (transactions st))
  /\ ~ In (t_id tx) (map t_id (Panel.shown (transactions (approve clk (t_id tx) st))))
  /\ ~ In (t_id tx)
          (map t_id (Panel.shown (transactions (reject clk (t_id tx) reason st)))).
Proof.
  intros Hnd Hin Hp Hs others.
  destruct (approve_unique clk (t_id tx) st tx src Hnd Hin eq_refl Hs) as (Ht & _).
  destruct (reject_unique clk (t_id tx) reason st tx Hnd Hin eq_refl) as (Hr & _).
  assert (Ha : Panel.pendingTxs (transactions (approve clk (t_id tx) st)) = others)
    by (rewrite Ht; apply pending_after_marking; reflexivity).
  assert (Hj : Panel.pendingTxs (transactions (reject clk (t_id tx) reason st)) = others)
    by (rewrite Hr; apply pending_after_marking; reflexivity).
  assert (Hno : ~ In (t_id tx) (map t_id others)).
  { intros H. apply in_map_iff in H. destruct H as (x & Hx & Hxin).
    apply filter_In in Hxin. destruct Hxin as [_ Hneg].
    unfold txHasId in Hneg. rewrite Hx, String.eqb_refl in Hneg. discriminate. }
  split; [assumption|]. split; [assumption|]. split; [|split].
  - apply length_without; [apply nodup_pending; assumption|].
    apply filter_In. split; [assumption|]. unfold Panel.txPending. rewrite Hp. reflexivity.
  - unfold Panel.shown. rewrite Ha. intros H. apply Hno.
    apply in_map_iff in H. destruct H as (x & Hx & Hxin).
    apply in_map_iff. exists x. split; [assumption|]. eapply in_firstn; eassumption.
  - unfold Panel.shown. rewrite Hj. intros H. apply Hno.
    apply in_map_iff in H. destruct H as (x & Hx & Hxin).
    apply in_map_iff. exists x. split; [assumption|]. eapply in_firstn; eassumption.
Qed.

Lemma decided_leaves_pending_list_witness :
  let tx := Sample.request STOCK_OUT "TX-7" None 3 in
  let tx2 := Sample.request STOCK_IN "TX-8" None 2 in
  let st := Sample.withTransactions [tx; tx2] emptyDB in
  Panel.pendingTxs (transactions (approve Sample.clk "TX-7" st)) = [tx2]
  /\ Panel.pendingTxs (transactions (reject Sample.clk "TX-7" "Other" st)) = [tx2].
Proof.
  cbv zeta.
  pose proof (decided_leaves_pending_list Sample.clk "Other"
    (Sample.withTransactions [Sample.request STOCK_OUT "TX-7" None 3;
                              Sample.request STOCK_IN "TX-8" None 2] emptyDB)
    (Sample.request STOCK_OUT "TX-7" None 3) Sample.widget) as H.
  destruct H as (Ha & Hr & _).
  - repeat constructor; simpl; [intros [E|[]]; discriminate E | intros []].
  - left. reflexivity.
  - reflexivity.
  - reflexivity.
  - split; [exact Ha | exact Hr].
Defined.

End Flows.

(** ** Sign-in, verification and the dashboard *)

Section SignIn.
Import App Shell.

Lemma snoc_login (es pre post : list AuthEvent) e r :
  (es ++ [e])%list = (pre ++ Login r :: post)%list ->
  (post = [] /\ es = pre /\ e = Login r)
  \/ exists post', post = (post' ++ [e])%list /\ es = (pre ++ Login r :: post')%list.
Proof.
  destruct post as [|x post _] using rev_ind; intros H.
  - left. apply app_inj_tail in H. destruct H; auto.
  - right. exists post.
    change (pre ++ Login r :: post ++ [x])%list
      with (pre ++ (Login r :: post) ++ [x])%list in H.
    rewrite app_assoc in H. apply app_inj_tail in H. destruct H as [-> ->]. auto.
Qed.

Lemma forallb_snoc {A : Type} (f : A -> bool) l x :
  forallb f (l ++ [x]) = forallb f l && f x.
Proof. rewrite forallb_app. simpl. rewrite andb_true_r. reflexivity. Qed.

Lemma loggedIn_after (events : list AuthEvent) (fr0 : Frame) :
  isLoggedIn fr0 = false ->
  (isLoggedIn (authRun events fr0) = true
   <-> exists pre r post,
         events = (pre ++ Login r :: post)%list /\ forallb isVerify post = true)
  /\ (forall pre r post,
         events = (pre ++ Login r :: post)%list -> forallb isVerify post = true ->
         role (authRun events fr0) = r).
Proof.
  intros H0. unfold authRun. induction events as [|e es IH] using rev_ind.
  - simpl. split; [split|].
    + congruence.
    + intros (pre & r & post & E & _). destruct pre; discriminate.
    + intros pre r post E. destruct pre; discriminate.
  - rewrite fold_left_app. simpl. destruct IH as [IH1 IH2]. split; [split|].
    + intros L. destruct e; simpl in L.
      * exists es, selectedRole, []. auto.
      * apply IH1 in L. destruct L as (pre & r & post & -> & Hv).
        exists pre, r, (post ++ [Verify clk])%list. split.
        -- rewrite <- app_assoc. reflexivity.
        -- rewrite forallb_snoc, Hv. reflexivity.
      * discriminate.
      * discriminate.
    + intros (pre & r & post & E & Hv). apply snoc_login in E.
      destruct E as [(-> & -> & ->)|(post' & -> & ->)]; [reflexivity|].
      rewrite forallb_snoc in Hv. apply andb_prop in Hv. destruct Hv as [Hv He].
      destruct e; try discriminate. simpl. apply IH1. exists pre, r, post'. auto.
    + intros pre r post E Hv. apply snoc_login in E.
      destruct E as [(-> & -> & ->)|(post' & -> & ->)]; [reflexivity|].
      rewrite forallb_snoc in Hv. apply andb_prop in Hv. destruct Hv as [Hv He].
      destruct e; try discriminate. simpl. apply (IH2 pre r post'); auto.
Qed.

(** X10. From a signed-out frame, whatever sequence of calls of the
    sign-in handlers, the main screen is what [App] renders exactly
    when the calls end with a [handleLogin] followed by one or more
    [handleVerify] and nothing else; the role is then the one of that
    login. *)
Theorem main_screen_needs_verified_login (events : list AuthEvent) (fr0 : Frame) :
  isLoggedIn fr0 = false ->
  let fr := authRun events fr0 in
  ((exists c, render fr = MainScreen c)
   <-> exists pre r post,
         events = (pre ++ Login r :: post)%list
         /\ post <> [] /\ forallb isVerify post = true)
  /\ (forall pre r post,
         events = (pre ++ Login r :: post)%list -> forallb isVerify post = true ->
         role fr = r).
Proof.
  intros H0 fr. split; [|apply (loggedIn_after events fr0 H0)].
  unfold fr, authRun. destruct events as [|e es _] using rev_ind.
  - simpl. unfold render. rewrite H0. simpl. split.
    + intros (c & C). discriminate.
    + intros (pre & r & post & E & _). destruct pre; discriminate.
  - rewrite fold_left_app. simpl.
    destruct (loggedIn_after es fr0 H0) as [IH _]. unfold authRun in IH. split.
    + intros (c & C). unfold render in C. destruct e; simpl in C; try discriminate.
      destruct (isLoggedIn (fold_left authStep es fr0)) eqn:L; [|discriminate].
      destruct (proj1 IH eq_refl) as (pre & r & post & -> & Hv).
      exists pre, r, (post ++ [Verify clk])%list. split; [|split].
      * rewrite <- app_assoc. reflexivity.
      * intros C'. destruct post; discriminate.
      * rewrite forallb_snoc, Hv. reflexivity.
    + intros (pre & r & post & E & Hne & Hv). apply snoc_login in E.
      destruct E as [(-> & _)|(post' & -> & ->)]; [contradiction Hne; reflexivity|].
      rewrite forallb_snoc in Hv. apply andb_prop in Hv. destruct Hv as [Hv He].
      destruct e; try discriminate.
      assert (L : isLoggedIn (fold_left authStep (pre ++ Login r :: post') fr0) = true)
        by (apply IH; exists pre, r, post'; auto).
      unfold render. simpl. rewrite L. simpl. eexists. reflexivity.
Qed.

Lemma main_screen_needs_verified_login_witness :
  let fr0 := initialFrame (Sample.withTransactions [] Db.emptyDB) in
  (exists c, render (authRun [Login STAFF; Cancel2FA; Login ACCOUNTANT; Verify Sample.clk]
                             fr0) = MainScreen c)
  /\ role (authRun [Login STAFF; Cancel2FA; Login ACCOUNTANT; Verify Sample.clk] fr0)
     = ACCOUNTANT.
Proof.
  cbv zeta.
  pose proof (main_screen_needs_verified_login
                [Login STAFF; Cancel2FA; Login ACCOUNTANT; Verify Sample.clk]
                (initialFrame (Sample.withTransactions [] Db.emptyDB)) eq_refl) as H.
  cbv zeta in H. destruct H as [H1 H2]. split.
  - apply H1. exists [Login STAFF; Cancel2FA], ACCOUNTANT, [Verify Sample.clk].
    split; [reflexivity|]. split; [discriminate | reflexivity].
  - apply (H2 [Login STAFF; Cancel2FA] ACCOUNTANT [Verify Sample.clk]); reflexivity.
Defined.

(** X12. With the default permissions, whoever signs in from the
    initial tab and is verified gets the dashboard with the approve
    and reject handlers, whatever the role; yet the approvals module
    is denied to every role but ADMIN. *)
Theorem every_role_decides_on_dashboard (clk : Clock) (r : UserRole) (fr0 : Frame) :
  permissions fr0 = defaultPermissions -> activeTab fr0 = "dashboard" ->
  let fr := handleVerify clk (handleLogin r fr0) in
  render fr = MainScreen (DashboardContent true)
  /\ (r <> ADMIN ->
      checkAccess fr "approvals" view = false
      /\ checkAccess fr "dashboard" update = false
      /\ render (mkFrame (app fr) (role fr) (isLoggedIn fr) (isVerified fr) "approvals"
                         (permissions fr) (showScanner fr))
         = MainScreen AccessDenied).
Proof.
  intros Hp Ht fr. unfold fr, render, renderContent, checkAccess. simpl.
  rewrite Hp, Ht. destruct r; simpl; (split; [reflexivity|]); intros C;
    try (contradiction C; reflexivity); repeat split.
Qed.

Lemma every_role_decides_on_dashboard_witness :
  render (handleVerify Sample.clk
            (handleLogin STAFF (initialFrame (Sample.withTransactions [] Db.emptyDB))))
  = MainScreen (DashboardContent true).
Proof.
  exact (proj1 (every_role_decides_on_dashboard Sample.clk STAFF
                  (initialFrame (Sample.withTransactions [] Db.emptyDB))
                  eq_refl eq_refl)).
Defined.

End SignIn.

(** ** The six boxes of the verification code *)

Section Verification.
Import App Shell TwoFactorAuth.

Lemma length_setAt index v code : List.length (setAt index v code) = List.length code.
Proof.
  revert index. induction code as [|c code IH]; intros [|n]; simpl; auto.
Qed.

Lemma nth_setAt index v code i :
  nth i (setAt index v code) ""
  = if (Nat.eqb i index && Nat.ltb index (List.length code))%bool then v
    else nth i code "".
Proof.
  revert index i. induction code as [|c code IH]; intros [|n] [|i]; simpl; auto.
  destruct (Nat.eqb i n); reflexivity.
Qed.

Lemma length_handleChange index value code :
  List.length (handleChange index value code) = List.length code.
Proof.
  unfold handleChange. destruct (allDigits value); simpl; [apply length_setAt | reflexivity].
Qed.

Lemma lastChar_empty s : lastChar s <> "" -> s <> "".
Proof. intros H ->. apply H. reflexivity. Qed.

Lemma typed_boxes (changes : list (nat * string)) (code0 : list string) (i : nat) :
  nth i (fold_left (fun code c => handleChange (fst c) (snd c) code) changes code0) ""
  <> "" ->
  nth i code0 "" <> ""
  \/ exists v, In (i, v) changes /\ v <> "" /\ allDigits v = true.
Proof.
  revert code0. induction changes as [|[j v] changes IH]; simpl; intros code0 H.
  - left. assumption.
  - apply IH in H. destruct H as [H|(w & Hin & Hw)].
    + unfold handleChange in H. destruct (allDigits v) eqn:D; simpl in H.
      * rewrite nth_setAt in H.
        destruct (Nat.eqb_spec i j) as [->|_]; simpl in H;
          [destruct (j <? List.length code0)%nat|]; auto.
        right. exists v. split; [left; reflexivity|].
        split; [apply lastChar_empty; assumption | assumption].
      * left. assumption.
    + right. exists w. split; [right; assumption | assumption].
Qed.

Lemma length_typeAll changes : List.length (typeAll changes) = 6%nat.
Proof.
  unfold typeAll. generalize emptyCode (eq_refl : List.length emptyCode = 6%nat).
  induction changes as [|c changes IH]; simpl; intros code H; [assumption|].
  apply IH. rewrite length_handleChange. assumption.
Qed.

(** X11. Any six digits pass the verification: typed into the six
    boxes they fill the code, and [onVerify] is called, so that a
    signed-in frame shows the main screen; the code is compared with
    nothing.  Conversely [onVerify] is only called once each box has
    received a non-empty string of digits. *)
Theorem any_six_digits_verify (clk : Clock) (r : UserRole) (fr0 : Frame)
  (d0 d1 d2 d3 d4 d5 : ascii) (changes : list (nat * string)) :
  forallb Js.isDigit [d0; d1; d2; d3; d4; d5] = true ->
  let digits := map (fun d => String d "") [d0; d1; d2; d3; d4; d5] in
  let code := typeAll (combine (seq 0 6) digits) in
  (code = digits
   /\ afterChange (handleVerify clk) code (handleLogin r fr0)
      = handleVerify clk (handleLogin r fr0)
   /\ exists c, render (afterChange (handleVerify clk) code (handleLogin r fr0))
                = MainScreen c)
  /\ (isFull (typeAll changes) = true ->
      forall i, (i < 6)%nat ->
        exists v, In (i, v) changes /\ v <> "" /\ allDigits v = true).
Proof.
  intros Hd digits code. split.
  - simpl in Hd. repeat (apply andb_prop in Hd; destruct Hd as [? Hd]).
    assert (Hc : code = digits).
    { unfold code, digits, typeAll, handleChange. simpl.
      repeat match goal with H : Js.isDigit _ = true |- _ => rewrite H; clear H end.
      reflexivity. }
    assert (Hf : isFull code = true) by (rewrite Hc; reflexivity).
    split; [assumption|]. unfold afterChange. rewrite Hf.
    split; [reflexivity|]. eexists. reflexivity.
  - intros Hf i Hi.
    destruct (typed_boxes changes emptyCode i) as [H|H].
    + unfold isFull in Hf. rewrite forallb_forall in Hf.
      fold (typeAll changes). intros E.
      assert (Hin : In (nth i (typeAll changes) "") (typeAll changes))
        by (apply nth_In; rewrite length_typeAll; assumption).
      apply Hf in Hin. rewrite E in Hin. discriminate.
    + exfalso. apply H. do 6 (destruct i as [|i]; [reflexivity|]). lia.
    + assumption.
Qed.

Lemma any_six_digits_verify_witness :
  typeAll (combine (seq 0 6) ["0"; "0"; "0"; "0"; "0"; "0"])
  = ["0"; "0"; "0"; "0"; "0"; "0"].
Proof.
  exact (proj1 (proj1 (any_six_digits_verify Sample.clk STAFF
                         (initialFrame (Sample.withTransactions [] Db.emptyDB))
                         "0" "0" "0" "0" "0" "0" [] eq_refl))).
Defined.

End Verification.

(** ** The counts of the dashboard *)

Section Counts.
Import Panel.

Lemma list_sum_zero {A : Type} (l : list A) : list_sum (map (fun _ => 0%nat) l) = 0%nat.
Proof. induction l; simpl; auto. Qed.

Lemma list_sum_plus {A : Type} (f g : A -> nat) (l : list A) :
  list_sum (map (fun x => (f x + g x)%nat) l)
  = (list_sum (map f l) + list_sum (map g l))%nat.
Proof. induction l as [|a l IH]; simpl; [reflexivity|]. rewrite IH. lia. Qed.

Lemma one_warehouse (whs : list Warehouse) (i : Item) :
  NoDup (map w_id whs) ->
  list_sum (map (fun wh => if inWarehouse wh i then 1%nat else 0%nat) whs)
  = if onFile whs i then 1%nat else 0%nat.
Proof.
  unfold onFile. induction whs as [|wh whs IH]; simpl; intros Hnd; [reflexivity|].
  inversion Hnd as [|? ? Hni Hnd']; subst. rewrite (IH Hnd').
  destruct (inWarehouse wh i) eqn:E; simpl; [|reflexivity].
  destruct (existsb (fun wh0 => inWarehouse wh0 i) whs) eqn:X; [|reflexivity].
  exfalso. apply Hni. apply existsb_exists in X. destruct X as (wh' & Hin & E').
  unfold inWarehouse in *. apply String.eqb_eq in E, E'.
  apply in_map_iff. exists wh'. split; [congruence | assumption].
Qed.

Lemma counts_cover (whs : list Warehouse) (l : list Item) :
  NoDup (map w_id whs) ->
  list_sum (map (fun wh => List.length (whItems l wh)) whs)
  = List.length (filter (onFile whs) l).
Proof.
  intros Hnd. induction l as [|a l IH]; simpl.
  - apply list_sum_zero.
  - rewrite (map_ext _ (fun wh => ((if inWarehouse wh a then 1 else 0)
                                    + List.length (whItems l wh))%nat)).
    + rewrite list_sum_plus, IH, one_warehouse by assumption.
      destruct (onFile whs a); reflexivity.
    + intros wh. unfold whItems. simpl. fold (inWarehouse wh a).
      destruct (inWarehouse wh a); reflexivity.
Qed.

Lemma low_of_warehouse (items : list Item) (wh : Warehouse) :
  lowStockItems (whItems items wh) = whItems (lowStockItems items) wh.
Proof.
  unfold lowStockItems, whItems. induction items as [|a l IH]; simpl; [reflexivity|].
  destruct (String.eqb (i_warehouseId a) (w_id wh)) eqn:E;
    destruct (i_quantity a <? LOW_STOCK_THRESHOLD) eqn:Q; simpl;
    rewrite ?E, ?Q, IH; reflexivity.
Qed.

(** X13. When the warehouses have distinct ids, the item counts of the
    warehouse cards of the dashboard add up to the number of items
    whose warehouse is on file, and their low-stock counts to the
    number of such items among the low-stock ones: no item is counted
    twice, and an item of an unknown warehouse is counted nowhere. *)
Theorem warehouse_cards_count_each_item_once (whs : list Warehouse) (items : list Item) :
  NoDup (map w_id whs) ->
  list_sum (itemCounts whs items) = List.length (filter (onFile whs) items)
  /\ list_sum (lowStockCounts whs items)
     = List.length (filter (onFile whs) (lowStockItems items))
  /\ (list_sum (lowStockCounts whs items) <= list_sum (itemCounts whs items)
      <= List.length items)%nat.
Proof.
  intros Hnd.
  assert (H1 := counts_cover whs items Hnd).
  assert (H2 : list_sum (lowStockCounts whs items)
               = List.length (filter (onFile whs) (lowStockItems items))).
  { unfold lowStockCounts.
    rewrite (map_ext _ (fun wh => List.length (whItems (lowStockItems items) wh)))
      by (intros wh; rewrite low_of_warehouse; reflexivity).
    apply counts_cover. assumption. }
  unfold itemCounts. rewrite H1, H2. split; [reflexivity|]. split; [reflexivity|].
  split.
  - unfold lowStockItems. clear. induction items as [|a l IH]; simpl; [lia|].
    destruct (i_quantity a <? LOW_STOCK_THRESHOLD); simpl;
      destruct (onFile whs a); simpl; lia.
  - apply filter_length_le.
Qed.

Lemma warehouse_cards_count_each_item_once_witness :
  itemCounts [Sample.manila; Sample.cebu] [Sample.widget] = [1%nat; 0%nat]
  /\ list_sum (itemCounts [Sample.manila; Sample.cebu] [Sample.widget])
     = List.length (filter (onFile [Sample.manila; Sample.cebu]) [Sample.widget]).
Proof.
  split; [reflexivity|].
  apply (warehouse_cards_count_each_item_once [Sample.manila; Sample.cebu] [Sample.widget]).
  repeat constructor; simpl; [intros [E|[]]; discriminate E | intros []].
Defined.

End Counts.

(** ** The stores keyed by a string *)

Section Persistence.
Import Db Stores.

Lemma compare_refl (k : string) : String.compare k k = Eq.
Proof.
  pose proof (String.compare_antisym k k) as H.
  destruct (String.compare k k); simpl in H; congruence.
Qed.

Lemma compare_lt_trans (a b c : string) :
  String.compare a b = Lt -> String.compare b c = Lt -> String.compare a c = Lt.
Proof.
  intros H1 H2.
  apply (proj2 (OrderedTypeEx.String_as_OT.cmp_lt a c)).
  apply (OrderedTypeEx.String_as_OT.lt_trans a b c);
    apply (proj1 (OrderedTypeEx.String_as_OT.cmp_lt _ _)); assumption.
Qed.

Lemma compare_gt_lt (a b : string) : String.compare a b = Gt -> String.compare b a = Lt.
Proof. intros H. rewrite String.compare_antisym, H. reflexivity. Qed.

Lemma find_put {V : Type} (keyOf : V -> string) (v : V) (l : list V) (k : string) :
  find (hasKey keyOf k) (put keyOf v l)
  = if String.eqb (keyOf v) k then Some v else find (hasKey keyOf k) l.
Proof.
  induction l as [|a l IH]; simpl; [reflexivity|].
  destruct (String.compare (keyOf v) (keyOf a)) eqn:C; simpl.
  - apply String.compare_eq_iff in C. unfold hasKey at 1 3. rewrite <- C.
    destruct (String.eqb (keyOf v) k); reflexivity.
  - reflexivity.
  - rewrite IH. unfold hasKey at 1 3.
    destruct (String.eqb_spec (keyOf a) k) as [Ea|_]; [|reflexivity].
    destruct (String.eqb_spec (keyOf v) k) as [Ev|_]; [|reflexivity].
    rewrite Ea, Ev, compare_refl in C. discriminate.
Qed.

Lemma put_forall {V : Type} (keyOf : V -> string) (P : V -> Prop) v l :
  P v -> Forall P l -> Forall P (put keyOf v l).
Proof.
  intros Hv. induction 1 as [|a l Ha Hl IH]; simpl.
  - constructor; [assumption | constructor].
  - destruct (String.compare (keyOf v) (keyOf a)); repeat constructor; assumption.
Qed.

Lemma put_ascending {V : Type} (keyOf : V -> string) v l :
  ascending keyOf l -> ascending keyOf (put keyOf v l).
Proof.
  unfold ascending. induction 1 as [|a l Hs IH Ha]; simpl.
  - constructor; constructor.
  - destruct (String.compare (keyOf v) (keyOf a)) eqn:C.
    + apply String.compare_eq_iff in C. constructor; [assumption|].
      rewrite C. assumption.
    + constructor; [constructor; assumption|]. constructor; [assumption|].
      eapply Forall_impl; [|exact Ha]. intros b Hb. simpl in Hb.
      eapply compare_lt_trans; eassumption.
    + constructor; [assumption|]. apply put_forall; [|assumption].
      apply compare_gt_lt. assumption.
Qed.

Lemma keys_put {V : Type} (keyOf : V -> string) v l k :
  In k (map keyOf (put keyOf v l)) -> k = keyOf v \/ In k (map keyOf l).
Proof.
  induction l as [|a l IH]; simpl.
  - intros [H|[]]; auto.
  - destruct (String.compare (keyOf v) (keyOf a)); simpl; intuition auto.
Qed.

Lemma put_perm {V : Type} (keyOf : V -> string) v l :
  ~ In (keyOf v) (map keyOf l) -> Permutation (v :: l) (put keyOf v l).
Proof.
  induction l as [|a l IH]; simpl; intros Hni; [reflexivity|].
  destruct (String.compare (keyOf v) (keyOf a)) eqn:C.
  - exfalso. apply Hni. left. symmetry. apply String.compare_eq_iff. assumption.
  - reflexivity.
  - etransitivity; [apply perm_swap|]. apply perm_skip. apply IH. tauto.
Qed.

Lemma putAll_ascending {V : Type} (keyOf : V -> string) values l :
  ascending keyOf l -> ascending keyOf (putAll keyOf values l).
Proof.
  unfold putAll. revert l. induction values as [|v vs IH]; simpl; intros l H; [assumption|].
  apply IH. apply put_ascending. assumption.
Qed.

Lemma find_putAll {V : Type} (keyOf : V -> string) values l k :
  find (hasKey keyOf k) (putAll keyOf values l)
  = match lastWith keyOf k values with
    | Some v => Some v
    | None => find (hasKey keyOf k) l
    end.
Proof.
  unfold putAll, lastWith. revert l. induction values as [|v vs IH]; simpl; intros l.
  - reflexivity.
  - rewrite IH, find_put. destruct (find (hasKey keyOf k) (rev vs)) eqn:F.
    + rewrite (find_app_some _ _ _ _ F). reflexivity.
    + rewrite (find_app_none _ _ _ F). simpl. unfold hasKey at 2.
      destruct (String.eqb (keyOf v) k); reflexivity.
Qed.

Lemma putAll_perm {V : Type} (keyOf : V -> string) values l :
  NoDup (map keyOf values) ->
  (forall k, In k (map keyOf values) -> ~ In k (map keyOf l)) ->
  Permutation (values ++ l) (putAll keyOf values l).
Proof.
  unfold putAll. revert l. induction values as [|v vs IH]; simpl; intros l Hnd Hfresh.
  - reflexivity.
  - inversion Hnd as [|? ? Hni Hnd']; subst.
    etransitivity; [apply Permutation_middle|].
    etransitivity; [|apply IH; [assumption|]].
    + apply Permutation_app_head. apply put_perm. apply Hfresh. left. reflexivity.
    + intros k Hk Hin. apply keys_put in Hin. destruct Hin as [->|Hin].
      * contradiction.
      * apply (Hfresh k); [right|]; assumption.
Qed.

Lemma request_quiet {T} (d : Disk T) : s_outcomes d = [] -> request d = (Resolved tt, d).
Proof. unfold request. intros ->. reflexivity. Qed.

Lemma outcomes_withRecords {T V} (s : StoreName T V) l (d : Disk T) :
  s_outcomes (withRecords s l d) = s_outcomes d.
Proof. destruct s; reflexivity. Qed.

Lemma records_withRecords {T V} (s : StoreName T V) l (d : Disk T) :
  records s (withRecords s l d) = l.
Proof. destruct s; reflexivity. Qed.

Lemma records_withOutcomes {T V} (s : StoreName T V) o (d : Disk T) :
  records s (withOutcomes o d) = records s d.
Proof. destruct s; reflexivity. Qed.

Lemma withRecords_twice {T V} (s : StoreName T V) l l' (d : Disk T) :
  withRecords s l (withRecords s l' d) = withRecords s l d.
Proof. destruct s; reflexivity. Qed.

Lemma persist_quiet {T V} (s : StoreName T V) values (d : Disk T) :
  s_outcomes d = [] ->
  persist s values d = (Resolved tt, withRecords s (putAll (keyPath s) values []) d).
Proof.
  intros H. unfold persist, dbClear, dbPutMany, bind.
  rewrite (request_quiet d H). rewrite request_quiet by (rewrite outcomes_withRecords; exact H).
  rewrite records_withRecords, withRecords_twice. reflexivity.
Qed.

(** X14. With no failing request, what one of the [persist*] functions
    wrote is what the store yields afterwards: [getAll] gives the
    records in ascending order of their keys, [get] of a key gives the
    last of the values written that has it, and the records are the
    values written, up to their order, when these have distinct
    keys. *)
Theorem persisted_slice_reloads {T V : Type} (s : StoreName T V) (values : list V)
  (d : Disk T) :
  s_outcomes d = [] ->
  let d' := snd (persist s values d) in
  fst (persist s values d) = Resolved tt
  /\ (exists loaded,
        dbGetAll s d' = (Resolved loaded, d')
        /\ ascending (keyPath s) loaded
        /\ (NoDup (map (keyPath s) values) -> Permutation values loaded))
  /\ forall k, dbGet s k d' = (Resolved (lastWith (keyPath s) k values), d').
Proof.
  intros H d'. unfold d'. rewrite (persist_quiet s values d H). simpl.
  set (d1 := withRecords s (putAll (keyPath s) values []) d).
  assert (H1 : s_outcomes d1 = []) by (unfold d1; rewrite outcomes_withRecords; exact H).
  assert (R1 : records s d1 = putAll (keyPath s) values [])
    by (unfold d1; apply records_withRecords).
  split; [reflexivity|]. split.
  - exists (putAll (keyPath s) values []). split; [|split].
    + unfold dbGetAll, bind. rewrite (request_quiet d1 H1), R1. reflexivity.
    + apply putAll_ascending. constructor.
    + intros Hnd. rewrite <- (app_nil_r values) at 1.
      apply putAll_perm; [assumption|]. intros k _ [].
  - intros k. unfold dbGet, bind. rewrite (request_quiet d1 H1), R1, find_putAll.
    destruct (lastWith (keyPath s) k values); reflexivity.
Qed.

Lemma persisted_slice_reloads_witness :
  let d := snd (persistTransactions
                  [Sample.request STOCK_OUT "TX-2" None 3;
                   Sample.request TRANSFER "TR-9" (Some "wh-2") 1]
                  (mkDisk [] [] [] [] [] ([] : list (Entry string)) [])) in
  map t_id (s_transactions d) = ["TR-9"; "TX-2"]
  /\ dbGet transactions "TX-2" d = (Resolved (Some (Sample.request STOCK_OUT "TX-2" None 3)), d).
Proof.
  cbv zeta. split; [reflexivity|].
  exact (proj2 (proj2 (persisted_slice_reloads transactions
                         [Sample.request STOCK_OUT "TX-2" None 3;
                          Sample.request TRANSFER "TR-9" (Some "wh-2") 1]
                         (mkDisk [] [] [] [] [] ([] : list (Entry string)) [])
                         eq_refl)) "TX-2").
Defined.

(** X15. A [persist*] function is not atomic: when its [clear]
    succeeds and its writing transaction fails, the promise is
    rejected and the store is left empty, whatever it held; when the
    [clear] fails the store is as it was.  It resolves only with the
    new records in place. *)
Theorem failed_persist_empties_store {T V : Type} (s : StoreName T V) (values : list V)
  (d : Disk T) :
  match persist s values d with
  | (Resolved _, d') =>
      records s d' = putAll (keyPath s) values []
      /\ (s_outcomes d = [] \/ exists rest, s_outcomes d = true :: rest)
  | (Rejected, d') =>
      (records s d' = records s d /\ exists rest, s_outcomes d = false :: rest)
      \/ (records s d' = [] /\ exists rest, s_outcomes d = true :: false :: rest)
  end.
Proof.
  unfold persist, dbClear, dbPutMany, bind, request.
  destruct (s_outcomes d) as [|[|] [|[|] rest]] eqn:O; simpl;
    rewrite ?outcomes_withRecords, ?O; simpl;
    rewrite ?records_withRecords, ?records_withOutcomes, ?outcomes_withRecords; simpl;
    rewrite ?records_withRecords, ?records_withOutcomes; eauto.
Qed.

End Persistence.

(** ** The start of the application *)

Section Startup.
Import Db Stores.
Context {T : Type}.
Variable initialItems : list Item.
Variable initialWarehouses : list Warehouse.
Variable initialCategories : list Category.

Lemma withOutcomes_twice o o' (d : Disk T) :
  withOutcomes o (withOutcomes o' d) = withOutcomes o d.
Proof. reflexivity. Qed.

Lemma request_keeps (d : Disk T) : exists r o, request d = (r, withOutcomes o d).
Proof.
  unfold request. destruct (s_outcomes d) as [|[|] rest] eqn:O; eauto.
  exists (Resolved tt), []. rewrite <- O. destruct d; reflexivity.
Qed.

Lemma dbGetAll_keeps {V} (s : StoreName T V) (d : Disk T) :
  exists o, dbGetAll s d = (Resolved (records s d), withOutcomes o d)
            \/ dbGetAll s d = (Rejected, withOutcomes o d).
Proof.
  unfold dbGetAll, bind. destruct (request_keeps d) as ([[]|] & o & ->); exists o.
  - left. rewrite records_withOutcomes. reflexivity.
  - right. reflexivity.
Qed.

Lemma load_keeps (d : Disk T) :
  exists o,
    loadPersistedState d
    = (Resolved (mkPersisted (s_items d) (s_warehouses d) (s_categories d)
                             (s_transactions d) (s_notifications d)),
       withOutcomes o d)
    \/ loadPersistedState d = (Rejected, withOutcomes o d).
Proof.
  unfold loadPersistedState, both.
  repeat match goal with
         | |- context [dbGetAll ?s ?d0] =>
             let o := fresh "o" in let E := fresh "E" in
             destruct (dbGetAll_keeps s d0) as (o & [E|E]); rewrite E; clear E
         end;
    eexists; ((left; reflexivity) || (right; reflexivity)).
Qed.

Lemma items_useDefaults st :
  App.items (useDefaults initialItems initialWarehouses initialCategories st) = initialItems.
Proof. reflexivity. Qed.

(** X16. However the requests of the start turn out, the effect ends
    with [isDbReady] set, and the items of the state are the stored
    ones when these were read and are not empty, the initial ones
    otherwise: an emptied inventory comes back as the initial one,
    while the transactions and notifications read are kept as they
    are. *)
Theorem start_falls_back_to_initial_items (st : App.State) (d : Disk T) :
  let r := mountEffect initialItems initialWarehouses initialCategories st d in
  let st' := fst (fst r) in
  snd (fst r) = true
  /\ match fst (loadPersistedState d) with
     | Resolved _ =>
         App.items st' = (if isEmpty (s_items d) then initialItems else s_items d)
         /\ App.transactions st' = s_transactions d
         /\ App.notifications st' = s_notifications d
         /\ (isEmpty (s_items d) = false -> s_items (snd r) = s_items d
             /\ App.warehouses st'
                = if isEmpty (s_warehouses d) then initialWarehouses else s_warehouses d)
     | Rejected =>
         App.items st' = initialItems
         /\ App.warehouses st' = initialWarehouses
         /\ App.categories st' = initialCategories
         /\ App.transactions st' = App.transactions st
         /\ App.notifications st' = App.notifications st
     end
  /\ (initialItems <> [] -> App.items st' <> []).
Proof.
  cbv zeta. unfold mountEffect.
  destruct (load_keeps d) as (o & [E|E]); rewrite E; simpl.
  - destruct (s_items d) as [|i its] eqn:I; simpl.
    + destruct (seed initialItems initialWarehouses initialCategories (withOutcomes o d))
        as [[u|] d2]; simpl; repeat split; auto; try discriminate.
    + repeat split; auto. discriminate.
  - repeat split; auto.
Qed.

Lemma load_quiet (d : Disk T) :
  s_outcomes d = [] ->
  loadPersistedState d
  = (Resolved (mkPersisted (s_items d) (s_warehouses d) (s_categories d)
                           (s_transactions d) (s_notifications d)), d).
Proof.
  intros H. unfold loadPersistedState, both, dbGetAll, bind.
  repeat (rewrite (request_quiet d H); cbv beta iota zeta). reflexivity.
Qed.

Lemma not_empty_putAll {V} (keyOf : V -> string) (values : list V) :
  values <> [] -> isEmpty (putAll keyOf values []) = false.
Proof.
  intros H. destruct (putAll keyOf values []) as [|x l] eqn:E; [|reflexivity].
  exfalso. destruct values as [|v vs]; [contradiction|].
  assert (F : find (hasKey keyOf (keyOf v)) (putAll keyOf (v :: vs) []) <> None).
  { rewrite find_putAll. unfold lastWith. simpl.
    destruct (find (hasKey keyOf (keyOf v)) (rev vs)) eqn:F.
    - rewrite (find_app_some _ _ _ _ F). discriminate.
    - rewrite (find_app_none _ _ _ F). simpl. unfold hasKey.
      rewrite String.eqb_refl. discriminate. }
  rewrite E in F. contradiction F. reflexivity.
Qed.

(** X17. What the [persist*] functions wrote one after the other, no
    request failing, is what the next start puts in the state, in the
    order of the ids: the items (when there are some), transactions
    and notifications are the persisted ones up to their order when
    their ids are distinct, and nothing is seeded. *)
Theorem restart_restores_persisted_state (st0 st : App.State) (d : Disk T) :
  s_outcomes d = [] -> App.items st0 <> [] ->
  NoDup (map i_id (App.items st0)) ->
  NoDup (map t_id (App.transactions st0)) ->
  NoDup (map n_id (App.notifications st0)) ->
  let d5 := snd (persistNotifications (App.notifications st0)
             (snd (persistTransactions (App.transactions st0)
               (snd (persistCategories (App.categories st0)
                 (snd (persistWarehouses (App.warehouses st0)
                   (snd (persistItems (App.items st0) d))))))))) in
  let r := mountEffect initialItems initialWarehouses initialCategories st d5 in
  let st' := fst (fst r) in
  snd r = d5
  /\ Permutation (App.items st0) (App.items st') /\ ascending i_id (App.items st')
  /\ Permutation (App.transactions st0) (App.transactions st')
  /\ ascending t_id (App.transactions st')
  /\ Permutation (App.notifications st0) (App.notifications st')
  /\ ascending n_id (App.notifications st').
Proof.
  intros H Hne Hi Ht Hn. cbv zeta.
  unfold persistItems, persistWarehouses, persistCategories, persistTransactions,
    persistNotifications.
  rewrite (persist_quiet items _ d H). simpl snd.
  match goal with
  | |- context [persist warehouses ?v ?d0] => rewrite (persist_quiet warehouses v d0 H)
  end. simpl snd.
  match goal with
  | |- context [persist categories ?v ?d0] => rewrite (persist_quiet categories v d0 H)
  end. simpl snd.
  match goal with
  | |- context [persist transactions ?v ?d0] => rewrite (persist_quiet transactions v d0 H)
  end. simpl snd.
  match goal with
  | |- context [persist notifications ?v ?d0] =>
      rewrite (persist_quiet notifications v d0 H)
  end. simpl snd.
  unfold mountEffect. rewrite load_quiet by exact H. simpl.
  rewrite !(not_empty_putAll i_id _ Hne). simpl.
  rewrite ?(not_empty_putAll i_id _ Hne).
  split; [reflexivity|].
  repeat split;
    try (apply putAll_ascending; constructor);
    match goal with
    | |- Permutation ?l _ =>
        rewrite <- (app_nil_r l) at 1; apply putAll_perm; [assumption|]; intros k _ []
    end.
Qed.

End Startup.

Lemma restart_restores_persisted_state_witness :
  let st0 := Sample.withTransactions
               [Sample.request STOCK_OUT "TX-2" None 3;
                Sample.request TRANSFER "TR-9" (Some "wh-2") 1] Db.emptyDB in
  let d := Stores.mkDisk [] [] [] [] [] ([] : list (Stores.Entry string)) [] in
  let d5 := snd (Stores.persistNotifications (App.notifications st0)
             (snd (Stores.persistTransactions (App.transactions st0)
               (snd (Stores.persistCategories (App.categories st0)
                 (snd (Stores.persistWarehouses (App.warehouses st0)
                   (snd (Stores.persistItems (App.items st0) d))))))))) in
  map t_id (App.transactions
              (fst (fst (Stores.mountEffect [] [] [] (Sample.withTransactions [] Db.emptyDB)
                           d5))))
  = ["TR-9"; "TX-2"]
  /\ Permutation (App.transactions st0)
       (App.transactions
          (fst (fst (Stores.mountEffect [] [] [] (Sample.withTransactions [] Db.emptyDB)
                       d5)))).
Proof.
  cbv zeta. split; [reflexivity|].
  pose proof (restart_restores_persisted_state [] [] []
    (Sample.withTransactions
       [Sample.request STOCK_OUT "TX-2" None 3;
        Sample.request TRANSFER "TR-9" (Some "wh-2") 1] Db.emptyDB)
    (Sample.withTransactions [] Db.emptyDB)
    (Stores.mkDisk [] [] [] [] [] ([] : list (Stores.Entry string)) [])) as H.
  cbv zeta in H. destruct H as (_ & _ & _ & Hp & _).
  - reflexivity.
  - discriminate.
  - repeat constructor. intros [].
  - repeat constructor; simpl; [intros [E|[]]; discriminate E | intros []].
  - constructor.
  - exact Hp.
Defined.

Section KeyValue.
Import Db Stores.

Lemma find_without {V : Type} (keyOf : V -> string) (k k' : string) (l : list V) :
  find (hasKey keyOf k') (filter (fun v => negb (hasKey keyOf k v)) l)
  = if String.eqb k k' then None else find (hasKey keyOf k') l.
Proof.
  unfold hasKey. induction l as [|a l IH]; simpl.
  - destruct (String.eqb k k'); reflexivity.
  - destruct (String.eqb_spec (keyOf a) k) as [Ea|Na]; simpl.
    + rewrite IH. destruct (String.eqb_spec k k') as [E|N]; [reflexivity|].
      destruct (String.eqb_spec (keyOf a) k'); [congruence | reflexivity].
    + rewrite IH. destruct (String.eqb_spec (keyOf a) k') as [Ea'|Na'].
      * destruct (String.eqb_spec k k'); [congruence | reflexivity].
      * reflexivity.
Qed.

(** X18. With no failing request, [get] after [put] yields the record
    put under its key and what was there under any other; after
    [delete] of a key, [get] of it yields nothing and the other keys
    are as before.  So [getAppState] after [setAppState] of a key
    yields the value set, and the other keys keep theirs. *)
Theorem store_round_trips {T V : Type} (s : StoreName T V) (v : V) (x : T)
  (k k' : string) (d : Disk T) :
  s_outcomes d = [] ->
  fst (dbGet s k (snd (dbPut s v d)))
  = (if String.eqb (keyPath s v) k then Resolved (Some v) else fst (dbGet s k d))
  /\ fst (dbGet s k' (snd (dbDelete s k d)))
     = (if String.eqb k k' then Resolved None else fst (dbGet s k' d))
  /\ fst (getAppState k' (snd (setAppState k x d)))
     = (if String.eqb k k' then Resolved (Some x) else fst (getAppState k' d)).
Proof.
  intros H.
  assert (G : forall V' (s' : StoreName T V') q,
             dbGet s' q d = (Resolved (find (hasKey (keyPath s') q) (records s' d)), d))
    by (intros; unfold dbGet, bind; rewrite (request_quiet d H); reflexivity).
  assert (G' : forall V' (s' : StoreName T V') q l,
             dbGet s' q (withRecords s' l d)
             = (Resolved (find (hasKey (keyPath s') q) l), withRecords s' l d)).
  { intros. unfold dbGet, bind.
    rewrite request_quiet by (rewrite outcomes_withRecords; exact H).
    rewrite records_withRecords. reflexivity. }
  split; [|split].
  - unfold dbPut, bind. rewrite (request_quiet d H). simpl snd.
    rewrite G', G, find_put. simpl. destruct (String.eqb (keyPath s v) k); reflexivity.
  - unfold dbDelete, bind. rewrite (request_quiet d H). simpl snd.
    rewrite G', G, find_without. simpl. destruct (String.eqb k k'); reflexivity.
  - assert (A : forall q (d0 : Disk T), s_outcomes d0 = [] ->
               fst (getAppState q d0)
               = Resolved (option_map value (find (hasKey key q) (s_appState d0)))).
    { intros q d0 H0. unfold getAppState, dbGet, bind.
      rewrite (request_quiet d0 H0). reflexivity. }
    unfold setAppState, dbPut, bind. rewrite (request_quiet d H). simpl snd.
    rewrite A by exact H.
    rewrite (A k' d H). simpl s_appState. rewrite find_put. simpl.
    destruct (String.eqb k k'); reflexivity.
Qed.

Lemma store_round_trips_witness :
  fst (getAppState "theme"
         (snd (setAppState "theme" "dark"
                 (mkDisk [] [] [] [] [] [mkEntry "lang" "en"; mkEntry "theme" "light"] []))))
  = Resolved (Some "dark").
Proof.
  exact (proj2 (proj2 (store_round_trips items Sample.widget "dark" "theme" "theme"
                         (mkDisk [] [] [] [] [] [mkEntry "lang" "en"; mkEntry "theme" "light"] [])
                         eq_refl))).
Defined.

End KeyValue.

(** ** The banner of the connection *)

Section Banners.
Import Db Queue Hook Session Banner.

Lemma syncNow_empty cb w :
  wellFormed (db w) = true -> outcomes (db w) = [] -> pendingOf (db w) = [] ->
  syncNow (Some cb) w = (Resolved tt, setPendingCount 0 w).
Proof.
  intros Hwf Ho He. unfold syncNow. rewrite getPending_ok by assumption.
  rewrite He. simpl. unfold setPendingCount, setDb. simpl.
  destruct w as [d on sy pc lg]. simpl in *. destruct d as [q kg o]. simpl in *.
  subst o. reflexivity.
Qed.

Lemma step_count w enq e :
  replayedOnce w enq -> succeeds e -> isSyncing w = false -> pendingCount w = 0%nat ->
  isSyncing (step w e) = false /\ pendingCount (step w e) = 0%nat.
Proof.
  intros (Hwf & Ho & _) Hs Hsy Hpc. destruct e as [a|cb|]; simpl.
  - auto.
  - unfold handleOnline.
    destruct (pendingOf (db (setIsOnline true w))) as [|x l] eqn:Hp.
    + rewrite syncNow_empty by assumption. auto.
    + rewrite syncNow_batch by (try assumption; simpl in *; congruence).
      simpl. simpl in Hs. rewrite Hs. auto.
  - auto.
Qed.

Lemma run_count events : forall w enq,
  replayedOnce w enq -> Forall succeeds events ->
  isSyncing w = false -> pendingCount w = 0%nat ->
  isSyncing (fold_left step events w) = false
  /\ pendingCount (fold_left step events w) = 0%nat.
Proof.
  induction events as [|e events IH]; intros w enq Hr Hs Hsy Hpc; simpl; [auto|].
  inversion Hs as [|? ? He Hs']; subst.
  destruct (step_count w enq e Hr He Hsy Hpc) as [H1 H2].
  apply (IH (step w e) _ (step_replayedOnce w enq e Hr) Hs' H1 H2).
Qed.

Lemma mounted_replayedOnce online : replayedOnce (mounted online []) [].
Proof.
  unfold replayedOnce, mounted. simpl. split; [reflexivity|]. split; [reflexivity|].
  exists [], []. simpl. repeat split; auto; constructor.
Qed.

(** X19. In a session on a store whose requests succeed and whose
    replay callbacks do not throw (as [handleSync] of [App]), the
    pending count is 0 and nothing is syncing after every event: the
    banner is hidden when online, and when offline it is the offline
    message without the badge of the pending count, however many
    actions are queued. *)
Theorem banner_never_counts_queued_actions (online : bool) (events : list Event) :
  Forall succeeds events ->
  let w := run online [] events in
  pendingCount w = 0%nat /\ isSyncing w = false
  /\ bannerOf w = (if isOnline w then None else Some (Rose, [OfflineMessage None])).
Proof.
  intros Hs w.
  destruct (run_count events (mounted online []) [] (mounted_replayedOnce online) Hs
              eq_refl eq_refl) as [H1 H2].
  fold (run online [] events) in H1, H2. fold w in H1, H2.
  split; [assumption|]. split; [assumption|].
  unfold bannerOf, OfflineBanner. rewrite H1, H2. destruct (isOnline w); reflexivity.
Qed.

Lemma banner_never_counts_queued_actions_witness :
  let w := run true [] [WentOffline; Enqueued Sample.actionA; Enqueued Sample.actionB] in
  List.length (pendingOf (db w)) = 2%nat
  /\ bannerOf w = Some (Rose, [OfflineMessage None]).
Proof.
  cbv zeta. split; [reflexivity|].
  assert (Hs : Forall succeeds
                 [WentOffline; Enqueued Sample.actionA; Enqueued Sample.actionB])
    by (repeat constructor).
  exact (proj2 (proj2 (banner_never_counts_queued_actions true
                         [WentOffline; Enqueued Sample.actionA; Enqueued Sample.actionB]
                         Hs))).
Defined.

(** X20. After a cycle whose replay callback throws on a non-empty
    batch, the requests succeeding, the banner is the green bar with no
    text in it: the pending count keeps the size of the batch although
    no action is PENDING any more.  And whatever its arguments, the
    banner never shows the message that all changes are synced. *)
Theorem failed_cycle_shows_empty_green_banner (cb : Callback) (w : World) :
  wellFormed (db w) = true -> outcomes (db w) = [] ->
  pendingOf (db w) <> [] -> cb (pendingOf (db w)) = false ->
  let w' := snd (handleOnline (Some cb) w) in
  bannerOf w' = Some (Emerald, [])
  /\ pendingOf (db w') = []
  /\ pendingCount w' = List.length (pendingOf (db w))
  /\ forall o s p c msgs, OfflineBanner o s p = Some (c, msgs) -> ~ In AllSynced msgs.
Proof.
  intros Hwf Ho Hne Hcb w'. unfold w', handleOnline.
  rewrite syncNow_batch by assumption. simpl. rewrite Hcb.
  split; [|split; [|split]].
  - unfold bannerOf, OfflineBanner. simpl.
    destruct (pendingOf (db w)) as [|a l]; [contradiction Hne; reflexivity|]. reflexivity.
  - unfold pendingOf. simpl. apply none_pending_after. reflexivity.
  - reflexivity.
  - intros o s p c msgs H. unfold OfflineBanner in H.
    destruct o, s; simpl in H; try (injection H as _ <-; simpl; intuition discriminate).
    destruct (Nat.eqb p 0); [discriminate|]. injection H as _ <-. intros [].
Qed.

Lemma failed_cycle_shows_empty_green_banner_witness :
  let w := run false [] [Enqueued Sample.actionA] in
  bannerOf (snd (handleOnline (Some Sample.allFail) w)) = Some (Emerald, []).
Proof.
  assert (Hne : pendingOf (db (run false [] [Enqueued Sample.actionA])) <> [])
    by (vm_compute; discriminate).
  exact (proj1 (failed_cycle_shows_empty_green_banner Sample.allFail
                  (run false [] [Enqueued Sample.actionA]) eq_refl eq_refl Hne eq_refl)).
Defined.

End Banners.

(** ** The Code 39 labels *)

Section Labels.
Import BarcodeLabel.

Lemma kept_coded (c : ascii) : kept c = true -> coded c = true.
Proof.
  destruct c as [[] [] [] [] [] [] [] []]; vm_compute; intros H;
    first [reflexivity | discriminate H].
Qed.

Lemma coded_wellDrawn (c : ascii) : coded c = true -> wellDrawn c = true.
Proof.
  destruct c as [[] [] [] [] [] [] [] []]; vm_compute; intros H;
    first [reflexivity | discriminate H].
Qed.

Lemma elements_shift (pattern : string) : forall i x0,
  elements pattern i x0
  = (map (shift x0) (fst (elements pattern i 0)), x0 + snd (elements pattern i 0)).
Proof.
  induction pattern as [|b rest IH]; intros i x0; simpl.
  - f_equal. lia.
  - set (width := if Ascii.eqb b "1" then WIDE else NARROW).
    rewrite (IH (S i) (x0 + width)), (IH (S i) width). simpl.
    apply f_equal2; [|lia]. apply f_equal2.
    + reflexivity.
    + rewrite map_map. apply map_ext. intros a. unfold shift. simpl.
      apply f_equal3; [lia | reflexivity | reflexivity].
Qed.

Lemma filter_shift d l : filter bar (map (shift d) l) = map (shift d) (filter bar l).
Proof.
  induction l as [|a l IH]; simpl; [reflexivity|].
  destruct (bar a); simpl; rewrite IH; reflexivity.
Qed.

Lemma readPattern_shift d b1 b2 b3 b4 b5 :
  readPattern (shift d b1) (shift d b2) (shift d b3) (shift d b4) (shift d b5)
  = readPattern b1 b2 b3 b4 b5.
Proof.
  unfold readPattern, shift. simpl.
  repeat match goal with
         | |- context [?a + d - (?b + d + ?c)] =>
             replace (a + d - (b + d + c)) with (a - (b + c)) by lia
         end.
  reflexivity.
Qed.

(** One character drawn with the pen at [x0]. *)
Lemma drawn_char (c : ascii) (x0 : Z) :
  coded c = true ->
  exists b1 b2 b3 b4 b5,
    filter bar (fst (elements (patternOf c) 0 x0)) = [b1; b2; b3; b4; b5]
    /\ charOf (readPattern b1 b2 b3 b4 b5) = Some c
    /\ snd (elements (patternOf c) 0 x0) = x0 + 27.
Proof.
  intros Hc. apply coded_wellDrawn in Hc. unfold wellDrawn in Hc.
  rewrite (elements_shift (patternOf c) 0 x0). simpl fst. simpl snd.
  rewrite filter_shift.
  destruct (filter bar (fst (elements (patternOf c) 0 0)))
    as [|b1 [|b2 [|b3 [|b4 [|b5 [|b6 l]]]]]]; try discriminate Hc.
  apply andb_prop in Hc. destruct Hc as [Hc H27]. apply andb_prop in Hc.
  destruct Hc as [Hr Hch]. apply String.eqb_eq in Hr. apply Z.eqb_eq in H27.
  exists (shift x0 b1), (shift x0 b2), (shift x0 b3), (shift x0 b4), (shift x0 b5).
  split; [reflexivity|]. split; [|lia].
  rewrite readPattern_shift, Hr.
  destruct (charOf (patternOf c)) as [c'|]; [|discriminate Hch].
  apply Ascii.eqb_eq in Hch. congruence.
Qed.

Lemma place_chars (cs : list ascii) : forall x0,
  Forall (fun c => coded c = true) cs -> cs <> [] ->
  scan (filter bar (fst (place (map patternOf cs) x0))) = Some (string_of_list_ascii cs)
  /\ List.length (filter bar (fst (place (map patternOf cs) x0))) = (5 * List.length cs)%nat
  /\ snd (place (map patternOf cs) x0) = x0 + 30 * Z.of_nat (List.length cs) - 3.
Proof.
  induction cs as [|c cs IH]; intros x0 Hall Hne; [contradiction Hne; reflexivity|].
  inversion Hall as [|? ? Hc Hall']; subst.
  destruct (drawn_char c x0 Hc) as (b1 & b2 & b3 & b4 & b5 & Hf & Hr & Hx).
  cbn [map place].
  destruct (elements (patternOf c) 0 x0) as [bars x1] eqn:E. simpl in Hf, Hx. subst x1.
  destruct cs as [|c' cs'].
  - cbn [map place fst snd]. rewrite app_nil_r, Hf. cbn [scan List.length].
    rewrite Hr. repeat split; lia.
  - set (rest := c' :: cs') in *.
    assert (Hrest : rest <> []) by discriminate.
    destruct (IH (x0 + 27 + GAP) Hall' Hrest) as (Hs & Hl & Hw).
    replace (match map patternOf rest with
             | [] => x0 + 27
             | _ :: _ => x0 + 27 + GAP
             end) with (x0 + 27 + GAP) by reflexivity.
    destruct (place (map patternOf rest) (x0 + 27 + GAP)) as [bars' x3].
    cbn [fst snd] in Hs, Hl, Hw |- *.
    rewrite filter_app, Hf. split; [|split].
    + cbn [app scan]. rewrite Hr, Hs. reflexivity.
    + rewrite length_app, Hl. cbn [List.length]. lia.
    + rewrite Hw. unfold GAP. cbn [List.length]. lia.
Qed.

Lemma strip_coded (s : string) :
  Forall (fun c => coded c = true) (list_ascii_of_string (strip s)).
Proof.
  induction s as [|c r IH]; simpl; [constructor|].
  destruct (kept c) eqn:K; [|assumption]. simpl. constructor; [|assumption].
  apply kept_coded. assumption.
Qed.

Lemma list_ascii_app (s t : string) :
  list_ascii_of_string (s ++ t) = (list_ascii_of_string s ++ list_ascii_of_string t)%list.
Proof. induction s as [|c r IH]; simpl; [reflexivity|]. rewrite IH. reflexivity. Qed.

Lemma framed_coded (text : string) :
  Forall (fun c => coded c = true) (list_ascii_of_string (framed text)).
Proof.
  unfold framed. simpl. constructor; [reflexivity|].
  rewrite list_ascii_app. apply Forall_app. split; [apply strip_coded|].
  constructor; [reflexivity | constructor].
Qed.

(** X21. The bars drawn for a text of ASCII read back as the text in
    upper case, stripped of the characters Code 39 lacks, between the
    two asterisks; and an asterisk of the text is never drawn. *)
Theorem code39_reads_back (text : string) :
  isAscii text = true ->
  scan (fst (renderCode39 text)) = Some (framed text)
  /\ Js.avoids "*" (strip (toUpperCase text)) = true.
Proof.
  intros _. split.
  - unfold renderCode39, encoded.
    destruct (place_chars (list_ascii_of_string (framed text)) 0 (framed_coded text))
      as (Hs & _); [unfold framed; simpl; discriminate|].
    destruct (place (map patternOf (list_ascii_of_string (framed text))) 0) as [bars tw].
    cbn [fst snd] in *. rewrite Hs, string_of_list_ascii_of_string. reflexivity.
  - induction (toUpperCase text) as [|c r IH]; simpl; [reflexivity|].
    destruct (kept c) eqn:K; [|assumption]. simpl. rewrite IH, andb_true_r.
    destruct (Ascii.eqb_spec c "*"); [subst c; discriminate K | reflexivity].
Qed.

Lemma code39_reads_back_witness :
  scan (fst (renderCode39 "mnl-wid-42*")) = Some "*MNL-WID-42*".
Proof.
  exact (proj1 (code39_reads_back "mnl-wid-42*" eq_refl)).
Defined.

(** X22. For a text of ASCII of which [k] characters are kept, the
    renderer draws [5 (k + 2)] bars, and the width of the drawing is
    [30 (k + 2) - 3]: every character takes 27 units, three of its nine
    elements being wide, and a gap of 3 follows all but the last. *)
Theorem code39_width (text : string) :
  isAscii text = true ->
  let n := String.length (framed text) in
  List.length (fst (renderCode39 text)) = (5 * n)%nat
  /\ snd (renderCode39 text) = 30 * Z.of_nat n - 3
  /\ n = S (S (String.length (strip (toUpperCase text)))).
Proof.
  intros _ n. unfold renderCode39, encoded.
  destruct (place_chars (list_ascii_of_string (framed text)) 0 (framed_coded text))
    as (_ & Hl & Hw); [unfold framed; simpl; discriminate|].
  destruct (place (map patternOf (list_ascii_of_string (framed text))) 0) as [bars tw].
  cbn [fst snd] in *.
  assert (Hn : List.length (list_ascii_of_string (framed text)) = n).
  { unfold n. generalize (framed text). intros s.
    induction s as [|c r IH]; simpl; [reflexivity|]. rewrite IH. reflexivity. }
  rewrite Hn in Hl, Hw. split; [assumption|]. split; [lia|].
  unfold n, framed. cbn [String.append String.length]. f_equal.
  generalize (strip (toUpperCase text)). intros s.
  induction s as [|c r IH]; simpl; [reflexivity|]. rewrite IH. reflexivity.
Qed.

Lemma code39_width_witness :
  snd (renderCode39 "mnl-wid-42*") = 30 * 12 - 3.
Proof.
  exact (proj1 (proj2 (code39_width "mnl-wid-42*" eq_refl))).
Defined.

End Labels.

(** ** The presets of the transfer modal *)

Section PresetButtons.
Import Js Presets.

Lemma val_bounds (item : Item) (pct : Z) :
  In pct presets ->
  (1 <= i_quantity item -> 1 <= val item pct <= i_quantity item)
  /\ (i_quantity item <= 0 -> val item pct = 1)
  /\ (1 <= i_quantity item -> val item 100 = i_quantity item).
Proof.
  intros Hp. unfold val, roundHundredth. set (q := i_quantity item).
  assert (Hpct : 25 <= pct <= 100)
    by (simpl in Hp; destruct Hp as [<-|[<-|[<-|[<-|[]]]]]; lia).
  split; [|split].
  - intros Hq. split; [lia|]. apply Z.max_lub; [assumption|].
    apply Z.lt_succ_r. apply Z.div_lt_upper_bound; nia.
  - intros Hq. apply Z.max_l. apply Z.lt_succ_r.
    apply Z.div_lt_upper_bound; nia.
  - intros Hq. replace (q * 100 + 50) with (50 + q * 100) by lia.
    rewrite Z.div_add by lia. change (50 / 100) with 0. lia.
Qed.

(** X23. In the transfer modal of an item in stock, a click on one of
    the four presets followed by the submission, a target being
    selected, is accepted with a quantity between 1 and the stock of
    the item, the whole stock for the preset of 100; for an item with
    no stock every preset gives 1, which is refused. *)
Theorem transfer_preset_is_accepted {A : Type} (item : Item) (pct : Z)
  (onConfirm : string -> Z -> A -> A) (form : TransferItemModal.Form) (parent : A) :
  In pct presets -> TransferItemModal.targetWhId form <> "" ->
  let form' := selectPreset item pct form in
  (1 <= i_quantity item ->
   1 <= val item pct <= i_quantity item
   /\ val item 100 = i_quantity item
   /\ TransferItemModal.validateAndConfirm item onConfirm form' parent
      = (form', onConfirm (TransferItemModal.targetWhId form) (val item pct) parent))
  /\ (i_quantity item <= 0 ->
      snd (TransferItemModal.validateAndConfirm item onConfirm form' parent) = parent
      /\ TransferItemModal.error
           (fst (TransferItemModal.validateAndConfirm item onConfirm form' parent))
         <> None).
Proof.
  intros Hp Ht form'. destruct (val_bounds item pct Hp) as (H1 & H0 & H100).
  unfold TransferItemModal.validateAndConfirm, form', selectPreset. simpl.
  rewrite parseIntOr0_showZ.
  destruct (String.eqb_spec (TransferItemModal.targetWhId form) "") as [E|_];
    [contradiction|].
  split.
  - intros Hq. specialize (H1 Hq). split; [assumption|]. split; [auto|].
    destruct (Z.leb_spec (val item pct) 0); [lia|].
    destruct (Z.ltb_spec (i_quantity item) (val item pct)); [lia|]. reflexivity.
  - intros Hq. rewrite (H0 Hq). simpl.
    destruct (Z.ltb_spec (i_quantity item) 1); [|lia]. simpl. split; [reflexivity|].
    discriminate.
Qed.

Lemma transfer_preset_is_accepted_witness :
  TransferItemModal.validateAndConfirm Sample.widget
    (fun (target : string) (qty : Z) (log : list (string * Z)) => (target, qty) :: log)
    (selectPreset Sample.widget 75 (TransferItemModal.mkForm "wh-2" "1" None)) []
  = (TransferItemModal.mkForm "wh-2" "8" None, [("wh-2", 8)]).
Proof.
  assert (Hp : In 75 presets) by (simpl; auto).
  assert (Ht : TransferItemModal.targetWhId (TransferItemModal.mkForm "wh-2" "1" None) <> "")
    by discriminate.
  assert (Hq : 1 <= i_quantity Sample.widget) by (vm_compute; discriminate).
  exact (proj2 (proj2 (proj1 (transfer_preset_is_accepted Sample.widget 75
                                (fun (target : string) (qty : Z) (log : list (string * Z)) =>
                                   (target, qty) :: log)
                                (TransferItemModal.mkForm "wh-2" "1" None) [] Hp Ht) Hq))).
Defined.

End PresetButtons.

(** ** The service worker *)

Section Worker.
Import ServiceWorker.

Lemma match_replaceOrAdd u r c u' :
  cacheMatch (replaceOrAdd u r c) u'
  = if String.eqb u u' then Some r else cacheMatch c u'.
Proof.
  unfold cacheMatch. induction c as [|[k v] c IH]; simpl.
  - destruct (String.eqb u u'); reflexivity.
  - destruct (String.eqb_spec k u) as [->|Hk]; simpl.
    + destruct (String.eqb u u'); reflexivity.
    + destruct (String.eqb_spec k u') as [->|Hk'].
      * destruct (String.eqb_spec u u'); [congruence | reflexivity].
      * exact IH.
Qed.

Lemma match_cachePut_kept u r c u' :
  cacheMatch c u' <> None -> cacheMatch (cachePut u r c) u' <> None.
Proof.
  intros H. unfold cachePut. destruct (status r =? 206)%N; [assumption|].
  rewrite match_replaceOrAdd. destruct (String.eqb u u'); [discriminate | assumption].
Qed.

Lemma in_openCache name e cs : In e cs -> In e (openCache name cs).
Proof.
  unfold openCache. destruct (hasCache name cs); [auto|]. intros H.
  apply in_or_app. left. assumption.
Qed.

Lemma holds_putIn name u name' u' r w :
  holds name u (caches w) -> holds name u (caches (putIn name' u' r w)).
Proof.
  intros (c & Hin & Hm). unfold putIn. simpl.
  destruct (String.eqb name name') eqn:E.
  - exists (cachePut u' r c). split; [|apply match_cachePut_kept; assumption].
    apply in_map_iff. exists (name, c). simpl. rewrite E.
    split; [reflexivity | apply in_openCache; assumption].
  - exists c. split; [|assumption].
    apply in_map_iff. exists (name, c). simpl. rewrite E.
    split; [reflexivity | apply in_openCache; assumption].
Qed.

Lemma holds_fetch name u w : holds name u (caches w) -> holds name u (caches (snd (fetch w))).
Proof. unfold fetch. destruct (network w); auto. Qed.

Lemma caches_fetch w : caches (snd (fetch w)) = caches w.
Proof. unfold fetch. destruct (network w); reflexivity. Qed.

Lemma holds_open name u name' cs : holds name u cs -> holds name u (openCache name' cs).
Proof. intros (c & Hin & Hm). exists c. split; [apply in_openCache|]; assumption. Qed.

Lemma holds_onFetch location request name u w :
  holds name u (caches w) -> holds name u (caches (snd (onFetch location request w))).
Proof.
  intros H. unfold onFetch.
  destruct (negb (String.eqb (method request) "GET")); [assumption|].
  destruct (negb (String.prefix "http" (url request))); [assumption|].
  destruct (String.eqb (mode request) "navigate").
  { pose proof (holds_fetch name u w H) as H1.
    destruct (fetch w) as [[response|] w1]; simpl in *.
    - apply holds_putIn. assumption.
    - destruct (cachesMatch (caches w1) (location ++ "/index.html")); [assumption|].
      pose proof (holds_fetch name u w1 H1) as H2.
      destruct (fetch w1) as [r w2]. assumption. }
  destruct (isCDN (url request)).
  { set (w0 := mkWorker (openCache RUNTIME_CACHE (caches w)) (network w)).
    assert (H0 : holds name u (caches w0)) by (apply holds_open; assumption).
    pose proof (holds_fetch name u w0 H0) as H1.
    destruct (cacheMatch (cacheOf RUNTIME_CACHE (caches w0)) (url request));
      destruct (fetch w0) as [[fresh|] w1]; simpl in *;
      try (apply holds_putIn); assumption. }
  destruct (String.eqb (origin request) location).
  { destruct (cachesMatch (caches w) (url request)); [assumption|].
    pose proof (holds_fetch name u w H) as H1.
    destruct (fetch w) as [[response|] w1]; simpl in *;
      try (apply holds_putIn); assumption. }
  pose proof (holds_fetch name u w H) as H1.
  destruct (fetch w) as [[response|] w1]; assumption.
Qed.

Lemma holds_fetchAll name u urls : forall w,
  holds name u (caches w) -> holds name u (caches (snd (fetchAll urls w))).
Proof.
  induction urls as [|x urls IH]; intros w H; simpl; [assumption|].
  pose proof (holds_fetch name u w H) as H1. destruct (fetch w) as [r w1]. simpl in H1.
  specialize (IH w1 H1). destruct (fetchAll urls w1) as [rs w2]. assumption.
Qed.

Lemma holds_stored location name u name' rs : forall w,
  holds name u (caches w) ->
  holds name u (caches (fold_left (store location name') rs w)).
Proof.
  induction rs as [|e rs IH]; intros w H; simpl; [assumption|].
  apply IH. unfold store. destruct (snd e); [apply holds_putIn|]; assumption.
Qed.

Lemma holds_onInstall location name u w :
  holds name u (caches w) -> holds name u (caches (onInstall location w)).
Proof.
  intros H. unfold onInstall, addAll.
  set (w0 := mkWorker (openCache CACHE_NAME (caches w)) (network w)).
  assert (H0 : holds name u (caches w0)) by (apply holds_open; assumption).
  pose proof (holds_fetchAll name u APP_SHELL w0 H0) as H1.
  destruct (fetchAll APP_SHELL w0) as [rs w1]. simpl in H1.
  destruct (forallb accepted rs); [apply holds_stored|]; assumption.
Qed.

Lemma holds_onActivate u w :
  holds CACHE_NAME u (caches w) -> holds CACHE_NAME u (caches (onActivate w)).
Proof.
  intros (c & Hin & Hm). exists c. split; [|assumption].
  unfold onActivate. simpl. apply filter_In. split; [assumption | reflexivity].
Qed.

Lemma holds_step location u w e :
  holds CACHE_NAME u (caches w) -> holds CACHE_NAME u (caches (step location w e)).
Proof.
  intros H. destruct e as [net| |request net]; simpl.
  - apply holds_onInstall. assumption.
  - apply holds_onActivate. assumption.
  - apply holds_onFetch. assumption.
Qed.

Lemma holds_run location u events : forall w,
  holds CACHE_NAME u (caches w) ->
  holds CACHE_NAME u (caches (fold_left (step location) events w)).
Proof.
  induction events as [|e events IH]; intros w H; simpl; [assumption|].
  apply IH, holds_step. assumption.
Qed.

Lemma holds_matches name u cs : holds name u cs -> cachesMatch cs u <> None.
Proof.
  intros (c & Hin & Hm). induction cs as [|e cs IH]; simpl; [contradiction|].
  destruct (cacheMatch (snd e) u) eqn:E; [discriminate|].
  destruct Hin as [->|Hin]; [simpl in E; contradiction | auto].
Qed.

Lemma append_inj (p a b : string) : p ++ a = p ++ b -> a = b.
Proof. induction p as [|c p IH]; simpl; intros H; [assumption|]. injection H. auto. Qed.

Lemma installed location root shell :
  addable root = true -> addable shell = true ->
  caches (onInstall location (mkWorker [] [Some root; Some shell]))
  = [(CACHE_NAME, [(location ++ "/", root); (location ++ "/index.html", shell)])].
Proof.
  intros Hr Hs. unfold onInstall, addAll, accepted. simpl. rewrite Hr, Hs. simpl.
  unfold store, putIn, cachePut. simpl.
  unfold addable in Hr, Hs. apply andb_prop in Hr, Hs.
  destruct Hr as [_ Hr], Hs as [_ Hs]. apply negb_true_iff in Hr, Hs.
  rewrite Hr, Hs. simpl.
  destruct (String.eqb_spec (location ++ "/") (location ++ "/index.html")) as [E|_];
    [apply append_inj in E; discriminate E | reflexivity].
Qed.

(** X24. Once the install listener has stored the application shell,
    then whatever install, activate and fetch events follow, with
    whatever network, a navigation to any http URL made offline is
    answered from the caches with the entry of "/index.html", and
    leaves the worker as it is; straight after the install the answer
    is the shell that was fetched. *)
Theorem installed_worker_answers_navigation_offline (location : string)
  (root shell : Response) (events : list Event) (request : Request) :
  addable root = true -> addable shell = true ->
  method request = "GET" -> String.prefix "http" (url request) = true ->
  mode request = "navigate" ->
  let w := fold_left (step location) events
             (onInstall location (mkWorker [] [Some root; Some shell])) in
  (exists r,
     cachesMatch (caches w) (location ++ "/index.html") = Some r
     /\ onFetch location request (setNetwork [] w) = (Responded r, setNetwork [] w))
  /\ (events = [] ->
      fst (onFetch location request (setNetwork [] w)) = Responded shell).
Proof.
  intros Hr Hs Hm Hp Hn w.
  assert (F : forall w0 r, cachesMatch (caches w0) (location ++ "/index.html") = Some r ->
              onFetch location request (setNetwork [] w0)
              = (Responded r, setNetwork [] w0)).
  { intros w0 r Hc. unfold onFetch. rewrite Hm, Hp, Hn. simpl. rewrite Hc. reflexivity. }
  assert (H0 : holds CACHE_NAME (location ++ "/index.html")
                 (caches (onInstall location (mkWorker [] [Some root; Some shell])))).
  { rewrite installed by assumption.
    exists [(location ++ "/", root); (location ++ "/index.html", shell)].
    split; [left; reflexivity|]. unfold cacheMatch. simpl.
    destruct (String.eqb (location ++ "/") (location ++ "/index.html")); [discriminate|].
    rewrite String.eqb_refl. discriminate. }
  split.
  - pose proof (holds_matches _ _ _ (holds_run location _ events _ H0)) as Hc.
    fold w in Hc.
    destruct (cachesMatch (caches w) (location ++ "/index.html")) as [r|] eqn:E;
      [|contradiction Hc; reflexivity].
    exists r. split; [reflexivity | apply F; assumption].
  - intros ->. simpl in w. unfold w. rewrite (F _ shell); [reflexivity|].
    rewrite installed by assumption. unfold cachesMatch, cacheMatch. simpl.
    destruct (String.eqb_spec (location ++ "/") (location ++ "/index.html")) as [E|_];
      [apply append_inj in E; discriminate E|].
    rewrite String.eqb_refl. reflexivity.
Qed.

Lemma installed_worker_answers_navigation_offline_witness :
  fst (onFetch "https://nexus.example"
         (mkRequest "GET" "https://nexus.example/inventory/42" "navigate"
                    "https://nexus.example")
         (setNetwork []
            (onInstall "https://nexus.example"
               (mkWorker [] [Some (mkResponse 200 "root"); Some (mkResponse 200 "shell")]))))
  = Responded (mkResponse 200 "shell").
Proof.
  exact (proj2 (installed_worker_answers_navigation_offline "https://nexus.example"
                  (mkResponse 200 "root") (mkResponse 200 "shell") []
                  (mkRequest "GET" "https://nexus.example/inventory/42" "navigate"
                             "https://nexus.example")
                  eq_refl eq_refl eq_refl eq_refl eq_refl) eq_refl).
Defined.

Lemma prefix_trans (a : string) : forall b c,
  String.prefix a b = true -> String.prefix b c = true -> String.prefix a c = true.
Proof.
  induction a as [|x a IH]; intros [|y b] [|z c]; simpl; try congruence.
  destruct (ascii_dec x y) as [->|]; [|discriminate].
  destruct (ascii_dec y z) as [->|]; [|discriminate].
  destruct (ascii_dec z z); [|congruence]. apply IH.
Qed.

Lemma cdn_is_http (u : string) : isCDN u = true -> String.prefix "http" u = true.
Proof.
  unfold isCDN. intros H. apply existsb_exists in H. destruct H as (o & Hin & Hp).
  apply (prefix_trans "http" o u); [|assumption].
  simpl in Hin. destruct Hin as [<-|[<-|[<-|[<-|[]]]]]; reflexivity.
Qed.

Lemma cacheOf_open name cs : cacheOf name (openCache name cs) = cacheOf name cs.
Proof.
  unfold openCache, cacheOf, hasCache.
  destruct (existsb (fun e => String.eqb (fst e) name) cs) eqn:E; [reflexivity|].
  induction cs as [|e cs IH]; simpl in *.
  - rewrite String.eqb_refl. reflexivity.
  - apply orb_false_iff in E. destruct E as [E1 E2]. rewrite E1. auto.
Qed.

Lemma hasCache_open name cs : hasCache name (openCache name cs) = true.
Proof.
  unfold openCache. destruct (hasCache name cs) eqn:E; [assumption|].
  unfold hasCache. rewrite existsb_app. simpl. rewrite String.eqb_refl.
  apply orb_true_iff. right. reflexivity.
Qed.

Lemma cacheOf_map name u r cs :
  hasCache name cs = true ->
  cacheOf name
    (map (fun e => if String.eqb (fst e) name then (fst e, cachePut u r (snd e)) else e) cs)
  = cachePut u r (cacheOf name cs).
Proof.
  unfold cacheOf, hasCache. induction cs as [|e l IH]; simpl; [discriminate|].
  destruct (String.eqb (fst e) name) eqn:E; simpl; rewrite E; [reflexivity | exact IH].
Qed.

Lemma cacheOf_putIn name u r w :
  cacheOf name (caches (putIn name u r w)) = cachePut u r (cacheOf name (caches w)).
Proof.
  unfold putIn. simpl. rewrite cacheOf_map by apply hasCache_open.
  rewrite cacheOf_open. reflexivity.
Qed.

(** X25. A GET request for a URL of one of the CDN origins that the
    network answers (not with status 206) is answered with the cached
    copy if there is one, with the fresh response otherwise, and in
    both cases the same request made offline afterwards is answered
    with the fresh response.  Made offline with no copy in the runtime
    cache, it is answered with the 503 response of the worker, which is
    not cached. *)
Theorem cdn_asset_is_kept_for_offline (location : string) (request : Request)
  (fresh : Response) (w : Worker) :
  method request = "GET" -> mode request <> "navigate" -> isCDN (url request) = true ->
  status fresh <> 206%N ->
  let held := cacheMatch (cacheOf RUNTIME_CACHE (caches w)) (url request) in
  let online := onFetch location request (setNetwork [Some fresh] w) in
  let offline := onFetch location request (setNetwork [] w) in
  fst online = Responded (match held with Some cached => cached | None => fresh end)
  /\ fst (onFetch location request (setNetwork [] (snd online))) = Responded fresh
  /\ fst offline = Responded (match held with Some cached => cached | None => offlineResponse end)
  /\ cacheMatch (cacheOf RUNTIME_CACHE (caches (snd offline))) (url request) = held.
Proof.
  intros Hm Hn Hc Hs held online offline.
  assert (Hh := cdn_is_http _ Hc).
  assert (Hn' : String.eqb (mode request) "navigate" = false)
    by (apply String.eqb_neq; assumption).
  assert (Hs' : (status fresh =? 206)%N = false) by (apply N.eqb_neq; assumption).
  assert (F : forall w0,
    onFetch location request w0
    = let w1 := mkWorker (openCache RUNTIME_CACHE (caches w0)) (network w0) in
      match cacheMatch (cacheOf RUNTIME_CACHE (caches w0)) (url request) with
      | Some cached =>
          match fetch w1 with
          | (Some f, w2) => (Responded cached, putIn RUNTIME_CACHE (url request) f w2)
          | (None, w2) => (Responded cached, w2)
          end
      | None =>
          match fetch w1 with
          | (Some f, w2) => (Responded f, putIn RUNTIME_CACHE (url request) f w2)
          | (None, w2) => (Responded offlineResponse, w2)
          end
      end).
  { intros w0. unfold onFetch. rewrite Hm, Hh, Hn', Hc. simpl.
    rewrite cacheOf_open. reflexivity. }
  unfold online, offline.
  rewrite (F (setNetwork [Some fresh] w)), (F (setNetwork [] w)). simpl. fold held.
  assert (P : forall c, cacheMatch (cachePut (url request) fresh c) (url request)
                        = Some fresh).
  { intros c. unfold cachePut.
    rewrite Hs', match_replaceOrAdd, String.eqb_refl. reflexivity. }
  destruct held as [cached|] eqn:E; unfold fetch; simpl.
  - split; [reflexivity|]. split.
    + rewrite F. simpl. rewrite cacheOf_map by apply hasCache_open. rewrite P. reflexivity.
    + split; [reflexivity|]. rewrite cacheOf_open. exact E.
  - split; [reflexivity|]. split.
    + rewrite F. simpl. rewrite cacheOf_map by apply hasCache_open. rewrite P. reflexivity.
    + split; [reflexivity|]. rewrite cacheOf_open. exact E.
Qed.

Lemma cdn_asset_is_kept_for_offline_witness :
  let request := mkRequest "GET" "https://esm.sh/react" "cors" "https://esm.sh" in
  let w := mkWorker [] [] in
  fst (onFetch "https://nexus.example" request
         (setNetwork []
            (snd (onFetch "https://nexus.example" request
                    (setNetwork [Some (mkResponse 200 "react")] w)))))
  = Responded (mkResponse 200 "react").
Proof.
  cbv zeta.
  assert (Hn : mode (mkRequest "GET" "https://esm.sh/react" "cors" "https://esm.sh")
               <> "navigate") by discriminate.
  assert (Hs : status (mkResponse 200 "react") <> 206%N) by discriminate.
  exact (proj1 (proj2 (cdn_asset_is_kept_for_offline "https://nexus.example"
                         (mkRequest "GET" "https://esm.sh/react" "cors" "https://esm.sh")
                         (mkResponse 200 "react") (mkWorker [] [])
                         eq_refl Hn eq_refl Hs))).
Defined.

End Worker.

(** ** The tree of the categories *)

Section Categories.
Import CategoryManagement.

Lemma offered_main edited cats p :
  In p (offered edited cats) -> p <> "" ->
  exists m, In m cats /\ noParent m = true /\ c_id m = p
            /\ match edited with Some e => hasId (c_id e) m = false | None => True end.
Proof.
  unfold offered, mainCategories. intros [E|Hin] Hne; [congruence|].
  apply in_map_iff in Hin. destruct Hin as (m & Hid & Hin).
  apply filter_In in Hin. destruct Hin as [Hin He].
  apply filter_In in Hin. destruct Hin as [Hin Hm].
  exists m. repeat split; auto. destruct edited; [|exact I].
  apply negb_true_iff. assumption.
Qed.

(** X26. The page keeps the categories on two levels, every
    category being a main one or the child of a main one of the list:
    adding a category with a parent the form offers, deleting a
    category (which removes it and its children, and nothing else that
    a remaining category refers to), and editing one with a parent the
    form offers, as long as the edited category stays a main one or has
    no child. *)
Theorem categories_stay_on_two_levels (pg : Page) :
  twoLevels (categories pg) ->
  (forall now data,
     In (parentId data) (offered None (categories pg)) ->
     twoLevels (categories (handleAdd now data pg)))
  /\ (forall id,
        id <> "" -> In id (map c_id (categories pg)) ->
        let pg' := executeDelete (confirmDelete id pg) in
        twoLevels (categories pg')
        /\ forall c, In c (categories pg) ->
             (In c (categories pg') <-> hasId id c = false /\ parentIs id c = false))
  /\ (forall target data,
        editTarget pg = Some target ->
        In (parentId data) (offered (Some target) (categories pg)) ->
        parentId data = "" \/ existsb (parentIs (c_id target)) (categories pg) = false ->
        twoLevels (categories (handleEdit data pg))).
Proof.
  intros H. split; [|split].
  - intros now data Hp c Hin. unfold handleAdd in Hin. simpl in Hin.
    apply in_app_or in Hin. destruct Hin as [Hin|[<-|[]]].
    + destruct (H c Hin) as [Hm|(m & Hm & Hn & Hc)]; [left; assumption|].
      right. exists m. split; [simpl; apply in_or_app; left; assumption | auto].
    + unfold orUndefined, noParent. simpl.
      destruct (String.eqb_spec (parentId data) "") as [E|Hne]; [left; reflexivity|].
      right. destruct (offered_main None _ _ Hp Hne) as (m & Hm & Hn & Hid & _).
      exists m. split; [simpl; apply in_or_app; left; assumption|].
      split; [assumption | congruence].
  - intros id Hne Hid pg'.
    assert (Hf : exists cat, find (hasId id) (categories pg) = Some cat).
    { apply in_map_iff in Hid. destruct Hid as (x & Hx & Hin).
      destruct (find (hasId id) (categories pg)) as [cat|] eqn:F; [eauto|].
      exfalso. apply (find_none _ _ F) in Hin. unfold hasId in Hin.
      rewrite Hx, String.eqb_refl in Hin. discriminate. }
    destruct Hf as (cat & Hf).
    assert (Hc : categories pg'
                 = filter (fun c => negb (hasId id c) && negb (parentIs id c))
                          (categories pg)).
    { unfold pg', confirmDelete, executeDelete. rewrite Hf. reflexivity. }
    rewrite Hc. split.
    + intros c Hin. apply filter_In in Hin. destruct Hin as [Hin Hk].
      apply andb_prop in Hk. destruct Hk as [Hk1 Hk2].
      apply negb_true_iff in Hk1, Hk2.
      destruct (H c Hin) as [Hm|(m & Hm & Hn & Hp)]; [left; assumption|].
      right. exists m. split; [|auto]. apply filter_In. split; [assumption|].
      apply andb_true_intro. split; apply negb_true_iff.
      * unfold hasId. destruct (String.eqb_spec (c_id m) id) as [E|]; [|reflexivity].
        unfold parentIs in Hk2. rewrite Hp, E, String.eqb_refl in Hk2. discriminate.
      * unfold parentIs, noParent in *. destruct (c_parentId m) as [p|]; [|reflexivity].
        apply String.eqb_eq in Hn. subst p. apply String.eqb_neq. congruence.
    + intros c Hin. rewrite filter_In. split.
      * intros [_ Hk]. apply andb_prop in Hk. destruct Hk as [Hk1 Hk2].
        apply negb_true_iff in Hk1, Hk2. auto.
      * intros [Hk1 Hk2]. split; [assumption|]. rewrite Hk1, Hk2. reflexivity.
  - intros target data He Hp Hs c' Hin. unfold handleEdit in *. rewrite He in *.
    simpl in *. apply in_map_iff in Hin. destruct Hin as (c & Hc & Hin).
    set (f := fun c0 : Category =>
                if hasId (c_id target) c0
                then mkCategory (c_id c0) (name data) (code data)
                                (orUndefined (parentId data))
                else c0) in *.
    destruct (hasId (c_id target) c) eqn:Ht.
    + subst c'. unfold orUndefined, noParent. simpl.
      destruct (String.eqb_spec (parentId data) "") as [E|Hne]; [left; reflexivity|].
      right. destruct (offered_main (Some target) _ _ Hp Hne) as (m & Hm & Hn & Hid & Hnt).
      exists m. split; [|split; [assumption | congruence]].
      apply in_map_iff. exists m. split; [|assumption]. unfold f. rewrite Hnt. reflexivity.
    + subst c'. destruct (H c Hin) as [Hm|(m & Hm & Hn & Hpar)]; [left; assumption|].
      right. destruct (hasId (c_id target) m) eqn:Htm.
      * assert (Hsub : existsb (parentIs (c_id target)) (categories pg) = true).
        { apply existsb_exists. exists c. split; [assumption|].
          unfold parentIs. rewrite Hpar. unfold hasId in Htm. exact Htm. }
        destruct Hs as [E|Hs]; [|congruence].
        exists (f m). split; [apply in_map; assumption|].
        unfold f. rewrite Htm. unfold orUndefined, noParent. simpl. rewrite E. simpl.
        split; [reflexivity | assumption].
      * exists m. split; [|auto]. apply in_map_iff. exists m.
        split; [unfold f; rewrite Htm; reflexivity | assumption].
Qed.

Lemma categories_stay_on_two_levels_witness :
  let pg := mkPage [mkCategory "cat-1" "Widgets" "WID" None;
                    mkCategory "cat-2" "Small widgets" "SWD" (Some "cat-1");
                    mkCategory "cat-3" "Gears" "GEA" None] false None None in
  map c_id (categories (executeDelete (confirmDelete "cat-1" pg))) = ["cat-3"]
  /\ twoLevels (categories (executeDelete (confirmDelete "cat-1" pg))).
Proof.
  cbv zeta. split; [reflexivity|].
  assert (H : twoLevels [mkCategory "cat-1" "Widgets" "WID" None;
                         mkCategory "cat-2" "Small widgets" "SWD" (Some "cat-1");
                         mkCategory "cat-3" "Gears" "GEA" None]).
  { intros c [<-|[<-|[<-|[]]]]; [left; reflexivity| |left; reflexivity].
    right. exists (mkCategory "cat-1" "Widgets" "WID" None).
    split; [left; reflexivity|]. split; reflexivity. }
  assert (Hne : "cat-1" <> "") by discriminate.
  assert (Hin : In "cat-1" (map c_id [mkCategory "cat-1" "Widgets" "WID" None;
                         mkCategory "cat-2" "Small widgets" "SWD" (Some "cat-1");
                         mkCategory "cat-3" "Gears" "GEA" None])) by (left; reflexivity).
  exact (proj1 (proj1 (proj2 (categories_stay_on_two_levels
                                (mkPage [mkCategory "cat-1" "Widgets" "WID" None;
                                         mkCategory "cat-2" "Small widgets" "SWD" (Some "cat-1");
                                         mkCategory "cat-3" "Gears" "GEA" None] false None None)
                                H)) "cat-1" Hne Hin)).
Defined.

End Categories.

(** ** Scanning *)

Section Scanning.
Import App Shell.

Lemma find_barcode (l : list Item) (item : Item) :
  In item l -> NoDup (map i_barcode l) ->
  find (fun i => String.eqb (i_barcode i) (i_barcode item)) l = Some item.
Proof.
  induction l as [|a l IH]; simpl; intros Hin Hnd; [contradiction|].
  inversion Hnd as [|? ? Hni Hnd']; subst.
  destruct (String.eqb_spec (i_barcode a) (i_barcode item)) as [E|N].
  - destruct Hin as [->|Hin]; [reflexivity|].
    exfalso. apply Hni. rewrite E. apply in_map. assumption.
  - destruct Hin as [->|Hin]; [contradiction N; reflexivity | auto].
Qed.

(** X27. When the barcodes of the items are distinct, scanning the
    barcode of an item on file selects that very item, adds no
    notification and closes the scanner; scanning a barcode that no
    item has leaves the selection as it was, adds one "Scan Error"
    notification that names the barcode, and closes the scanner
    too. *)
Theorem scan_selects_the_item (clk : Clock) (fr : Frame) (item : Item) (barcode : string) :
  NoDup (map i_barcode (items (app fr))) ->
  (In item (items (app fr)) ->
   let fr' := scan clk (i_barcode item) fr in
   scannedItem (app fr') = Some item
   /\ notifications (app fr') = notifications (app fr)
   /\ showScanner fr' = false)
  /\ (~ In barcode (map i_barcode (items (app fr))) ->
      let fr' := scan clk barcode fr in
      scannedItem (app fr') = scannedItem (app fr)
      /\ notifications (app fr')
         = mkNotif (notifId clk) "Scan Error"
                   ("Barcode " ++ barcode ++ " not found in registry.") false (isoNow clk)
           :: notifications (app fr)
      /\ showScanner fr' = false).
Proof.
  intros Hnd. split.
  - intros Hin fr'. unfold fr', scan, handleScanSuccess.
    rewrite (find_barcode _ _ Hin Hnd). repeat split.
  - intros Hni fr'. unfold fr', scan, handleScanSuccess.
    destruct (find (fun i => String.eqb (i_barcode i) barcode) (items (app fr)))
      as [found|] eqn:F.
    + exfalso. apply find_some in F. destruct F as [Hin E].
      apply String.eqb_eq in E. apply Hni. rewrite <- E. apply in_map. assumption.
    + repeat split.
Qed.

Lemma scan_selects_the_item_witness :
  scannedItem (app (scan Sample.clk "MNL-WID-1"
                      (initialFrame (Sample.withTransactions [] Db.emptyDB))))
  = Some Sample.widget.
Proof.
  assert (Hnd : NoDup (map i_barcode
                         (items (app (initialFrame (Sample.withTransactions [] Db.emptyDB))))))
    by (repeat constructor; intros []).
  assert (Hin : In Sample.widget
                   (items (app (initialFrame (Sample.withTransactions [] Db.emptyDB)))))
    by (left; reflexivity).
  exact (proj1 (proj1 (scan_selects_the_item Sample.clk
                         (initialFrame (Sample.withTransactions [] Db.emptyDB))
                         Sample.widget "" Hnd) Hin)).
Defined.

End Scanning.

(** ** A write that fails, and the next start *)

Section LostWrites.
Import Db Stores.
Context {T : Type}.
Variable initialItems : list Item.
Variable initialWarehouses : list Warehouse.
Variable initialCategories : list Category.

Lemma seed_quiet (d : Disk T) :
  s_outcomes d = [] ->
  seed initialItems initialWarehouses initialCategories d
  = (Resolved tt,
     mkDisk (putAll i_id initialItems []) (putAll w_id initialWarehouses [])
            (putAll c_id initialCategories []) (s_transactions d) (s_notifications d)
            (s_appState d) []).
Proof.
  intros H. unfold seed, persistItems, persistWarehouses, persistCategories.
  unfold bind at 1. rewrite (persist_quiet items _ d H).
  unfold bind at 1.
  match goal with
  | |- context [persist warehouses ?v ?d0] => rewrite (persist_quiet warehouses v d0 H)
  end.
  match goal with
  | |- context [persist categories ?v ?d0] => rewrite (persist_quiet categories v d0 H)
  end.
  simpl. rewrite H. reflexivity.
Qed.

(** X28. When [persistItems] fails in its writing transaction, its
    [clear] having succeeded, the next start, no request failing, finds
    no item: the state gets the initial items, whatever items were to
    be written and whatever the store held, and the store of the items
    is overwritten with the initial ones; the state gets the
    transactions and notifications stored. *)
Theorem failed_write_resets_inventory (its : list Item) (st : App.State) (d : Disk T) :
  s_outcomes d = [true; false] ->
  let lost := persistItems its d in
  let r := mountEffect initialItems initialWarehouses initialCategories st (snd lost) in
  fst lost = Rejected
  /\ App.items (fst (fst r)) = initialItems
  /\ App.transactions (fst (fst r)) = s_transactions d
  /\ App.notifications (fst (fst r)) = s_notifications d
  /\ s_items (snd r) = putAll i_id initialItems [].
Proof.
  intros H. cbv zeta.
  set (d1 := mkDisk [] (s_warehouses d) (s_categories d) (s_transactions d)
                    (s_notifications d) (s_appState d) []).
  assert (E : persistItems its d = (Rejected, d1)).
  { unfold persistItems, persist, dbClear, dbPutMany, bind, request. rewrite H. simpl.
    reflexivity. }
  assert (M : mountEffect initialItems initialWarehouses initialCategories st d1
              = ((usePersisted initialItems initialWarehouses initialCategories
                    (mkPersisted [] (s_warehouses d) (s_categories d) (s_transactions d)
                                 (s_notifications d)) st, true),
                 mkDisk (putAll i_id initialItems []) (putAll w_id initialWarehouses [])
                        (putAll c_id initialCategories []) (s_transactions d)
                        (s_notifications d) (s_appState d) [])).
  { unfold mountEffect. rewrite (load_quiet d1 eq_refl). cbn [p_items isEmpty].
    rewrite (seed_quiet d1 eq_refl). reflexivity. }
  rewrite E. cbn [fst snd]. rewrite M. cbn [fst snd]. repeat split.
Qed.

End LostWrites.

Lemma failed_write_resets_inventory_witness :
  App.items
    (fst (fst (Stores.mountEffect [Sample.widget] [Sample.manila] [Sample.widgets]
                 (Sample.withTransactions [] Db.emptyDB)
                 (snd (Stores.persistItems
                         [App.withQuantity 3 "2026-01-02T00:00:00.000Z" Sample.widget]
                         (Stores.mkDisk [Sample.widget] [] [] [] []
                                        ([] : list (Stores.Entry string)) [true; false]))))))
  = [Sample.widget].
Proof.
  exact (proj1 (proj2 (failed_write_resets_inventory
                         [Sample.widget] [Sample.manila] [Sample.widgets]
                         [App.withQuantity 3 "2026-01-02T00:00:00.000Z" Sample.widget]
                         (Sample.withTransactions [] Db.emptyDB)
                         (Stores.mkDisk [Sample.widget] [] [] [] []
                                        ([] : list (Stores.Entry string)) [true; false])
                         eq_refl))).
Defined.
